(** * ClawSec advisory guardian: feed verification, version matching,
      alert de-duplication and the guarded installer

    A shallow embedding of
      - [lib/utils.mjs], [lib/version.mjs], [lib/feed.mjs],
        [lib/matching.ts], [lib/state.ts], [lib/types.ts], [handler.ts]
        of the [clawsec-advisory-guardian] hook, and
      - [scripts/guarded_skill_install.mjs],
    followed by the properties of the specification stated over it.

    Conventions of the model.
      - A JavaScript string is a Rocq [string]; its characters are read as
        ASCII code units.  White space ([trim], [\s]) is TAB, LF, VT, FF, CR
        and SPACE, line terminators ([.] in a regular expression) are LF and
        CR, and case mapping acts on the letters A-Z / a-z only: the string
        functions are those of JavaScript on texts within ASCII.
      - A JavaScript number is the integer of [Z] that the double equals,
        rounded as the double is ([JS.toDouble]); NaN is [None].
      - The table [notified_matches] of [DEFAULT_STATE], which every copy
        [{ ...DEFAULT_STATE }] shares, is empty whenever a state is loaded,
        as in a process that has not yet scanned with a missing state
        file; the properties about [normalizeState] are stated for objects.
      - An async function that may throw is a computation of the monad [M]
        below: it returns a value, throws an [error], or ends the process
        with an exit status, and it leaves a trace of the effects it had. *)

From Stdlib Require Import ZArith Ascii String List Bool Lia DecimalString.
From stdpp Require Import base option list strings gmap.

Local Open Scope string_scope.
Local Open Scope Z_scope.

(* ===================================================================== *)
(** ** JavaScript string primitives used by the sources                   *)
(* ===================================================================== *)

Module JS.

Definition isWhiteSpace (c : ascii) : bool :=
  existsb (Ascii.eqb c) ["009"; "010"; "011"; "012"; "013"; " "]%char.

Definition isLineTerminator (c : ascii) : bool :=
  existsb (Ascii.eqb c) ["010"; "013"]%char.

Definition isDigit (c : ascii) : bool :=
  (Nat.leb 48 (nat_of_ascii c)) && (Nat.leb (nat_of_ascii c) 57).

Definition isUpper (c : ascii) : bool :=
  (Nat.leb 65 (nat_of_ascii c)) && (Nat.leb (nat_of_ascii c) 90).

Definition isLower (c : ascii) : bool :=
  (Nat.leb 97 (nat_of_ascii c)) && (Nat.leb (nat_of_ascii c) 122).

Definition lowerChar (c : ascii) : ascii :=
  if isUpper c then ascii_of_nat (nat_of_ascii c + 32) else c.

Definition upperChar (c : ascii) : ascii :=
  if isLower c then ascii_of_nat (nat_of_ascii c - 32) else c.

Fixpoint mapChars (f : ascii -> ascii) (s : string) : string :=
  match s with
  | EmptyString => EmptyString
  | String c r => String (f c) (mapChars f r)
  end.

(** [s.toLowerCase()], [s.toUpperCase()] *)
Definition toLowerCase : string -> string := mapChars lowerChar.
Definition toUpperCase : string -> string := mapChars upperChar.

Definition isEmpty (s : string) : bool :=
  match s with EmptyString => true | _ => false end.

(** [s.trimStart()], [s.trimEnd()], [s.trim()] *)
Fixpoint trimStart (s : string) : string :=
  match s with
  | String c r => if isWhiteSpace c then trimStart r else s
  | EmptyString => EmptyString
  end.

Fixpoint trimEnd (s : string) : string :=
  match s with
  | String c r =>
      let r' := trimEnd r in
      if isWhiteSpace c && isEmpty r' then EmptyString else String c r'
  | EmptyString => EmptyString
  end.

Definition trim (s : string) : string := trimEnd (trimStart s).

(** [s.split(sep)] for a one-character separator: never the empty array. *)
Fixpoint split (sep : ascii) (s : string) : list string :=
  match s with
  | EmptyString => [EmptyString]
  | String c r =>
      if Ascii.eqb c sep then EmptyString :: split sep r
      else match split sep r with
           | h :: t => String c h :: t
           | [] => [String c EmptyString]
           end
  end.

(** [s.includes(c)] for a one-character needle *)
Fixpoint includes (c : ascii) (s : string) : bool :=
  match s with
  | EmptyString => false
  | String d r => Ascii.eqb d c || includes c r
  end.

(** [s.startsWith(p)] *)
Definition startsWith (p s : string) : bool := String.prefix p s.

(** [s.endsWith(p)] *)
Definition endsWith (p s : string) : bool :=
  let n := String.length s in
  let k := String.length p in
  Nat.leb k n && String.eqb (String.substring (n - k) k s) p.

(** [s.slice(n)] for [0 <= n] *)
Fixpoint sliceFrom (n : nat) (s : string) : string :=
  match n, s with
  | O, _ => s
  | S n', String _ r => sliceFrom n' r
  | S _, EmptyString => EmptyString
  end.

(** [s.slice(0, n)] for [0 <= n] *)
Fixpoint sliceTo (n : nat) (s : string) : string :=
  match n, s with
  | O, _ => EmptyString
  | S n', String c r => String c (sliceTo n' r)
  | S _, EmptyString => EmptyString
  end.

(** [s.lastIndexOf(c)]: the greatest index holding [c], or -1. *)
Fixpoint lastIndexOf (c : ascii) (s : string) : Z :=
  match s with
  | EmptyString => -1
  | String d r =>
      let i := lastIndexOf c r in
      if 0 <=? i then i + 1
      else if Ascii.eqb d c then 0 else -1
  end.

Definition digitValue (c : ascii) : Z := Z.of_nat (nat_of_ascii c - 48).

Fixpoint digitsValue (acc : Z) (s : string) : Z :=
  match s with
  | String c r => if isDigit c then digitsValue (10 * acc + digitValue c) r else acc
  | EmptyString => acc
  end.

(** The sign that [parseInt] reads, and the text after it. *)
Definition signOf (t : string) : Z * string :=
  match t with
  | String c r =>
      if Ascii.eqb c "-" then (-1, r)
      else if Ascii.eqb c "+" then (1, r)
      else (1, t)
  | EmptyString => (1, t)
  end.

(** The Number values that the sources compute are integers or infinite.
    An integer-valued double is the integer of [Z] it equals, and
    [infinity] and [- infinity] stand for the two infinite values, which
    keeps the order and the equality of the doubles. *)
Definition infinity : Z := 2 ^ 1024.

(** The double nearest to an integer, ties to the even significand: what
    a conversion or an arithmetic operation with that exact result
    returns.  Below 2^53 every integer is a double; above, 53 bits are
    kept, and a result past the largest double is infinite. *)
Definition toDouble (n : Z) : Z :=
  let a := Z.abs n in
  if a <? 2 ^ 53 then n
  else
    let e := Z.log2 a - 52 in
    let q := Z.shiftr a e in
    let rest := a - Z.shiftl q e in
    let half := Z.shiftl 1 (e - 1) in
    let q' := if (half <? rest) || ((rest =? half) && Z.odd q) then q + 1 else q in
    Z.sgn n * Z.min infinity (Z.shiftl q' e).

(** [Number.isFinite(n)] for a number that is not NaN *)
Definition isFinite (n : Z) : bool := Z.abs n <? infinity.

(** [Number.parseInt(s, 10)]; [None] is NaN.  Leading white space is
    skipped, one sign is read, then the longest run of decimal digits; what
    follows the digits is ignored.  The result is the double nearest to
    the number read. *)
Definition parseInt10 (s : string) : option Z :=
  let '(sign, body) := signOf (trimStart s) in
  match body with
  | String c _ => if isDigit c then Some (toDouble (sign * digitsValue 0 body)) else None
  | EmptyString => None
  end.

(** [s.replace(/^v/i, "")] *)
Definition stripLeadingV (s : string) : string :=
  match s with
  | String c r => if Ascii.eqb c "v" || Ascii.eqb c "V" then r else s
  | EmptyString => EmptyString
  end.

(** [Array.from(new Set(values))]: first occurrences, in order. *)
Fixpoint uniqueFrom (seen : list string) (values : list string) : list string :=
  match values with
  | [] => []
  | v :: r =>
      if existsb (String.eqb v) seen then uniqueFrom seen r
      else v :: uniqueFrom (v :: seen) r
  end.

(** [xs.join(sep)] *)
Fixpoint join (sep : string) (xs : list string) : string :=
  match xs with
  | [] => EmptyString
  | [x] => x
  | x :: r => x +:+ sep +:+ join sep r
  end.

End JS.

(* ===================================================================== *)
(** ** lib/utils.mjs                                                      *)
(* ===================================================================== *)

Definition normalizeSkillName (value : string) : string :=
  JS.toLowerCase (JS.trim value).

Definition uniqueStrings (values : list string) : list string :=
  JS.uniqueFrom [] values.

(* ===================================================================== *)
(** ** lib/version.mjs                                                    *)
(* ===================================================================== *)

Module Version.

(** The text [parseSemver] splits at the dots: trimmed, one leading [v] or
    [V] removed, cut before the first [-]. *)
Definition cleaned (version : string) : string :=
  hd EmptyString (JS.split "-" (JS.stripLeadingV (JS.trim version))).

Definition padTo3 (l : list (option Z)) : list (option Z) :=
  l ++ repeat (Some 0) (3 - length l)%nat.

Definition parseSemver (version : string) : option (Z * Z * Z) :=
  let parts := JS.split "." (cleaned version) in
  match parts with
  | [] => None
  | _ =>
      match padTo3 (map JS.parseInt10 (firstn 3 parts)) with
      | [Some a; Some b; Some c] => Some (a, b, c)
      | _ => None
      end
  end.

(** The result is 1, -1 or 0; [None] is the source's [null]. *)
Definition compareSemver (left right : string) : option Z :=
  match parseSemver left, parseSemver right with
  | Some (a0, a1, a2), Some (b0, b1, b2) =>
      Some (if b0 <? a0 then 1 else if a0 <? b0 then -1
            else if b1 <? a1 then 1 else if a1 <? b1 then -1
            else if b2 <? a2 then 1 else if a2 <? b2 then -1
            else 0)
  | _, _ => None
  end.

Definition isRegexSpecial (c : ascii) : bool :=
  existsb (Ascii.eqb c)
    ["."; "*"; "+"; "?"; "^"; "$"; "{"; "}"; "("; ")"; "|"; "["; "]"; "\"]%char.

(** [value.replace(/[.*+?^${}()|[\]\\]/g, "\\$&")] *)
Fixpoint escapeRegex (value : string) : string :=
  match value with
  | EmptyString => EmptyString
  | String c r =>
      if isRegexSpecial c then String "\" (String c (escapeRegex r))
      else String c (escapeRegex r)
  end.

(** [escaped.replace(/\\\*/g, ".*")] *)
Fixpoint starsToWildcards (escaped : string) : string :=
  match escaped with
  | String "\"%char (String "*"%char r) => String "." (String "*" (starsToWildcards r))
  | String c r => String c (starsToWildcards r)
  | EmptyString => EmptyString
  end.

(** The regular expressions that [new RegExp("^" + ... + "$")] can receive
    from the two replacements above: literal characters, escaped syntax
    characters, and [.*]. *)
Inductive token : Type :=
  | Lit (c : ascii)
  | DotStar.

Fixpoint tokens (pattern : string) : option (list token) :=
  match pattern with
  | EmptyString => Some []
  | String "\"%char (String c r) =>
      if isRegexSpecial c then cons (Lit c) <$> tokens r else None
  | String "."%char (String "*"%char r) => cons DotStar <$> tokens r
  | String c r =>
      if isRegexSpecial c then None else cons (Lit c) <$> tokens r
  end.

(** Anchored match, [^...$] without flags. *)
Fixpoint matchTokens (ts : list token) : string -> bool :=
  match ts with
  | [] => JS.isEmpty
  | Lit c :: ts' =>
      fun s =>
        match s with
        | String d r => Ascii.eqb c d && matchTokens ts' r
        | EmptyString => false
        end
  | DotStar :: ts' =>
      fix star (s : string) : bool :=
        matchTokens ts' s
        || match s with
           | String d r => negb (JS.isLineTerminator d) && star r
           | EmptyString => false
           end
  end.

(** [new RegExp(`^${escapeRegex(spec).replace(/\\\*/g, ".*")}$`).test(v)] *)
Definition globTest (spec v : string) : bool :=
  match tokens (starsToWildcards (escapeRegex spec)) with
  | Some ts => matchTokens ts v
  | None => false
  end.

(** [(.+)$]: the rest of the string, not empty, free of line terminators. *)
Definition dotPlusToEnd (s : string) : option string :=
  if JS.isEmpty s then None
  else if existsb JS.isLineTerminator (list_ascii_of_string s) then None
  else Some s.

(** [\s*(.+)$], the white space greedy: the longest run first. *)
Fixpoint spacesThenRest (s : string) : option string :=
  match s with
  | String c r =>
      if JS.isWhiteSpace c then
        match spacesThenRest r with
        | Some t => Some t
        | None => dotPlusToEnd s
        end
      else dotPlusToEnd s
  | EmptyString => None
  end.

Definition operators : list string := [">="; "<="; ">"; "<"; "="].

(** [spec.match(/^(>=|<=|>|<|=)\s*(.+)$/)]: the groups 1 and 2 of the
    first alternative that lets the whole expression match. *)
Fixpoint matchOperators (ops : list string) (spec : string) : option (string * string) :=
  match ops with
  | [] => None
  | op :: ops' =>
      if JS.startsWith op spec then
        match spacesThenRest (JS.sliceFrom (String.length op) spec) with
        | Some rest => Some (op, rest)
        | None => matchOperators ops' spec
        end
      else matchOperators ops' spec
  end.

Definition comparatorMatch (spec : string) : option (string * string) :=
  matchOperators operators spec.

Definition isAnySpec (spec : string) : bool :=
  JS.isEmpty spec || String.eqb spec "*" || String.eqb (JS.toLowerCase spec) "any".

(** [!version || String(version).trim().toLowerCase() === "unknown"];
    [None] is [null]. *)
Definition isUnknownVersion (version : option string) : bool :=
  match version with
  | None => true
  | Some v => JS.isEmpty v || String.eqb (JS.toLowerCase (JS.trim v)) "unknown"
  end.

Definition versionMatches (version : option string) (rawSpec : string) : bool :=
  let spec := JS.trim rawSpec in
  if isAnySpec spec then true
  else if isUnknownVersion version then false
  else
    let normalizedVersion := JS.stripLeadingV (JS.trim (default EmptyString version)) in
    if JS.includes "*" spec then globTest spec normalizedVersion
    else
      match comparatorMatch spec with
      | Some (operator, rest) =>
          let targetVersion := JS.trim rest in
          match compareSemver normalizedVersion targetVersion with
          | None => false
          | Some compared =>
              if String.eqb operator ">=" then 0 <=? compared
              else if String.eqb operator "<=" then compared <=? 0
              else if String.eqb operator ">" then 0 <? compared
              else if String.eqb operator "<" then compared <? 0
              else compared =? 0
          end
      | None =>
          if JS.startsWith "^" spec then
            match parseSemver (JS.sliceFrom 1 spec), parseSemver normalizedVersion with
            | Some (t0, t1, _), Some (c0, c1, _) =>
                if negb (c0 =? t0) then false
                else if (t0 =? 0) && negb (c1 =? t1) then false
                else negb (bool_decide
                             (compareSemver normalizedVersion (JS.sliceFrom 1 spec) = Some (-1)))
            | _, _ => false
            end
          else if JS.startsWith "~" spec then
            match parseSemver (JS.sliceFrom 1 spec), parseSemver normalizedVersion with
            | Some (t0, t1, _), Some (c0, c1, _) =>
                (c0 =? t0) && (c1 =? t1)
                && negb (bool_decide
                           (compareSemver normalizedVersion (JS.sliceFrom 1 spec) = Some (-1)))
            | _, _ => false
            end
          else
            String.eqb normalizedVersion spec
            || String.eqb normalizedVersion (JS.stripLeadingV spec)
      end.

End Version.

(* ===================================================================== *)
(** ** Values, effects and the environment                                *)
(* ===================================================================== *)

#[local] Set Warnings "-register-all".

(** What [JSON.parse] returns.  The properties of an object are listed in
    the order of [Object.entries].  A number is kept as the text that [String] gives for
    it ("0" for both zeros): the sources print the numbers they find in a
    document and test them for truth, and do nothing else with them. *)
Inductive json : Type :=
  | JNull
  | JBool (b : bool)
  | JNum (printed : string)
  | JStr (s : string)
  | JArr (items : list json)
  | JObj (props : list (string * json)).

(** Plain objects as ordered property lists: [o[k]] and [o[k] = v]. *)
Fixpoint objGet {A} (k : string) (o : list (string * A)) : option A :=
  match o with
  | [] => None
  | (k', v) :: r => if String.eqb k' k then Some v else objGet k r
  end.

Fixpoint objSet {A} (k : string) (v : A) (o : list (string * A)) : list (string * A) :=
  match o with
  | [] => [(k, v)]
  | (k', v') :: r => if String.eqb k' k then (k, v) :: r else (k', v') :: objSet k v r
  end.

(** The names that an object literal inherits from [Object.prototype]:
    [table[name]] is not [undefined] for them, even when the table has no
    such entry. *)
Definition inheritedNames : list string :=
  ["constructor"; "__defineGetter__"; "__defineSetter__"; "hasOwnProperty";
   "__lookupGetter__"; "__lookupSetter__"; "isPrototypeOf"; "propertyIsEnumerable";
   "toString"; "valueOf"; "__proto__"; "toLocaleString"].

Definition isInherited (name : string) : bool := existsb (String.eqb name) inheritedNames.

(** [table[key] = value] on a table that started as [{}], for a string
    [value]: an assignment to [__proto__] adds no entry. *)
Definition assign (key value : string) (table : gmap string string) : gmap string string :=
  if String.eqb key "__proto__" then table else <[key := value]> table.

(** utils.mjs [isObject]: [typeof value === "object" && value !== null];
    arrays are objects. *)
Definition isObject (value : json) : bool :=
  match value with
  | JArr _ | JObj _ => true
  | _ => false
  end.

(** [value.name] for the property names the sources read (none of them an
    index or [length], so an array has none of them); [None] is
    [undefined]. *)
Definition prop (name : string) (value : json) : option json :=
  match value with
  | JObj props => objGet name props
  | _ => None
  end.

(** [Object.entries(value)] of an object or an array (whose keys are its
    indices). *)
Definition indexKey (i : nat) : string := NilZero.string_of_uint (Nat.to_uint i).

Definition entriesOf (value : json) : list (string * json) :=
  match value with
  | JObj props => props
  | JArr items => imap (fun i item => (indexKey i, item)) items
  | _ => []
  end.

(** [typeof value.name === "string"] together with the string. *)
Definition propString (name : string) (value : json) : option string :=
  match prop name value with
  | Some (JStr s) => Some s
  | _ => None
  end.

(** [String(value)], also what a template literal puts in place of
    [${value}]: an array prints its elements separated by commas, [null]
    among them as nothing. *)
Fixpoint stringOf (value : json) : string :=
  match value with
  | JNull => "null"
  | JBool b => if b then "true" else "false"
  | JNum printed => printed
  | JStr s => s
  | JArr items =>
      JS.join ","
        (map (fun item => match item with JNull => EmptyString | _ => stringOf item end) items)
  | JObj _ => "[object Object]"
  end.

(** [`${value ?? fallback}`]: a property that is absent or [null] gives
    way to the fallback. *)
Definition textOr (fallback : string) (value : option json) : string :=
  match value with
  | None | Some JNull => fallback
  | Some v => stringOf v
  end.

(** [if (value)]: every object is truthy, the empty string, [false], zero,
    [null] and [undefined] are not. *)
Definition truthyValue (value : option json) : bool :=
  match value with
  | None | Some JNull => false
  | Some (JBool b) => b
  | Some (JNum printed) => negb (String.eqb printed "0")
  | Some (JStr s) => negb (JS.isEmpty s)
  | Some (JArr _) | Some (JObj _) => true
  end.

Inductive error : Type :=
  | SecurityPolicyError (message : string)
  | Error (message : string).

Definition isSecurityPolicyError (e : error) : bool :=
  match e with SecurityPolicyError _ => true | Error _ => false end.

(** The observable effects of a run, oldest first. *)
Inductive event : Type :=
  | FetchRequested (url : string)
  | Warned (message : string)
  | Stdout (text : string)
  | Stderr (text : string)
  | Spawned (command : list string)
  | StateWritten (content : json).

(** The mutable part of the machine: the effects so far and the content
    of the advisory state file ([None]: no file, or a file that
    [JSON.parse] rejects). *)
Record Sys : Type := mkSys {
  trace : list event;
  stateFile : option json;
  (** handler.ts, the module variable of the same name *)
  unsignedModeWarningShown : bool;
}.

Inductive outcome (A : Type) : Type :=
  | Done (a : A)
  | Thrown (e : error)
  | Exited (status : Z).
Arguments Done {A} a.
Arguments Thrown {A} e.
Arguments Exited {A} status.

Definition M (A : Type) : Type := Sys -> outcome A * Sys.

Definition ret {A} (a : A) : M A := fun s => (Done a, s).

Definition bind {A B} (m : M A) (k : A -> M B) : M B := fun s =>
  match m s with
  | (Done a, s') => k a s'
  | (Thrown e, s') => (Thrown e, s')
  | (Exited n, s') => (Exited n, s')
  end.

Notation "x <- m ;; k" := (bind m (fun x => k))
  (at level 100, m at next level, right associativity).
Notation "m ;;; k" := (bind m (fun _ => k))
  (at level 100, right associativity).

Definition throw {A} (e : error) : M A := fun s => (Thrown e, s).

(** [process.exit(status)] *)
Definition exit {A} (status : Z) : M A := fun s => (Exited status, s).

Definition emit (e : event) : M unit :=
  fun s => (Done tt, mkSys (trace s ++ [e])%list (stateFile s) (unsignedModeWarningShown s)).

(** [try { body } catch (error) { handler }] *)
Definition tryCatch {A} (body : M A) (handler : error -> M A) : M A :=
  fun s =>
    match body s with
    | (Thrown e, s') => handler e s'
    | r => r
    end.

(** A synchronous or awaited call that throws when it has no result. *)
Definition orThrow {A} (o : option A) (e : error) : M A :=
  match o with
  | Some a => ret a
  | None => throw e
  end.

Definition initial (file : option json) : Sys := mkSys [] file false.

(** [new URL(s)], the fields the sources read. *)
Record Url : Type := mkUrl {
  protocol : string;
  hostname : string;
  pathname : string;
}.

(** A [fetch] that is let through by the policy: it rejects (network
    error, abort after the 10 s timeout, unreadable body), or answers
    with [response.ok] false, or with a body. *)
Inductive response : Type :=
  | NetworkError
  | NotOk
  | Body (text : string).

(** A directory entry of [fs.readdir(..., { withFileTypes: true })]. *)
Record Dirent : Type := mkDirent {
  entryName : string;
  isDirectory : bool;
}.

(** The outcome of [spawnSync]. *)
Inductive spawnResult : Type :=
  | SpawnError (message : string)
  | SpawnStatus (status : option Z).

(** What goes wrong, if anything, while [persistState] writes. *)
Inductive persistFault : Type :=
  | NoFault
  | WriteFails
  | ChmodUnsupported (code : string)
  | ChmodFails.

(** The platform and the outside world, which the program only reads. *)
Record World : Type := mkWorld {
  parseUrl : string -> option Url;
  resolveUrl : string -> string -> option string;
  fetch : string -> response;
  readFile : string -> option string;
  readdir : string -> option (list Dirent);
  jsonParse : string -> option json;
  (** [crypto.verify(null, payload, crypto.createPublicKey(key), sig)] on
      the base64 text of the signature; [false] when any step throws *)
  ed25519Verify : string -> string -> string -> bool;
  sha256Hex : string -> string;
  pathJoin : list string -> string;
  pathDirname : string -> string;
  pathBasename : string -> string;
  homedir : string;
  env : string -> option string;
  (** [Date.now()], [new Date().toISOString()], which is never blank, and
      [Date.parse] *)
  nowMs : Z;
  nowIso : string;
  nowIsoFilled : JS.isEmpty (JS.trim nowIso) = false;
  dateParse : string -> option Z;
  spawnSync : list string -> spawnResult;
  persistFaults : persistFault;
}.

(* ===================================================================== *)
(** ** lib/feed.mjs                                                       *)
(* ===================================================================== *)

Module Feed.

Definition ALLOWED_DOMAINS : list string :=
  ["clawsec.prompt.security"; "prompt.security"; "raw.githubusercontent.com"; "github.com"].

Definition isAllowedDomain (w : World) (url : string) : bool :=
  match parseUrl w url with
  | None => false
  | Some parsed =>
      if negb (String.eqb (protocol parsed) "https:") then false
      else
        let hostname := JS.toLowerCase (hostname parsed) in
        existsb (fun allowed =>
                   String.eqb hostname allowed
                   || JS.endsWith ("." +:+ allowed) hostname)
                ALLOWED_DOMAINS
  end.

Definition policyMessage (url : string) : string :=
  "Security policy violation: URL domain not allowed. "
  +:+ "Only connections to " +:+ JS.join ", " ALLOWED_DOMAINS +:+ " are permitted. "
  +:+ "Blocked: " +:+ url.

Definition secureFetch (w : World) (url : string) : M response :=
  emit (FetchRequested url) ;;;
  if negb (isAllowedDomain w url) then throw (SecurityPolicyError (policyMessage url))
  else
    match fetch w url with
    | NetworkError => throw (Error "fetch failed")
    | r => ret r
    end.

Record specifier : Type := mkSpecifier {
  name : string;
  versionSpec : string;
}.

Definition parseAffectedSpecifier (rawSpecifier : string) : option specifier :=
  let specifier := JS.trim rawSpecifier in
  if JS.isEmpty specifier then None
  else
    let atIndex := JS.lastIndexOf "@" specifier in
    if atIndex <=? 0 then Some (mkSpecifier specifier "*")
    else Some (mkSpecifier (JS.sliceTo (Z.to_nat atIndex) specifier)
                           (JS.sliceFrom (Z.to_nat (atIndex + 1)) specifier)).

(** [typeof v === "string" && v.trim()] *)
Definition isFilledString (v : option json) : bool :=
  match v with
  | Some (JStr s) => negb (JS.isEmpty (JS.trim s))
  | _ => false
  end.

Definition isValidAdvisory (advisory : json) : bool :=
  isObject advisory
  && isFilledString (prop "id" advisory)
  && isFilledString (prop "severity" advisory)
  && match prop "affected" advisory with
     | Some (JArr entries) => forallb (fun entry => isFilledString (Some entry)) entries
     | _ => false
     end.

Definition isValidFeedPayload (raw : json) : bool :=
  isObject raw
  && isFilledString (prop "version" raw)
  && match prop "advisories" raw with
     | Some (JArr advisories) => forallb isValidAdvisory advisories
     | _ => false
     end.

Definition removeWhiteSpace (s : string) : string :=
  string_of_list_ascii (List.filter (fun c => negb (JS.isWhiteSpace c)) (list_ascii_of_string s)).

(** The base64 text handed to [Buffer.from(..., "base64")]; [None] is
    [null]. *)
Definition decodeSignature (w : World) (signatureRaw : string) : option string :=
  let trimmed := JS.trim signatureRaw in
  if JS.isEmpty trimmed then None
  else
    let encoded :=
      if JS.startsWith "{" trimmed then
        match jsonParse w trimmed with
        | None => None
        | Some parsed =>
            match (if isObject parsed then propString "signature" parsed else None) with
            | Some s => Some s
            | None => Some trimmed
            end
        end
      else Some trimmed in
    match encoded with
    | None => None
    | Some e =>
        let normalized := removeWhiteSpace e in
        if JS.isEmpty normalized then None else Some normalized
    end.

Definition verifySignedPayload (w : World) (payloadRaw signatureRaw publicKeyPem : string) : bool :=
  match decodeSignature w signatureRaw with
  | None => false
  | Some signature =>
      let keyPem := JS.trim publicKeyPem in
      if JS.isEmpty keyPem then false
      else ed25519Verify w payloadRaw keyPem signature
  end.

Definition isHex64 (s : string) : bool :=
  Nat.eqb (String.length s) 64
  && forallb (fun c => JS.isDigit c
                       || (Nat.leb 97 (nat_of_ascii c) && Nat.leb (nat_of_ascii c) 102))
             (list_ascii_of_string s).

Definition extractSha256Value (value : json) : option string :=
  let check (s : string) :=
    let normalized := JS.toLowerCase (JS.trim s) in
    if isHex64 normalized then Some normalized else None in
  match value with
  | JStr s => check s
  | _ =>
      if isObject value then
        match propString "sha256" value with
        | Some s => check s
        | None => None
        end
      else None
  end.

Record manifest : Type := mkManifest {
  schemaVersion : string;
  algorithm : string;
  files : gmap string string;
}.

(** The loop over [Object.entries(parsed.files)]. *)
Fixpoint collectDigests (entries : list (string * json)) (files : gmap string string)
  : error + gmap string string :=
  match entries with
  | [] => inr files
  | (key, value) :: r =>
      if JS.isEmpty (JS.trim key) then collectDigests r files
      else
        match extractSha256Value value with
        | None => inl (Error ("Invalid checksum digest entry for " +:+ key))
        | Some digest => collectDigests r (assign key digest files)
        end
  end.

Definition parseChecksumsManifest (w : World) (manifestRaw : string) : M manifest :=
  parsed <- orThrow (jsonParse w manifestRaw) (Error "Checksum manifest is not valid JSON") ;;
  if negb (isObject parsed) then throw (Error "Checksum manifest must be an object")
  else
    let algorithmRaw :=
      match propString "algorithm" parsed with
      | Some a => JS.toLowerCase (JS.trim a)
      | None => "sha256"
      end in
    if negb (String.eqb algorithmRaw "sha256") then
      throw (Error ("Unsupported checksum manifest algorithm: "
                    +:+ (if JS.isEmpty algorithmRaw then "(empty)" else algorithmRaw)))
    else
      let schemaVersion :=
        match propString "schema_version" parsed with
        | Some v => JS.trim v
        | None =>
            match propString "version" parsed with
            | Some v => JS.trim v
            | None =>
                match propString "generated_at" parsed with
                | Some v => JS.trim v
                | None => "1"
                end
            end
        end in
      if JS.isEmpty schemaVersion then throw (Error "Checksum manifest missing schema_version")
      else
        match prop "files" parsed with
        | Some filesRaw =>
            if negb (isObject filesRaw) then throw (Error "Checksum manifest missing files object")
            else
              match collectDigests (entriesOf filesRaw) ∅ with
              | inl e => throw e
              | inr files =>
                  if bool_decide (files = ∅) then
                    throw (Error "Checksum manifest has no usable file digests")
                  else ret (mkManifest schemaVersion algorithmRaw files)
              end
        | None => throw (Error "Checksum manifest missing files object")
        end.

(** The loop over [Object.entries(expectedEntries)].  A name without an
    entry that the table inherits is looked up to a value that is no
    digest. *)
Fixpoint verifyChecksums (w : World) (m : manifest) (expectedEntries : list (string * string))
  : M unit :=
  match expectedEntries with
  | [] => ret tt
  | (entryName, entryContent) :: r =>
      if JS.isEmpty entryName then verifyChecksums w m r
      else
        match files m !! entryName with
        | None =>
            if isInherited entryName then throw (Error ("Checksum mismatch for " +:+ entryName))
            else throw (Error ("Checksum manifest missing required entry: " +:+ entryName))
        | Some expectedDigest =>
            if JS.isEmpty expectedDigest then
              throw (Error ("Checksum manifest missing required entry: " +:+ entryName))
            else if negb (String.eqb (sha256Hex w entryContent) expectedDigest) then
              throw (Error ("Checksum mismatch for " +:+ entryName))
            else verifyChecksums w m r
        end
  end.

(** [/\/?[^/]*$/] removed: the text before the last slash. *)
Definition stripLastSegment (s : string) : string :=
  let lastSlash := JS.lastIndexOf "/" s in
  if 0 <=? lastSlash then JS.sliceTo (Z.to_nat lastSlash) s else EmptyString.

Definition defaultChecksumsUrl (w : World) (feedUrl : string) : string :=
  match resolveUrl w "checksums.json" feedUrl with
  | Some url => url
  | None => stripLastSegment feedUrl +:+ "/checksums.json"
  end.

Definition afterLastSlash (s : string) : option string :=
  let lastSlash := JS.lastIndexOf "/" s in
  if (0 <=? lastSlash) && (lastSlash <? Z.of_nat (String.length s) - 1)
  then Some (JS.sliceFrom (Z.to_nat (lastSlash + 1)) s)
  else None.

Definition safeBasename (w : World) (urlOrPath fallback : string) : string :=
  match parseUrl w urlOrPath with
  | Some parsed => default fallback (afterLastSlash (pathname parsed))
  | None => default fallback (afterLastSlash (JS.trim urlOrPath))
  end.

(** A string that is neither [null] nor empty. *)
Definition truthy (text : option string) : option string :=
  match text with
  | Some s => if JS.isEmpty s then None else Some s
  | None => None
  end.

Definition fetchText (w : World) (targetUrl : string) : M (option string) :=
  tryCatch
    (r <- secureFetch w targetUrl ;;
     match r with
     | Body text => ret (Some text)
     | _ => ret None
     end)
    (fun e => if isSecurityPolicyError e then throw e else ret None).

(** [await fs.readFile(path, "utf8")] *)
Definition readFileM (w : World) (path : string) : M string :=
  orThrow (readFile w path)
          (Error ("ENOENT: no such file or directory, open '" +:+ path +:+ "'")).

Module LocalOptions.
Record t : Type := mk {
  signaturePath : option string;
  checksumsPath : option string;
  checksumsSignaturePath : option string;
  publicKeyPem : option string;
  checksumsPublicKeyPem : option string;
  allowUnsigned : option bool;
  verifyChecksumManifest : option bool;
  checksumFeedEntry : option string;
  checksumSignatureEntry : option string;
  checksumPublicKeyEntry : option string;
}.
End LocalOptions.

Module RemoteOptions.
Record t : Type := mk {
  signatureUrl : option string;
  checksumsUrl : option string;
  checksumsSignatureUrl : option string;
  publicKeyPem : option string;
  checksumsPublicKeyPem : option string;
  allowUnsigned : option bool;
  verifyChecksumManifest : option bool;
  checksumFeedEntry : option string;
  checksumSignatureEntry : option string;
}.
End RemoteOptions.

(** The defaults of [loadLocalFeed] (lines 381-387). *)
Module Local.
Import LocalOptions.

Definition signaturePathOf (feedPath : string) (options : t) : string :=
  default (feedPath +:+ ".sig") (signaturePath options).

Definition checksumsPathOf (w : World) (feedPath : string) (options : t) : string :=
  default (pathJoin w [pathDirname w feedPath; "checksums.json"]) (checksumsPath options).

Definition checksumsSignaturePathOf (w : World) (feedPath : string) (options : t) : string :=
  default (checksumsPathOf w feedPath options +:+ ".sig") (checksumsSignaturePath options).

Definition publicKeyPemOf (options : t) : string :=
  default EmptyString (publicKeyPem options).

Definition checksumsPublicKeyPemOf (options : t) : string :=
  default (publicKeyPemOf options) (checksumsPublicKeyPem options).

Definition allowUnsignedOf (options : t) : bool :=
  bool_decide (allowUnsigned options = Some true).

Definition verifyChecksumManifestOf (options : t) : bool :=
  negb (bool_decide (verifyChecksumManifest options = Some false)).

(** The object literal [expectedEntries] (lines 408-415), a later key
    replacing an equal earlier one, and the assignment that follows it. *)
Definition expectedEntries (w : World) (feedPath : string) (options : t)
    (payloadRaw signatureRaw : string) : list (string * string) :=
  let checksumFeedEntry := default (pathBasename w feedPath) (checksumFeedEntry options) in
  let checksumSignatureEntry :=
    default (pathBasename w (signaturePathOf feedPath options))
            (checksumSignatureEntry options) in
  let entries :=
    objSet checksumSignatureEntry signatureRaw (objSet checksumFeedEntry payloadRaw []) in
  match truthy (checksumPublicKeyEntry options) with
  | Some entry =>
      if String.eqb entry "__proto__" then entries
      else objSet entry (publicKeyPemOf options) entries
  | None => entries
  end.

End Local.

Definition loadLocalFeed (w : World) (feedPath : string) (options : LocalOptions.t) : M json :=
  let signaturePath := Local.signaturePathOf feedPath options in
  let checksumsPath := Local.checksumsPathOf w feedPath options in
  let checksumsSignaturePath := Local.checksumsSignaturePathOf w feedPath options in
  let publicKeyPem := Local.publicKeyPemOf options in
  let checksumsPublicKeyPem := Local.checksumsPublicKeyPemOf options in
  let allowUnsigned := Local.allowUnsignedOf options in
  let verifyChecksumManifest := Local.verifyChecksumManifestOf options in
  payloadRaw <- readFileM w feedPath ;;
  _ <- (if negb allowUnsigned then
         signatureRaw <- readFileM w signaturePath ;;
         if negb (verifySignedPayload w payloadRaw signatureRaw publicKeyPem) then
           throw (Error ("Feed signature verification failed for local feed: " +:+ feedPath))
         else if verifyChecksumManifest then
           checksumsRaw <- readFileM w checksumsPath ;;
           checksumsSignatureRaw <- readFileM w checksumsSignaturePath ;;
           if negb (verifySignedPayload w checksumsRaw checksumsSignatureRaw checksumsPublicKeyPem)
           then throw (Error ("Checksum manifest signature verification failed: "
                              +:+ checksumsPath))
           else
             checksumsManifest <- parseChecksumsManifest w checksumsRaw ;;
             verifyChecksums w checksumsManifest
               (Local.expectedEntries w feedPath options payloadRaw signatureRaw)
         else ret tt
       else ret tt) ;;
  payload <- orThrow (jsonParse w payloadRaw) (Error "SyntaxError: invalid JSON") ;;
  if negb (isValidFeedPayload payload) then
    throw (Error ("Invalid advisory feed format: " +:+ feedPath))
  else ret payload.

(** The defaults of [loadRemoteFeed] (lines 448-454). *)
Module Remote.
Import RemoteOptions.

Definition signatureUrlOf (feedUrl : string) (options : t) : string :=
  default (feedUrl +:+ ".sig") (signatureUrl options).

Definition checksumsUrlOf (w : World) (feedUrl : string) (options : t) : string :=
  default (defaultChecksumsUrl w feedUrl) (checksumsUrl options).

Definition checksumsSignatureUrlOf (w : World) (feedUrl : string) (options : t) : string :=
  default (checksumsUrlOf w feedUrl options +:+ ".sig") (checksumsSignatureUrl options).

Definition publicKeyPemOf (options : t) : string :=
  default EmptyString (publicKeyPem options).

Definition checksumsPublicKeyPemOf (options : t) : string :=
  default (publicKeyPemOf options) (checksumsPublicKeyPem options).

Definition allowUnsignedOf (options : t) : bool :=
  bool_decide (allowUnsigned options = Some true).

Definition verifyChecksumManifestOf (options : t) : bool :=
  negb (bool_decide (verifyChecksumManifest options = Some false)).

(** The object literal passed to [verifyChecksums] (lines 485-488). *)
Definition expectedEntries (w : World) (feedUrl : string) (options : t)
    (payloadRaw signatureRaw : string) : list (string * string) :=
  let checksumFeedEntry :=
    default (safeBasename w feedUrl "feed.json") (checksumFeedEntry options) in
  let checksumSignatureEntry :=
    default (safeBasename w (signatureUrlOf feedUrl options) "feed.json.sig")
            (checksumSignatureEntry options) in
  objSet checksumSignatureEntry signatureRaw (objSet checksumFeedEntry payloadRaw []).

End Remote.

(** The part of [loadRemoteFeed] guarded by [if (!allowUnsigned)]: [true]
    when control reaches the end of the block, [false] when one of its
    [return null] statements is taken. *)
Definition remoteVerification (w : World) (feedUrl : string) (options : RemoteOptions.t)
    (payloadRaw : string) : M bool :=
  let signatureUrl := Remote.signatureUrlOf feedUrl options in
  let checksumsUrl := Remote.checksumsUrlOf w feedUrl options in
  let checksumsSignatureUrl := Remote.checksumsSignatureUrlOf w feedUrl options in
  let publicKeyPem := Remote.publicKeyPemOf options in
  let checksumsPublicKeyPem := Remote.checksumsPublicKeyPemOf options in
  let verifyChecksumManifest := Remote.verifyChecksumManifestOf options in
  fetched <- fetchText w signatureUrl ;;
  match truthy fetched with
  | None => ret false
  | Some signatureRaw =>
      if negb (verifySignedPayload w payloadRaw signatureRaw publicKeyPem) then ret false
      else if verifyChecksumManifest then
        checksumsFetched <- fetchText w checksumsUrl ;;
        checksumsSignatureFetched <- fetchText w checksumsSignatureUrl ;;
        match truthy checksumsFetched, truthy checksumsSignatureFetched with
        | Some checksumsRaw, Some checksumsSignatureRaw =>
            if negb (verifySignedPayload w checksumsRaw checksumsSignatureRaw
                                         checksumsPublicKeyPem)
            then ret false
            else
              checksumsManifest <- parseChecksumsManifest w checksumsRaw ;;
              verifyChecksums w checksumsManifest
                (Remote.expectedEntries w feedUrl options payloadRaw signatureRaw) ;;;
              ret true
        | _, _ => ret true
        end
      else ret true
  end.

(** [null] is [None].  [secureFetch] is always a function, so the first
    [return null] of the source is never taken. *)
Definition loadRemoteFeed (w : World) (feedUrl : string) (options : RemoteOptions.t)
  : M (option json) :=
  let allowUnsigned := Remote.allowUnsignedOf options in
  tryCatch
    (fetched <- fetchText w feedUrl ;;
     match truthy fetched with
     | None => ret None
     | Some payloadRaw =>
         verified <- (if negb allowUnsigned then remoteVerification w feedUrl options payloadRaw
                     else ret true) ;;
         if verified then
           match jsonParse w payloadRaw with
           | Some payload => if isValidFeedPayload payload then ret (Some payload) else ret None
           | None => ret None
           end
         else ret None
     end)
    (fun e => if isSecurityPolicyError e then ret None else throw e).

End Feed.

(* ===================================================================== *)
(** ** lib/types.ts                                                       *)
(* ===================================================================== *)

Module HookEvent.
Record t : Type := mk {
  type : option string;
  action : option string;
  messages : option (list string);
}.
End HookEvent.

(** [isValidFeedPayload] lets an advisory pass when [id] and [severity] are
    filled strings and [affected] is an array of filled strings; it does
    not look at the other properties, which are kept as [JSON.parse] found
    them ([None]: not there). *)
Module Advisory.
Record t : Type := mk {
  id : option string;
  severity : option string;
  type : option json;
  title : option json;
  description : option json;
  action : option json;
  published : option json;
  updated : option json;
  affected : option (list string);
}.
End Advisory.

Module FeedPayload.
Record t : Type := mk {
  version : string;
  updated : option string;
  advisories : list Advisory.t;
}.
End FeedPayload.

Module InstalledSkill.
Record t : Type := mk {
  name : string;
  dirName : string;
  version : option string;
}.
End InstalledSkill.

Module AdvisoryMatch.
Record t : Type := mk {
  advisory : Advisory.t;
  skill : InstalledSkill.t;
  matchedAffected : list string;
}.
End AdvisoryMatch.

Module AdvisoryState.
Record t : Type := mk {
  schema_version : string;
  known_advisories : list string;
  last_feed_check : option string;
  last_feed_updated : option string;
  last_hook_scan : option string;
  notified_matches : gmap string string;
}.
End AdvisoryState.

(** The view of a parsed payload at the types above.  [isValidFeedPayload]
    is the type guard that admits it, and what it has checked is read at
    the type it has checked. *)
Definition stringItems (items : list json) : list string :=
  omap (fun item => match item with JStr s => Some s | _ => None end) items.

Definition asAdvisory (raw : json) : Advisory.t :=
  Advisory.mk
    (propString "id" raw) (propString "severity" raw) (prop "type" raw)
    (prop "title" raw) (prop "description" raw) (prop "action" raw)
    (prop "published" raw) (prop "updated" raw)
    (match prop "affected" raw with
     | Some (JArr items) => Some (stringItems items)
     | _ => None
     end).

Definition asFeedPayload (raw : json) : FeedPayload.t :=
  FeedPayload.mk
    (default EmptyString (propString "version" raw))
    (propString "updated" raw)
    (match prop "advisories" raw with
     | Some (JArr items) => map asAdvisory items
     | _ => []
     end).

(* ===================================================================== *)
(** ** lib/matching.ts                                                    *)
(* ===================================================================== *)

Module Matching.

(** [typeof parsed.name === "string" && parsed.name.trim()], then the
    trimmed text. *)
Definition filledProp (name : string) (parsed : json) : option string :=
  if isObject parsed then
    match propString name parsed with
    | Some s => Feed.truthy (Some (JS.trim s))
    | None => None
    end
  else None.

Definition discoverInstalledSkills (w : World) (installRoot : string) : list InstalledSkill.t :=
  match readdir w installRoot with
  | None => []
  | Some entries =>
      flat_map
        (fun entry =>
           if negb (isDirectory entry) then []
           else
             let fallbackName := entryName entry in
             let skillDir := pathJoin w [installRoot; entryName entry] in
             let skillJsonPath := pathJoin w [skillDir; "skill.json"] in
             let parsed :=
               match readFile w skillJsonPath with
               | Some rawSkillJson => jsonParse w rawSkillJson
               | None => None
               end in
             let skillName :=
               match parsed with
               | Some j => default fallbackName (filledProp "name" j)
               | None => fallbackName
               end in
             let version :=
               match parsed with
               | Some j => default "unknown" (filledProp "version" j)
               | None => "unknown"
               end in
             [InstalledSkill.mk skillName (entryName entry) (Some version)])
        entries
  end.

Definition affectedSpecifierMatchesSkill (rawSpecifier : string) (skill : InstalledSkill.t)
  : bool :=
  match Feed.parseAffectedSpecifier rawSpecifier with
  | None => false
  | Some parsed =>
      let specName := normalizeSkillName (Feed.name parsed) in
      let skillName := normalizeSkillName (InstalledSkill.name skill) in
      if negb (String.eqb specName skillName) then false
      else Version.versionMatches (InstalledSkill.version skill) (Feed.versionSpec parsed)
  end.

Definition advisoryMatchesSkill (advisory : Advisory.t) (skill : InstalledSkill.t)
  : list string :=
  let affected := default [] (Advisory.affected advisory) in
  uniqueStrings (List.filter (fun specifier => affectedSpecifierMatchesSkill specifier skill) affected).

Definition findMatches (feed : FeedPayload.t) (installedSkills : list InstalledSkill.t)
  : list AdvisoryMatch.t :=
  flat_map
    (fun advisory =>
       let affected := default [] (Advisory.affected advisory) in
       if Nat.eqb (length affected) 0 then []
       else
         flat_map
           (fun skill =>
              let matchedAffected := advisoryMatchesSkill advisory skill in
              if Nat.eqb (length matchedAffected) 0 then []
              else [AdvisoryMatch.mk advisory skill matchedAffected])
           installedSkills)
    (FeedPayload.advisories feed).

Definition matchKey (m : AdvisoryMatch.t) : string :=
  let normalizedSkillName := normalizeSkillName (InstalledSkill.name (AdvisoryMatch.skill m)) in
  let version := default "unknown" (InstalledSkill.version (AdvisoryMatch.skill m)) in
  let advisory := AdvisoryMatch.advisory m in
  let advisoryId :=
    match Advisory.id advisory with
    | Some id => id
    | None =>
        textOr "untitled" (Advisory.title advisory) +:+ "::"
        +:+ textOr (textOr "unknown-ts" (Advisory.updated advisory))
                   (Advisory.published advisory)
    end in
  advisoryId +:+ "::" +:+ normalizedSkillName +:+ "@" +:+ version.

(** [\w] *)
Definition isWordChar (c : ascii) : bool :=
  JS.isDigit c || JS.isUpper c || JS.isLower c || Ascii.eqb c "_".

(** [\b] between a character (or an end of the text) and the next. *)
Definition boundary (before after : option ascii) : bool :=
  xorb (from_option isWordChar false before) (from_option isWordChar false after).

Definition firstChar (s : string) : option ascii :=
  match s with String c _ => Some c | EmptyString => None end.

Definition lastChar (s : string) : option ascii :=
  last (list_ascii_of_string s).

(** One alternative of [\b(...)\b] matched where [text] starts, [before]
    being the character in front of it. *)
Definition phraseHere (before : option ascii) (text phrase : string) : bool :=
  JS.startsWith phrase text
  && boundary before (firstChar phrase)
  && boundary (lastChar phrase) (firstChar (JS.sliceFrom (String.length phrase) text)).

(** [/\b(p1|p2|...)\b/.test(text)] *)
Fixpoint testPhrasesFrom (phrases : list string) (before : option ascii) (text : string)
  : bool :=
  existsb (phraseHere before text) phrases
  || match text with
     | String c r => testPhrasesFrom phrases (Some c) r
     | EmptyString => false
     end.

Definition testPhrases (phrases : list string) (text : string) : bool :=
  testPhrasesFrom phrases None text.

(** [`${value ?? ""}`] and [String(value ?? "")] *)
Definition orEmpty (value : option json) : string := textOr EmptyString value.

Definition looksMalicious (advisory : Advisory.t) : bool :=
  let type := JS.toLowerCase (orEmpty (Advisory.type advisory)) in
  let combined :=
    JS.toLowerCase (orEmpty (Advisory.title advisory) +:+ " "
                    +:+ orEmpty (Advisory.description advisory) +:+ " "
                    +:+ orEmpty (Advisory.action advisory)) in
  if String.eqb type "malicious_skill" || String.eqb type "malicious_plugin" then true
  else testPhrases ["malicious"; "exfiltrate"; "exfiltration"; "backdoor"; "trojan";
                    "credential theft"; "stealer"] combined.

Definition looksRemovalRecommended (advisory : Advisory.t) : bool :=
  let combined :=
    JS.toLowerCase (orEmpty (Advisory.action advisory) +:+ " "
                    +:+ orEmpty (Advisory.title advisory) +:+ " "
                    +:+ orEmpty (Advisory.description advisory)) in
  testPhrases ["remove"; "uninstall"; "delete"; "disable"; "do not use"; "quarantine"] combined.

Definition natToString (n : nat) : string := NilZero.string_of_uint (Nat.to_uint n).

Definition MAX_LISTED : nat := 8.

Definition matchLines (m : AdvisoryMatch.t) : list string :=
  let advisory := AdvisoryMatch.advisory m in
  let skill := AdvisoryMatch.skill m in
  let severity := JS.toUpperCase (default "unknown" (Advisory.severity advisory)) in
  let advisoryId := default "unknown-id" (Advisory.id advisory) in
  let version := default "unknown" (InstalledSkill.version skill) in
  let matched := JS.join ", " (AdvisoryMatch.matchedAffected m) in
  ("- [" +:+ severity +:+ "] " +:+ advisoryId +:+ " -> " +:+ InstalledSkill.name skill
   +:+ "@" +:+ version
   +:+ (if JS.isEmpty matched then EmptyString else " (matched: " +:+ matched +:+ ")"))
  :: (if truthyValue (Advisory.action advisory)
      then ["  Action: " +:+ textOr EmptyString (Advisory.action advisory)]
      else []).

Definition buildAlertMessage (w : World) (matches : list AdvisoryMatch.t) (installRoot : string)
  : string :=
  let removalMatches :=
    List.filter (fun entry => looksMalicious (AdvisoryMatch.advisory entry)
                         || looksRemovalRecommended (AdvisoryMatch.advisory entry)) matches in
  let impactedSkills :=
    uniqueStrings (map (fun entry => InstalledSkill.name (AdvisoryMatch.skill entry))
                       removalMatches) in
  let impactedDirs :=
    uniqueStrings (map (fun entry => InstalledSkill.dirName (AdvisoryMatch.skill entry))
                       removalMatches) in
  JS.join (String "010" EmptyString)
    (["CLAWSEC ALERT: advisory feed matches installed skill(s).";
      "Affected skill advisories:"]
     ++ flat_map matchLines (firstn MAX_LISTED matches)
     ++ (if Nat.ltb MAX_LISTED (length matches)
         then ["- ... " +:+ natToString (length matches - MAX_LISTED)
               +:+ " additional match(es) not shown"]
         else [])
     ++ (if Nat.ltb 0 (length removalMatches) then
           [EmptyString;
            "Recommendation: one or more matches indicate potentially malicious or unsafe skills.";
            "Best practice: remove or disable affected skills only after explicit user approval.";
            "Double-confirmation policy: treat the install request as first intent and require an additional explicit confirmation with this advisory context.";
            "Approval needed: ask the user to approve removal of: "
            +:+ JS.join ", " impactedSkills +:+ ".";
            "Candidate removal paths:"]
           ++ map (fun dir => "- " +:+ pathJoin w [installRoot; dir]) impactedDirs
         else
           [EmptyString;
            "Recommendation: review advisories and update/remove affected skills as directed."])).

End Matching.

(* ===================================================================== *)
(** ** lib/state.ts                                                       *)
(* ===================================================================== *)

Module State.

Definition DEFAULT_STATE : AdvisoryState.t :=
  AdvisoryState.mk "1.1" [] None None None ∅.

(** [typeof value === "string" && value.trim() !== ""] *)
Definition isFilled (s : string) : bool := negb (JS.isEmpty (JS.trim s)).

(** The loop over [Object.entries(raw.notified_matches)]. *)
Fixpoint collectNotified (entries : list (string * json)) (notifiedMatches : gmap string string)
  : gmap string string :=
  match entries with
  | [] => notifiedMatches
  | (key, JStr value) :: r =>
      collectNotified r (if isFilled value then assign key value notifiedMatches
                         else notifiedMatches)
  | _ :: r => collectNotified r notifiedMatches
  end.

Definition normalizeState (raw : json) : AdvisoryState.t :=
  if negb (isObject raw) then DEFAULT_STATE
  else
    let knownAdvisories :=
      match prop "known_advisories" raw with
      | Some (JArr items) => uniqueStrings (List.filter isFilled (stringItems items))
      | _ => []
      end in
    let notifiedMatches :=
      match prop "notified_matches" raw with
      | Some m => if isObject m then collectNotified (entriesOf m) ∅ else ∅
      | None => ∅
      end in
    AdvisoryState.mk "1.1" knownAdvisories
      (propString "last_feed_check" raw)
      (propString "last_feed_updated" raw)
      (propString "last_hook_scan" raw)
      notifiedMatches.

Definition nullable (o : option string) : json :=
  match o with Some s => JStr s | None => JNull end.

(** An in-memory state as a value: what [normalizeState] inspects in
    [persistState], and what [JSON.parse] gives back from the text that
    [JSON.stringify] wrote. *)
Definition stateToJson (state : AdvisoryState.t) : json :=
  JObj [("schema_version", JStr (AdvisoryState.schema_version state));
        ("known_advisories", JArr (map JStr (AdvisoryState.known_advisories state)));
        ("last_feed_check", nullable (AdvisoryState.last_feed_check state));
        ("last_feed_updated", nullable (AdvisoryState.last_feed_updated state));
        ("last_hook_scan", nullable (AdvisoryState.last_hook_scan state));
        ("notified_matches",
         JObj (map (fun kv => (kv.1, JStr kv.2))
                   (map_to_list (AdvisoryState.notified_matches state))))].

(** [stateFile s = None] stands for a missing or unparsable file: both end
    in the [catch].  The copy [{ ...DEFAULT_STATE }] shares the table
    [notified_matches] of [DEFAULT_STATE]; what a run adds to it stays in
    the memory of the process.  The model starts every load of a missing
    file from the empty table, as in a fresh process. *)
Definition loadState : M AdvisoryState.t :=
  fun s =>
    (Done (match stateFile s with
           | Some raw => normalizeState raw
           | None => DEFAULT_STATE
           end), s).

Definition writeStateFile (content : json) : M unit :=
  fun s => (Done tt, mkSys (trace s ++ [StateWritten content])%list (Some content)
                           (unsignedModeWarningShown s)).

(** [mkdir], [writeFile] to a temporary file and [rename] either all
    succeed, and the file has the new content, or one of them throws and
    the file is untouched; [chmod] comes after the rename. *)
Definition persistState (w : World) (stateFilePath : string) (state : AdvisoryState.t)
  : M unit :=
  let normalized := normalizeState (stateToJson state) in
  match persistFaults w with
  | WriteFails => throw (Error "EACCES: permission denied")
  | NoFault => writeStateFile (stateToJson normalized)
  | ChmodUnsupported code =>
      writeStateFile (stateToJson normalized) ;;;
      if String.eqb code "ENOTSUP" || String.eqb code "EPERM" then
        emit (Warned ("Warning: chmod 0600 failed for " +:+ stateFilePath
                      +:+ " (" +:+ code +:+ "). "
                      +:+ "File permissions may not be enforced on this platform/filesystem."))
      else throw (Error code)
  | ChmodFails =>
      writeStateFile (stateToJson normalized) ;;;
      throw (Error "chmod failed")
  end.

End State.

(** [String(error)] *)
Definition errorToString (e : error) : string :=
  match e with
  | SecurityPolicyError message => "SecurityPolicyError: " +:+ message
  | Error message => "Error: " +:+ message
  end.

(** [process.env.NAME || fallback] *)
Definition envOr (w : World) (name fallback : string) : string :=
  default fallback (Feed.truthy (env w name)).

(* ===================================================================== *)
(** ** handler.ts                                                         *)
(* ===================================================================== *)

Module Handler.

Definition DEFAULT_FEED_URL : string :=
  "https://raw.githubusercontent.com/prompt-security/clawsec/main/advisories/feed.json".

Definition DEFAULT_SCAN_INTERVAL_SECONDS : Z := 300.

Definition expandHome (w : World) (inputPath : string) : string :=
  if JS.isEmpty inputPath then inputPath
  else if String.eqb inputPath "~" then homedir w
  else if JS.startsWith "~/" inputPath then pathJoin w [homedir w; JS.sliceFrom 2 inputPath]
  else inputPath.

Definition parsePositiveInteger (value : option string) (fallback : Z) : Z :=
  match JS.parseInt10 (default EmptyString value) with
  | Some parsed => if negb (JS.isFinite parsed) || (parsed <=? 0) then fallback else parsed
  | None => fallback
  end.

Definition toEventName (event : HookEvent.t) : string :=
  let eventType := JS.trim (default EmptyString (HookEvent.type event)) in
  let action := JS.trim (default EmptyString (HookEvent.action event)) in
  if JS.isEmpty eventType || JS.isEmpty action then EmptyString
  else eventType +:+ ":" +:+ action.

Definition shouldHandleEvent (event : HookEvent.t) : bool :=
  let eventName := toEventName event in
  String.eqb eventName "agent:bootstrap" || String.eqb eventName "command:new".

Definition epochMs (w : World) (isoTimestamp : option string) : Z :=
  match Feed.truthy isoTimestamp with
  | None => 0
  | Some iso => default 0 (dateParse w iso)
  end.

Definition scannedRecently (w : World) (lastScan : option string) (minIntervalSeconds : Z)
  : bool :=
  let sinceMs := JS.toDouble (nowMs w - epochMs w lastScan) in
  (0 <=? sinceMs) && (sinceMs <? JS.toDouble (minIntervalSeconds * 1000)).

Record options : Type := mkOptions {
  feedUrl : string;
  feedSignatureUrl : string;
  feedChecksumsUrl : string;
  feedChecksumsSignatureUrl : string;
  localFeedPath : string;
  localFeedSignaturePath : string;
  localFeedChecksumsPath : string;
  localFeedChecksumsSignaturePath : string;
  feedPublicKeyPath : string;
  allowUnsigned : bool;
  verifyChecksumManifest : bool;
}.

Definition remoteOptions (o : options) (publicKeyPem : string) : Feed.RemoteOptions.t :=
  Feed.RemoteOptions.mk
    (Some (feedSignatureUrl o)) (Some (feedChecksumsUrl o))
    (Some (feedChecksumsSignatureUrl o))
    (Some publicKeyPem) (Some publicKeyPem)
    (Some (allowUnsigned o)) (Some (verifyChecksumManifest o))
    None None.

Definition localOptions (w : World) (o : options) (publicKeyPem : string)
  : Feed.LocalOptions.t :=
  Feed.LocalOptions.mk
    (Some (localFeedSignaturePath o)) (Some (localFeedChecksumsPath o))
    (Some (localFeedChecksumsSignaturePath o))
    (Some publicKeyPem) (Some publicKeyPem)
    (Some (allowUnsigned o)) (Some (verifyChecksumManifest o))
    None None
    (Some (pathBasename w (feedPublicKeyPath o))).

(** The result tells which of the two sources answered ([true]: the
    remote one), for the guarded installer, whose [loadFeed] is this one
    with the source reported. *)
Definition loadFeedFrom (w : World) (o : options) : M (json * bool) :=
  publicKeyPem <- (if allowUnsigned o then ret EmptyString
                   else Feed.readFileM w (feedPublicKeyPath o)) ;;
  remoteFeed <- Feed.loadRemoteFeed w (feedUrl o) (remoteOptions o publicKeyPem) ;;
  match remoteFeed with
  | Some feed => ret (feed, true)
  | None =>
      localFeed <- Feed.loadLocalFeed w (localFeedPath o) (localOptions w o publicKeyPem) ;;
      ret (localFeed, false)
  end.

Definition loadFeed (w : World) (o : options) : M FeedPayload.t :=
  r <- loadFeedFrom w o ;;
  ret (asFeedPayload r.1).

(** The constants that [handler] computes from the environment before it
    reads the state. *)
Record settings : Type := mkSettings {
  installRoot : string;
  stateFilePath : string;
  feedOptions : options;
  scanIntervalSeconds : Z;
}.

Definition readSettings (w : World) : settings :=
  let installRoot :=
    expandHome w
      (default (pathJoin w [homedir w; ".openclaw"; "skills"])
         (match Feed.truthy (env w "CLAWSEC_INSTALL_ROOT") with
          | Some v => Some v
          | None => Feed.truthy (env w "INSTALL_ROOT")
          end)) in
  let suiteDir :=
    expandHome w (envOr w "CLAWSEC_SUITE_DIR" (pathJoin w [installRoot; "clawsec-suite"])) in
  let localFeedPath :=
    expandHome w (envOr w "CLAWSEC_LOCAL_FEED" (pathJoin w [suiteDir; "advisories"; "feed.json"])) in
  let localFeedSignaturePath :=
    expandHome w (envOr w "CLAWSEC_LOCAL_FEED_SIG" (localFeedPath +:+ ".sig")) in
  let localFeedChecksumsPath :=
    expandHome w (envOr w "CLAWSEC_LOCAL_FEED_CHECKSUMS"
                    (pathJoin w [pathDirname w localFeedPath; "checksums.json"])) in
  let localFeedChecksumsSignaturePath :=
    expandHome w (envOr w "CLAWSEC_LOCAL_FEED_CHECKSUMS_SIG" (localFeedChecksumsPath +:+ ".sig")) in
  let feedPublicKeyPath :=
    expandHome w (envOr w "CLAWSEC_FEED_PUBLIC_KEY"
                    (pathJoin w [suiteDir; "advisories"; "feed-signing-public.pem"])) in
  let stateFile :=
    expandHome w (envOr w "CLAWSEC_SUITE_STATE_FILE"
                    (pathJoin w [homedir w; ".openclaw"; "clawsec-suite-feed-state.json"])) in
  let feedUrl := envOr w "CLAWSEC_FEED_URL" DEFAULT_FEED_URL in
  let feedSignatureUrl := envOr w "CLAWSEC_FEED_SIG_URL" (feedUrl +:+ ".sig") in
  let feedChecksumsUrl :=
    envOr w "CLAWSEC_FEED_CHECKSUMS_URL" (Feed.defaultChecksumsUrl w feedUrl) in
  let feedChecksumsSignatureUrl :=
    envOr w "CLAWSEC_FEED_CHECKSUMS_SIG_URL" (feedChecksumsUrl +:+ ".sig") in
  let allowUnsigned := bool_decide (env w "CLAWSEC_ALLOW_UNSIGNED_FEED" = Some "1") in
  let verifyChecksumManifest :=
    negb (bool_decide (env w "CLAWSEC_VERIFY_CHECKSUM_MANIFEST" = Some "0")) in
  let scanIntervalSeconds :=
    parsePositiveInteger (env w "CLAWSEC_HOOK_INTERVAL_SECONDS") DEFAULT_SCAN_INTERVAL_SECONDS in
  mkSettings installRoot stateFile
    (mkOptions feedUrl feedSignatureUrl feedChecksumsUrl feedChecksumsSignatureUrl
       localFeedPath localFeedSignaturePath localFeedChecksumsPath
       localFeedChecksumsSignaturePath feedPublicKeyPath allowUnsigned verifyChecksumManifest)
    scanIntervalSeconds.

Definition warnUnsignedOnce (allowUnsigned : bool) : M unit :=
  fun s =>
    if allowUnsigned && negb (unsignedModeWarningShown s) then
      (Done tt,
       mkSys (trace s ++ [Warned ("[clawsec-advisory-guardian] CLAWSEC_ALLOW_UNSIGNED_FEED=1 is enabled. "
                                  +:+ "This bypass is temporary migration compatibility and should be removed as soon as signed feed artifacts are available.")])
             (stateFile s) true)
    else (Done tt, s).

Definition setScanTimes (state : AdvisoryState.t) (nowIso : string) (feedUpdated : option string)
  : AdvisoryState.t :=
  AdvisoryState.mk (AdvisoryState.schema_version state)
    (AdvisoryState.known_advisories state)
    (Some nowIso)
    (match feedUpdated with
     | Some u => if State.isFilled u then Some u else AdvisoryState.last_feed_updated state
     | None => AdvisoryState.last_feed_updated state
     end)
    (Some nowIso)
    (AdvisoryState.notified_matches state).

Definition setKnownAdvisories (state : AdvisoryState.t) (known : list string) : AdvisoryState.t :=
  AdvisoryState.mk (AdvisoryState.schema_version state) known
    (AdvisoryState.last_feed_check state) (AdvisoryState.last_feed_updated state)
    (AdvisoryState.last_hook_scan state) (AdvisoryState.notified_matches state).

Definition setNotified (state : AdvisoryState.t) (key value : string) : AdvisoryState.t :=
  AdvisoryState.mk (AdvisoryState.schema_version state)
    (AdvisoryState.known_advisories state)
    (AdvisoryState.last_feed_check state) (AdvisoryState.last_feed_updated state)
    (AdvisoryState.last_hook_scan state)
    (<[key := value]> (AdvisoryState.notified_matches state)).

(** [state.notified_matches[key]] is truthy.  Every key comes from
    [matchKey] and contains [::], so none is a name inherited from
    [Object.prototype], and the assignment in [setNotified] always adds an
    entry. *)
Definition alreadyNotified (state : AdvisoryState.t) (key : string) : bool :=
  match AdvisoryState.notified_matches state !! key with
  | Some value => negb (JS.isEmpty value)
  | None => false
  end.

(** The loop [for (const match of matches)]: the matches not seen before,
    and the state with their keys marked. *)
Fixpoint collectUnseen (matches : list AdvisoryMatch.t) (state : AdvisoryState.t)
    (nowIso : string) : list AdvisoryMatch.t * AdvisoryState.t :=
  match matches with
  | [] => ([], state)
  | m :: r =>
      let key := Matching.matchKey m in
      if alreadyNotified state key then collectUnseen r state nowIso
      else
        let '(unseen, state') := collectUnseen r (setNotified state key nowIso) nowIso in
        (m :: unseen, state')
  end.

Definition pushMessage (event : HookEvent.t) (message : string) : HookEvent.t :=
  match HookEvent.messages event with
  | Some messages =>
      HookEvent.mk (HookEvent.type event) (HookEvent.action event) (Some (messages ++ [message])%list)
  | None => event
  end.

(** Lines 160-196 of handler.ts: what follows a successful [loadFeed].
    The event is returned with the message the scan pushed to it. *)
Definition scan (w : World) (cfg : settings) (event : HookEvent.t) (state : AdvisoryState.t)
    (feed : FeedPayload.t) : M HookEvent.t :=
  let nowIso := nowIso w in
  let state := setScanTimes state nowIso (FeedPayload.updated feed) in
  let advisoryIds :=
    List.filter State.isFilled (omap Advisory.id (FeedPayload.advisories feed)) in
  let state :=
    setKnownAdvisories state
      (uniqueStrings (AdvisoryState.known_advisories state ++ advisoryIds)) in
  let installedSkills := Matching.discoverInstalledSkills w (installRoot cfg) in
  let matches := Matching.findMatches feed installedSkills in
  if Nat.eqb (length matches) 0 then
    State.persistState w (stateFilePath cfg) state ;;;
    ret event
  else
    let '(unseenMatches, state) := collectUnseen matches state nowIso in
    let event :=
      if Nat.ltb 0 (length unseenMatches)
      then pushMessage event (Matching.buildAlertMessage w unseenMatches (installRoot cfg))
      else event in
    State.persistState w (stateFilePath cfg) state ;;;
    ret event.

Definition feedLoadWarning (e : error) : string :=
  "[clawsec-advisory-guardian] failed to load advisory feed: " +:+ errorToString e.

Definition handler (w : World) (event : HookEvent.t) : M HookEvent.t :=
  if negb (shouldHandleEvent event) then ret event
  else
    let cfg := readSettings w in
    warnUnsignedOnce (allowUnsigned (feedOptions cfg)) ;;;
    let forceScan := String.eqb (toEventName event) "command:new" in
    state <- State.loadState ;;
    if negb forceScan
       && scannedRecently w (AdvisoryState.last_hook_scan state) (scanIntervalSeconds cfg)
    then ret event
    else
      loaded <- tryCatch
                  (feed <- loadFeed w (feedOptions cfg) ;; ret (Some feed))
                  (fun e => emit (Warned (feedLoadWarning e)) ;;; ret None) ;;
      match loaded with
      | None => ret event
      | Some feed => scan w cfg event state feed
      end.

End Handler.

(* ===================================================================== *)
(** ** scripts/guarded_skill_install.mjs                                  *)
(* ===================================================================== *)

Module GuardedInstall.

Definition EXIT_CONFIRM_REQUIRED : Z := 42.

Definition nl : string := String "010" EmptyString.

Definition usageText : string :=
  JS.join nl
    ["Usage:";
     "  node scripts/guarded_skill_install.mjs --skill <skill-name> [--version <version>] [--confirm-advisory] [--dry-run]";
     "";
     "Examples:";
     "  node scripts/guarded_skill_install.mjs --skill helper-plus --version 1.0.1";
     "  node scripts/guarded_skill_install.mjs --skill helper-plus --version 1.0.1 --confirm-advisory";
     "";
     "Exit codes:";
     "  0  success / no advisory block";
     "  42 advisory matched and second confirmation is required";
     "  1  error";
     ""].

Definition printUsage : M unit := emit (Stderr usageText).

Record args : Type := mkArgs {
  skill : string;
  version : string;
  confirmAdvisory : bool;
  dryRun : bool;
}.

(** The [for] loop of [parseArgs]; a flag that takes a value consumes the
    next token, or the empty string when there is none. *)
Fixpoint parseTokens (argv : list string) (parsed : args) : M args :=
  match argv with
  | [] => ret parsed
  | token :: rest =>
      if String.eqb token "--skill" then
        match rest with
        | value :: rest' =>
            parseTokens rest' (mkArgs (JS.trim value) (version parsed)
                                      (confirmAdvisory parsed) (dryRun parsed))
        | [] => ret (mkArgs EmptyString (version parsed) (confirmAdvisory parsed) (dryRun parsed))
        end
      else if String.eqb token "--version" then
        match rest with
        | value :: rest' =>
            parseTokens rest' (mkArgs (skill parsed) (JS.trim value)
                                      (confirmAdvisory parsed) (dryRun parsed))
        | [] => ret (mkArgs (skill parsed) EmptyString (confirmAdvisory parsed) (dryRun parsed))
        end
      else if String.eqb token "--confirm-advisory" then
        parseTokens rest (mkArgs (skill parsed) (version parsed) true (dryRun parsed))
      else if String.eqb token "--dry-run" then
        parseTokens rest (mkArgs (skill parsed) (version parsed) (confirmAdvisory parsed) true)
      else if String.eqb token "--help" || String.eqb token "-h" then
        printUsage ;;; exit 0
      else throw (Error ("Unknown argument: " +:+ token))
  end.

(** [/^[a-z0-9-]+$/] *)
Definition isSkillName (s : string) : bool :=
  negb (JS.isEmpty s)
  && forallb (fun c => JS.isLower c || JS.isDigit c || Ascii.eqb c "-") (list_ascii_of_string s).

Definition parseArgs (argv : list string) : M args :=
  parsed <- parseTokens argv (mkArgs EmptyString EmptyString false false) ;;
  if JS.isEmpty (skill parsed) then throw (Error "Missing required argument: --skill")
  else if negb (isSkillName (skill parsed)) then
    throw (Error "Invalid --skill value. Use lowercase letters, digits, and hyphens only.")
  else ret parsed.

Definition affectedSpecifierMatches (specifier skillName version : string) : bool :=
  match Feed.parseAffectedSpecifier specifier with
  | None => false
  | Some parsed =>
      if negb (String.eqb (normalizeSkillName (Feed.name parsed)) (normalizeSkillName skillName))
      then false
      else Version.versionMatches (Some version) (Feed.versionSpec parsed)
  end.

Definition affectedSpecifierMatchesWithoutVersion (specifier skillName : string) : bool :=
  match Feed.parseAffectedSpecifier specifier with
  | None => false
  | Some parsed =>
      String.eqb (normalizeSkillName (Feed.name parsed)) (normalizeSkillName skillName)
  end.

Definition advisoryLooksHighRisk (advisory : Advisory.t) : bool :=
  let type := JS.toLowerCase (Matching.orEmpty (Advisory.type advisory)) in
  let severity := JS.toLowerCase (default EmptyString (Advisory.severity advisory)) in
  let combined :=
    JS.toLowerCase (Matching.orEmpty (Advisory.title advisory) +:+ " "
                    +:+ Matching.orEmpty (Advisory.description advisory) +:+ " "
                    +:+ Matching.orEmpty (Advisory.action advisory)) in
  if String.eqb type "malicious_skill" || String.eqb type "malicious_plugin" then true
  else if Matching.testPhrases ["malicious"; "exfiltrate"; "exfiltration"; "backdoor"; "trojan";
                                "stealer"; "credential theft"] combined then true
  else if Matching.testPhrases ["remove"; "uninstall"; "disable"; "do not use"; "quarantine"]
                               combined then true
  else String.eqb severity "critical".

Definition readOptions (w : World) : Handler.options :=
  let DEFAULT_SUITE_DIR := pathJoin w [homedir w; ".openclaw"; "skills"; "clawsec-suite"] in
  let DEFAULT_LOCAL_FEED := pathJoin w [DEFAULT_SUITE_DIR; "advisories"; "feed.json"] in
  let DEFAULT_LOCAL_FEED_SIG := DEFAULT_LOCAL_FEED +:+ ".sig" in
  let DEFAULT_LOCAL_FEED_CHECKSUMS :=
    pathJoin w [DEFAULT_SUITE_DIR; "advisories"; "checksums.json"] in
  let DEFAULT_LOCAL_FEED_CHECKSUMS_SIG := DEFAULT_LOCAL_FEED_CHECKSUMS +:+ ".sig" in
  let DEFAULT_FEED_PUBLIC_KEY :=
    pathJoin w [DEFAULT_SUITE_DIR; "advisories"; "feed-signing-public.pem"] in
  let feedUrl := envOr w "CLAWSEC_FEED_URL" Handler.DEFAULT_FEED_URL in
  let feedSignatureUrl := envOr w "CLAWSEC_FEED_SIG_URL" (feedUrl +:+ ".sig") in
  let feedChecksumsUrl :=
    envOr w "CLAWSEC_FEED_CHECKSUMS_URL" (Feed.defaultChecksumsUrl w feedUrl) in
  let feedChecksumsSignatureUrl :=
    envOr w "CLAWSEC_FEED_CHECKSUMS_SIG_URL" (feedChecksumsUrl +:+ ".sig") in
  Handler.mkOptions feedUrl feedSignatureUrl feedChecksumsUrl feedChecksumsSignatureUrl
    (envOr w "CLAWSEC_LOCAL_FEED" DEFAULT_LOCAL_FEED)
    (envOr w "CLAWSEC_LOCAL_FEED_SIG" DEFAULT_LOCAL_FEED_SIG)
    (envOr w "CLAWSEC_LOCAL_FEED_CHECKSUMS" DEFAULT_LOCAL_FEED_CHECKSUMS)
    (envOr w "CLAWSEC_LOCAL_FEED_CHECKSUMS_SIG" DEFAULT_LOCAL_FEED_CHECKSUMS_SIG)
    (envOr w "CLAWSEC_FEED_PUBLIC_KEY" DEFAULT_FEED_PUBLIC_KEY)
    (bool_decide (env w "CLAWSEC_ALLOW_UNSIGNED_FEED" = Some "1"))
    (negb (bool_decide (env w "CLAWSEC_VERIFY_CHECKSUM_MANIFEST" = Some "0"))).

(** The feed and its [source]. *)
Definition loadFeed (w : World) : M (FeedPayload.t * string) :=
  let o := readOptions w in
  (if Handler.allowUnsigned o then
     emit (Stderr ("WARNING: CLAWSEC_ALLOW_UNSIGNED_FEED=1 is enabled. This temporary migration compatibility bypass should be removed once signed feed artifacts are available."
                   +:+ nl))
   else ret tt) ;;;
  r <- Handler.loadFeedFrom w o ;;
  ret (asFeedPayload r.1,
       if r.2 then "remote:" +:+ Handler.feedUrl o else "local:" +:+ Handler.localFeedPath o).

Record found : Type := mkFound {
  advisory : Advisory.t;
  matchedAffected : list string;
}.

Definition findMatches (feed : FeedPayload.t) (skillName version : string) : list found :=
  flat_map
    (fun advisory =>
       let affected := default [] (Advisory.affected advisory) in
       if Nat.eqb (length affected) 0 then []
       else
         let matchedAffected :=
           uniqueStrings
             (List.filter (fun specifier =>
                        if negb (JS.isEmpty version)
                        then affectedSpecifierMatches specifier skillName version
                        else affectedSpecifierMatchesWithoutVersion specifier skillName)
                     affected) in
         if Nat.ltb 0 (length matchedAffected) then [mkFound advisory matchedAffected] else [])
    (FeedPayload.advisories feed).

(** The body of the loop of [printMatches]. *)
Definition printMatch (entry : found) : M unit :=
  let advisory := advisory entry in
  let severity := JS.toUpperCase (default "unknown" (Advisory.severity advisory)) in
  let advisoryId := default "unknown-id" (Advisory.id advisory) in
  let title := textOr "Untitled advisory" (Advisory.title advisory) in
  emit (Stdout ("- [" +:+ severity +:+ "] " +:+ advisoryId +:+ ": " +:+ title +:+ nl)) ;;;
  emit (Stdout ("  matched: " +:+ JS.join ", " (matchedAffected entry) +:+ nl)) ;;;
  if truthyValue (Advisory.action advisory) then
    emit (Stdout ("  action: " +:+ textOr EmptyString (Advisory.action advisory) +:+ nl))
  else ret tt.

(** [for (const x of xs) { body }] *)
Fixpoint forEach {A} (body : A -> M unit) (xs : list A) : M unit :=
  match xs with
  | [] => ret tt
  | x :: rest => body x ;;; forEach body rest
  end.

Definition printMatches (matches : list found) (skillName version : string) : M unit :=
  emit (Stdout ("Advisory matches detected for requested install target." +:+ nl)) ;;;
  emit (Stdout ("Target: " +:+ skillName
                +:+ (if JS.isEmpty version then EmptyString else "@" +:+ version) +:+ nl)) ;;;
  forEach printMatch matches.

Definition installCommand (skillName version : string) : list string :=
  let target := if JS.isEmpty version then skillName else skillName +:+ "@" +:+ version in
  ["npx"; "clawhub@latest"; "install"; target].

Definition runInstall (w : World) (skillName version : string) : M unit :=
  let target := if JS.isEmpty version then skillName else skillName +:+ "@" +:+ version in
  emit (Stdout ("Install target: " +:+ target +:+ nl)) ;;;
  emit (Spawned (installCommand skillName version)) ;;;
  match spawnSync w (installCommand skillName version) with
  | SpawnError message => throw (Error message)
  | SpawnStatus status =>
      if bool_decide (status = Some 0) then ret tt
      else exit (default 1 status)
  end.

Definition main (w : World) (argv : list string) : M unit :=
  args <- parseArgs argv ;;
  loaded <- loadFeed w ;;
  let feed := loaded.1 in
  let source := loaded.2 in
  let matches := findMatches feed (skill args) (version args) in
  let highRisk := existsb (fun entry => advisoryLooksHighRisk (advisory entry)) matches in
  emit (Stdout ("Advisory source: " +:+ source +:+ nl)) ;;;
  (if JS.isEmpty (version args) then
     emit (Stdout ("No --version provided. Conservatively matching any advisory for the requested skill name."
                   +:+ nl))
   else ret tt) ;;;
  (if Nat.ltb 0 (length matches) then
     printMatches matches (skill args) (version args) ;;;
     emit (Stdout nl) ;;;
     emit (Stdout ("Install request recognized as first confirmation." +:+ nl)) ;;;
     emit (Stdout ("Additional explicit confirmation is required with advisory context." +:+ nl)) ;;;
     (if negb (confirmAdvisory args) then
        emit (Stdout ("Re-run with --confirm-advisory to proceed after the user explicitly confirms."
                      +:+ nl)) ;;;
        exit EXIT_CONFIRM_REQUIRED
      else ret tt) ;;;
     emit (Stdout ("Second confirmation provided via --confirm-advisory." +:+ nl))
   else ret tt) ;;;
  if dryRun args then
    emit (Stdout ("Dry run only; install command was not executed." +:+ nl))
  else
    (if highRisk then
       emit (Stdout ("High-risk advisory context acknowledged. Proceeding only because --confirm-advisory was provided."
                     +:+ nl))
     else ret tt) ;;;
    runInstall w (skill args) (version args).

(** [main().catch(...)], the whole script. *)
Definition script (w : World) (argv : list string) : M unit :=
  tryCatch (main w argv)
           (fun e => emit (Stderr (errorToString e +:+ nl)) ;;; exit 1).


End GuardedInstall.

(* ===================================================================== *)
(** ** The vocabulary of the properties                                   *)
(* ===================================================================== *)

(* ---- monad facts ---- *)
Definition notPolicy {A} (o : outcome A) : Prop :=
  forall message, o <> Thrown (SecurityPolicyError message).

(** A computation without effects on the machine. *)
Definition effectFree {A} (m : M A) : Prop :=
  exists o, (forall s, m s = (o, s)) /\ notPolicy o /\ (forall n, o <> Exited n).

(** The machine after one more request has been traced. *)
Definition requested (url : string) (s : Sys) : Sys :=
  mkSys (trace s ++ [FetchRequested url])%list (stateFile s) (unsignedModeWarningShown s).

Definition fetchOutcome (w : World) (url : string) : outcome (option string) :=
  if Feed.isAllowedDomain w url then
    Done (match fetch w url with Body text => Some text | _ => None end)
  else Thrown (SecurityPolicyError (Feed.policyMessage url)).

(** A request refused by the allow-list is traced in [evs]. *)
Definition blocked (w : World) (evs : list event) : Prop :=
  exists url, In (FetchRequested url) evs /\ Feed.isAllowedDomain w url = false.

Definition raisesPolicy {A} (o : outcome A) : Prop :=
  exists message, o = Thrown (SecurityPolicyError message).

Definition isRequest (ev : event) : Prop := exists url, ev = FetchRequested url.

(** The machine [s] after the events [evs]. *)
Definition extended (s : Sys) (evs : list event) : Sys :=
  mkSys (trace s ++ evs)%list (stateFile s) (unsignedModeWarningShown s).

(** [m] only makes requests and never ends the process. *)
Definition reader {A} (m : M A) : Prop :=
  forall s, exists evs,
    (m s).2 = extended s evs
    /\ Forall isRequest evs
    /\ (forall n, (m s).1 <> Exited n).

(** A reader that ends in the policy error exactly when one of the
    requests it made was refused. *)
Definition policyAware {A} (w : World) (m : M A) : Prop :=
  forall s, exists evs,
    (m s).2 = extended s evs
    /\ Forall isRequest evs
    /\ (forall n, (m s).1 <> Exited n)
    /\ (blocked w evs <-> raisesPolicy (m s).1).

(** The events of a run that started in [s] and ended in [s']. *)
Definition since (s s' : Sys) : list event := drop (length (trace s)) (trace s').

(** The text that a request to [url] yields when the allow-list lets it
    through: [None] when the request fails, is answered with an error
    status, or has an empty body. *)
Definition received (w : World) (url : string) : option string :=
  Feed.truthy (match fetch w url with Body text => Some text | _ => None end).

Definition withoutChecksums (o : Feed.RemoteOptions.t) : Feed.RemoteOptions.t :=
  Feed.RemoteOptions.mk
    (Feed.RemoteOptions.signatureUrl o) (Feed.RemoteOptions.checksumsUrl o)
    (Feed.RemoteOptions.checksumsSignatureUrl o) (Feed.RemoteOptions.publicKeyPem o)
    (Feed.RemoteOptions.checksumsPublicKeyPem o) (Feed.RemoteOptions.allowUnsigned o)
    (Some false)
    (Feed.RemoteOptions.checksumFeedEntry o) (Feed.RemoteOptions.checksumSignatureEntry o).

(** What the checksum manifest must satisfy for the given entries. *)
Definition digestsMatch (w : World) (m : Feed.manifest) (entries : list (string * string)) : Prop :=
  forall entryName entryContent,
    In (entryName, entryContent) entries -> entryName <> EmptyString ->
    Feed.files m !! entryName = Some (sha256Hex w entryContent).

(** The manifest [checksumsRaw], signed by [checksumsSignatureRaw], vouches
    for the entries. *)
Definition manifestVouches (w : World) (checksumsRaw checksumsSignatureRaw key : string)
    (entries : list (string * string)) : Prop :=
  Feed.verifySignedPayload w checksumsRaw checksumsSignatureRaw key = true
  /\ exists m, (forall s, Feed.parseChecksumsManifest w checksumsRaw s = (Done m, s))
               /\ digestsMatch w m entries.

(** What [loadState] returns in [s]. *)
Definition storedState (s : Sys) : AdvisoryState.t :=
  match stateFile s with
  | Some raw => State.normalizeState raw
  | None => State.DEFAULT_STATE
  end.

Definition knownIds (s : Sys) : list string :=
  AdvisoryState.known_advisories (storedState s).

(** What [persistState] writes for [state]. *)
Definition written (state : AdvisoryState.t) : json :=
  State.stateToJson (State.normalizeState (State.stateToJson state)).

Definition isStateWrite (ev : event) : Prop := exists content, ev = StateWritten content.

(** The table has no entry under [__proto__], as no table built by
    assignments has. *)
Definition plainTable (m : gmap string string) : Prop := m !! "__proto__" = None.

(** Every time stamp of the de-duplication table is a filled string. *)
Definition allFilled (m : gmap string string) : Prop :=
  forall key value, m !! key = Some value -> State.isFilled value = true.

Definition scanMatches (w : World) (cfg : Handler.settings) (feed : FeedPayload.t)
  : list AdvisoryMatch.t :=
  Matching.findMatches feed (Matching.discoverInstalledSkills w (Handler.installRoot cfg)).

(** The state after lines 160-171: time stamps set, advisory ids united. *)
Definition refreshed (w : World) (state : AdvisoryState.t) (feed : FeedPayload.t)
  : AdvisoryState.t :=
  let state := Handler.setScanTimes state (nowIso w) (FeedPayload.updated feed) in
  Handler.setKnownAdvisories state
    (uniqueStrings
       (AdvisoryState.known_advisories state
        ++ List.filter State.isFilled (omap Advisory.id (FeedPayload.advisories feed)))).

(** The matches a scan reports, and the state it hands to [persistState]. *)
Definition scanUnseen (w : World) (cfg : Handler.settings) (state : AdvisoryState.t)
    (feed : FeedPayload.t) : list AdvisoryMatch.t :=
  (Handler.collectUnseen (scanMatches w cfg feed) (refreshed w state feed) (nowIso w)).1.

Definition scanState (w : World) (cfg : Handler.settings) (state : AdvisoryState.t)
    (feed : FeedPayload.t) : AdvisoryState.t :=
  (Handler.collectUnseen (scanMatches w cfg feed) (refreshed w state feed) (nowIso w)).2.

Definition scanEvent (w : World) (cfg : Handler.settings) (event : HookEvent.t)
    (state : AdvisoryState.t) (feed : FeedPayload.t) : HookEvent.t :=
  if Nat.ltb 0 (length (scanUnseen w cfg state feed))
  then Handler.pushMessage event
         (Matching.buildAlertMessage w (scanUnseen w cfg state feed) (Handler.installRoot cfg))
  else event.

(** The machine after [persistState] has renamed the temporary file. *)
Definition stored (state : AdvisoryState.t) (s : Sys) : Sys :=
  mkSys (trace s ++ [StateWritten (written state)])%list (Some (written state))
        (unsignedModeWarningShown s).

(** The event is one the hook handles and the scan is not skipped as too
    recent. *)
Definition proceeds (w : World) (event : HookEvent.t) (s : Sys) : bool :=
  Handler.shouldHandleEvent event
  && (String.eqb (Handler.toEventName event) "command:new"
      || negb (Handler.scannedRecently w (AdvisoryState.last_hook_scan (storedState s))
                 (Handler.scanIntervalSeconds (Handler.readSettings w)))).

(** The machine when [handler] calls [loadFeed]. *)
Definition afterWarning (w : World) (s : Sys) : Sys :=
  (Handler.warnUnsignedOnce
     (Handler.allowUnsigned (Handler.feedOptions (Handler.readSettings w))) s).2.

Fixpoint after (runs : list (World * HookEvent.t)) (s : Sys) : Sys :=
  match runs with
  | [] => s
  | (w, event) :: r => after r (Handler.handler w event s).2
  end.

Definition isSpawn (ev : event) : Prop := exists command, ev = Spawned command.

(** What the report of the guarded installer says about one match: the
    severity in capitals, the id and the title of the advisory; the
    specifiers that matched; and the action that the advisory asks for,
    when it names one. *)
Definition matchDetails (entry : GuardedInstall.found) : list string :=
  let advisory := GuardedInstall.advisory entry in
  ["- [" +:+ JS.toUpperCase (default "unknown" (Advisory.severity advisory)) +:+ "] "
   +:+ default "unknown-id" (Advisory.id advisory) +:+ ": "
   +:+ textOr "Untitled advisory" (Advisory.title advisory) +:+ GuardedInstall.nl;
   "  matched: " +:+ JS.join ", " (GuardedInstall.matchedAffected entry) +:+ GuardedInstall.nl]
  ++ (if truthyValue (Advisory.action advisory)
      then ["  action: " +:+ textOr EmptyString (Advisory.action advisory)
            +:+ GuardedInstall.nl]
      else []).

(** The report: a heading, the install target, and the details of every
    match in the order of the feed. *)
Definition matchReport (matches : list GuardedInstall.found) (skillName version : string)
  : list string :=
  ["Advisory matches detected for requested install target." +:+ GuardedInstall.nl;
   "Target: " +:+ skillName
   +:+ (if JS.isEmpty version then EmptyString else "@" +:+ version) +:+ GuardedInstall.nl]
  ++ flat_map matchDetails matches.

(** After optional white space and one sign, the component starts with a
    decimal digit. *)
Definition startsNumeric (part : string) : bool :=
  match (JS.signOf (JS.trimStart part)).2 with
  | String c _ => JS.isDigit c
  | EmptyString => false
  end.

(** The rule that [versionMatches] selects for a specification. *)
Inductive rule : Type :=
  | AnyVersion
  | Glob
  | Comparator (operator target : string)
  | Caret (target : string)
  | Tilde (target : string)
  | Exact.

Definition ruleOf (rawSpec : string) : rule :=
  let spec := JS.trim rawSpec in
  if Version.isAnySpec spec then AnyVersion
  else if JS.includes "*" spec then Glob
  else
    match Version.comparatorMatch spec with
    | Some (operator, rest) => Comparator operator (JS.trim rest)
    | None =>
        if JS.startsWith "^" spec then Caret (JS.sliceFrom 1 spec)
        else if JS.startsWith "~" spec then Tilde (JS.sliceFrom 1 spec)
        else Exact
    end.

(** [rawSpec] is decided by comparing parsed versions, against [target]. *)
Definition usesSemverRule (rawSpec target : string) : Prop :=
  (exists operator, ruleOf rawSpec = Comparator operator target)
  \/ ruleOf rawSpec = Caret target
  \/ ruleOf rawSpec = Tilde target.

(** The installed version as [versionMatches] compares it. *)
Definition normalizedInstalled (version : option string) : string :=
  JS.stripLeadingV (JS.trim (default EmptyString version)).

(** No [@] after the first character. *)
Definition noAtAfterFirst (s : string) : bool :=
  match s with
  | String _ r => negb (JS.includes "@" r)
  | EmptyString => true
  end.

(** The shape of an acceptable payload in the words of the specification:
    an object whose version is a non-empty string, whose advisories are an
    array, each advisory with a non-empty string id, a non-empty string
    severity and an array as affected. *)
Definition nonEmptyString (v : option json) : bool :=
  match v with
  | Some (JStr s) => negb (JS.isEmpty s)
  | _ => false
  end.

Definition isArray (v : option json) : bool :=
  match v with
  | Some (JArr _) => true
  | _ => false
  end.

Definition advisoryShape (advisory : json) : bool :=
  nonEmptyString (prop "id" advisory)
  && nonEmptyString (prop "severity" advisory)
  && isArray (prop "affected" advisory).

Definition feedShape (payload : json) : bool :=
  isObject payload
  && nonEmptyString (prop "version" payload)
  && match prop "advisories" payload with
     | Some (JArr advisories) => forallb advisoryShape advisories
     | _ => false
     end.

(* ===================================================================== *)
(** ** Further vocabulary: versions, patterns and names                   *)
(* ===================================================================== *)

From Stdlib Require DecimalPos DecimalN.

(** The decimal text of a version component. *)
Definition decimal (n : N) : string := NilZero.string_of_uint (N.to_uint n).

(** A version [major.minor.patch] and its text. *)
Definition triple : Type := N * N * N.

Definition showVersion (v : triple) : string :=
  decimal v.1.1 +:+ "." +:+ decimal v.1.2 +:+ "." +:+ decimal v.2.

Definition asIntegers (v : triple) : Z * Z * Z :=
  (Z.of_N v.1.1, Z.of_N v.1.2, Z.of_N v.2).

(** The components are integers that a JavaScript number holds exactly. *)
Definition exactNumbers (v : triple) : Prop :=
  (v.1.1 < 2 ^ 53 /\ v.1.2 < 2 ^ 53 /\ v.2 < 2 ^ 53)%N.

(** The lexicographic order of versions. *)
Definition versionCompare (a b : triple) : comparison :=
  match (a.1.1 ?= b.1.1)%N with
  | Eq => match (a.1.2 ?= b.1.2)%N with
          | Eq => (a.2 ?= b.2)%N
          | c => c
          end
  | c => c
  end.

Definition versionLeb (a b : triple) : bool :=
  match versionCompare a b with Gt => false | _ => true end.

Definition versionLtb (a b : triple) : bool :=
  match versionCompare a b with Lt => true | _ => false end.

Definition versionEqb (a b : triple) : bool :=
  match versionCompare a b with Eq => true | _ => false end.

Definition signOfComparison (c : comparison) : Z :=
  match c with Lt => -1 | Eq => 0 | Gt => 1 end.

(** Every character of [s] satisfies [P]. *)
Definition allChars (P : ascii -> bool) (s : string) : bool :=
  forallb P (list_ascii_of_string s).

(** A text within ASCII, where the case mappings of JavaScript change the
    letters A-Z and a-z and nothing else. *)
Definition isAscii (s : string) : bool := allChars (fun c => Nat.ltb (nat_of_ascii c) 128) s.

(** A run of white space, as [\s*] reads it. *)
Definition isBlank (s : string) : bool := allChars JS.isWhiteSpace s.

Definition isDigitOrDot (c : ascii) : bool := JS.isDigit c || Ascii.eqb c ".".

(** The pattern that a character of a specification stands for. *)
Definition tokenOf (c : ascii) : Version.token :=
  if Ascii.eqb c "*" then Version.DotStar else Version.Lit c.

(** A URL that the allow-list admits: HTTPS, and a host that is one of the
    allowed domains or a subdomain of one. *)
Definition allowedHost (host : string) : Prop :=
  exists allowed,
    In allowed Feed.ALLOWED_DOMAINS
    /\ (host = allowed \/ exists sub, host = sub +:+ "." +:+ allowed).

Definition allowedUrl (w : World) (url : string) : Prop :=
  exists parsed,
    parseUrl w url = Some parsed
    /\ protocol parsed = "https:"
    /\ allowedHost (JS.toLowerCase (hostname parsed)).


Definition isWarning (ev : event) : Prop := exists message, ev = Warned message.

(* ===================================================================== *)
(** ** Concrete worlds                                                    *)
(* ===================================================================== *)

(** Worlds given by finite tables, to run the programs on. *)
Module Fixtures.

Record setup : Type := mkSetup {
  urls : list (string * Url);
  network : list (string * response);
  disk : list (string * string);
  documents : list (string * json);
  (** the pairs (payload, signature) that verify *)
  signed : list (string * string);
  digests : list (string * string);
  directories : list (string * list Dirent);
  variables : list (string * string);
  installer : spawnResult;
  faults : persistFault;
}.

Definition zeros64 : string :=
  "0000000000000000000000000000000000000000000000000000000000000000".

Definition lastSegment (path : string) : string :=
  default path (Feed.afterLastSlash path).

Definition world (c : setup) : World :=
  mkWorld
    (fun url => objGet url (urls c))
    (fun relative base =>
       match objGet base (urls c) with
       | Some _ => Some (Feed.stripLastSegment base +:+ "/" +:+ relative)
       | None => None
       end)
    (fun url => default NetworkError (objGet url (network c)))
    (fun path => objGet path (disk c))
    (fun path => objGet path (directories c))
    (fun text => objGet text (documents c))
    (fun payload _ signature =>
       existsb (fun entry => String.eqb entry.1 payload && String.eqb entry.2 signature)
               (signed c))
    (fun content => default zeros64 (objGet content (digests c)))
    (JS.join "/")
    Feed.stripLastSegment
    lastSegment
    "/home/agent"
    (fun name => objGet name (variables c))
    1770552000000
    "2026-02-08T12:00:00.000Z"
    eq_refl
    (fun iso => if String.eqb iso "2026-02-08T12:00:00.000Z" then Some 1770552000000 else None)
    (fun _ => installer c)
    (faults c).


Definition noRemoteOptions : Feed.RemoteOptions.t :=
  Feed.RemoteOptions.mk None None None None None None None None None.

(** The feed URL of the repository's tests, which forces the local
    fallback. *)
Definition fileUrl : string := "file:///nonexistent".

Definition offline : setup :=
  mkSetup [(fileUrl, mkUrl "file:" "" "/nonexistent")]
          [] [] [] [] [] [] [] (SpawnStatus (Some 0)) NoFault.

Definition feedUrl : string := "https://clawsec.prompt.security/advisories/feed.json".
Definition checksumsUrl : string := "https://clawsec.prompt.security/advisories/checksums.json".
Definition mirrorUrl : string := "http://mirror.example/checksums.json.sig".

Definition hostUrls : list (string * Url) :=
  [(feedUrl, mkUrl "https:" "clawsec.prompt.security" "/advisories/feed.json");
   (feedUrl +:+ ".sig", mkUrl "https:" "clawsec.prompt.security" "/advisories/feed.json.sig");
   (checksumsUrl, mkUrl "https:" "clawsec.prompt.security" "/advisories/checksums.json");
   (checksumsUrl +:+ ".sig",
    mkUrl "https:" "clawsec.prompt.security" "/advisories/checksums.json.sig");
   (mirrorUrl, mkUrl "http:" "mirror.example" "/checksums.json.sig")].

Definition advisoryJson : json :=
  JObj [("id", JStr "TEST-001"); ("severity", JStr "high");
        ("affected", JArr [JStr "test-skill@1.0.0"])].

Definition feedJson : json :=
  JObj [("version", JStr "1.0.0"); ("updated", JStr "2026-02-08T12:00:00Z");
        ("advisories", JArr [advisoryJson])].

(** A signed feed on the official host that publishes no checksum
    manifest. *)
Definition signedRemote : setup :=
  mkSetup hostUrls
          [(feedUrl, Body "FEED"); (feedUrl +:+ ".sig", Body "FEED-SIGNATURE");
           (checksumsUrl, NotOk); (checksumsUrl +:+ ".sig", NotOk)]
          [] [("FEED", feedJson)] [("FEED", "FEED-SIGNATURE")] [] [] []
          (SpawnStatus (Some 0)) NoFault.

Definition keyed : Feed.RemoteOptions.t :=
  Feed.RemoteOptions.mk None None None (Some "PUBLIC-KEY") None None None None None.

(** The same, with the manifest signature looked for on a mirror outside
    the allow-list. *)
Definition mirrored : Feed.RemoteOptions.t :=
  Feed.RemoteOptions.mk None None (Some mirrorUrl) (Some "PUBLIC-KEY") None None None None None.

(** A signed payload without advisories. *)
Definition misshapenJson : json := JObj [("version", JStr "1.0.0")].

Definition misshapen : setup :=
  mkSetup hostUrls
          [(feedUrl, Body "FEED"); (feedUrl +:+ ".sig", Body "FEED-SIGNATURE")]
          [] [("FEED", misshapenJson)] [("FEED", "FEED-SIGNATURE")] [] [] []
          (SpawnStatus (Some 0)) NoFault.

Definition ones64 : string :=
  "1111111111111111111111111111111111111111111111111111111111111111".

(** A checksum manifest whose digests are not those of the feed. *)
Definition staleManifestJson : json :=
  JObj [("files", JObj [("feed.json", JStr ones64); ("feed.json.sig", JStr ones64)])].

(** The signed payload without advisories, on a host that also publishes
    a signed checksum manifest, which does not list its digest. *)
Definition misshapenListed : setup :=
  mkSetup hostUrls
          [(feedUrl, Body "FEED"); (feedUrl +:+ ".sig", Body "FEED-SIGNATURE");
           (checksumsUrl, Body "MANIFEST"); (checksumsUrl +:+ ".sig", Body "MANIFEST-SIGNATURE")]
          [] [("FEED", misshapenJson); ("MANIFEST", staleManifestJson)]
          [("FEED", "FEED-SIGNATURE"); ("MANIFEST", "MANIFEST-SIGNATURE")] [] [] []
          (SpawnStatus (Some 0)) NoFault.



(** The manifest of an installed skill that the advisory of [feedJson]
    names. *)
Definition skillJson : json := JObj [("name", JStr "test-skill"); ("version", JStr "1.0.0")].

(** The hook's machine: the installed skill, with an unsigned local feed
    that names it and the remote feed out of reach. *)
Definition hooked : setup :=
  mkSetup [(fileUrl, mkUrl "file:" "" "/nonexistent")]
          []
          [("/home/agent/.openclaw/skills/test-skill/skill.json", "SKILL");
           ("/srv/advisories/feed.json", "FEED")]
          [("SKILL", skillJson); ("FEED", feedJson)] [] []
          [("/home/agent/.openclaw/skills", [mkDirent "test-skill" true])]
          [("CLAWSEC_ALLOW_UNSIGNED_FEED", "1"); ("CLAWSEC_FEED_URL", fileUrl);
           ("CLAWSEC_LOCAL_FEED", "/srv/advisories/feed.json")]
          (SpawnStatus (Some 0)) NoFault.

(** The installer run against an unsigned local feed, as in the
    repository's tests. *)
Definition guarded : setup :=
  mkSetup [(fileUrl, mkUrl "file:" "" "/nonexistent")]
          []
          [("/srv/advisories/feed.json", "FEED")]
          [("FEED", feedJson)] [] [] []
          [("CLAWSEC_ALLOW_UNSIGNED_FEED", "1"); ("CLAWSEC_FEED_URL", fileUrl);
           ("CLAWSEC_LOCAL_FEED", "/srv/advisories/feed.json")]
          (SpawnStatus (Some 0)) NoFault.




End Fixtures.

(* ===================================================================== *)
(** ** Further concrete worlds                                            *)
(* ===================================================================== *)

Module Samples.

Import Fixtures.

Definition feedDigest : string :=
  "aaaaaaaaaaaaaaaaaaaaaaaaaaaaaaaaaaaaaaaaaaaaaaaaaaaaaaaaaaaaaaaa".
Definition signatureDigest : string :=
  "bbbbbbbbbbbbbbbbbbbbbbbbbbbbbbbbbbbbbbbbbbbbbbbbbbbbbbbbbbbbbbbb".
Definition keyDigest : string :=
  "cccccccccccccccccccccccccccccccccccccccccccccccccccccccccccccccc".

(** A checksum manifest with the three entries of the local feed, one
    digest inside an object and one in capitals, padded with a blank. *)
Definition manifestJson : json :=
  JObj [("schema_version", JStr "1.0"); ("algorithm", JStr "sha256");
        ("files",
         JObj [("feed.json", JStr feedDigest);
               ("feed.json.sig", JObj [("sha256", JStr signatureDigest)]);
               ("feed.pem", JStr (" " +:+ JS.toUpperCase keyDigest))])].

(** A machine with a signed local feed, its checksum manifest and the
    pinned key, the remote feed out of reach. *)
Definition signedLocal : setup :=
  mkSetup [(fileUrl, mkUrl "file:" "" "/nonexistent")]
          []
          [("/keys/feed.pem", "PUBLIC-KEY");
           ("/srv/advisories/feed.json", "FEED");
           ("/srv/advisories/feed.json.sig", "FEED-SIGNATURE");
           ("/srv/advisories/checksums.json", "MANIFEST");
           ("/srv/advisories/checksums.json.sig", "MANIFEST-SIGNATURE")]
          [("FEED", feedJson); ("MANIFEST", manifestJson)]
          [("FEED", "FEED-SIGNATURE"); ("MANIFEST", "MANIFEST-SIGNATURE")]
          [("FEED", feedDigest); ("FEED-SIGNATURE", signatureDigest);
           ("PUBLIC-KEY", keyDigest)]
          [] [] (SpawnStatus (Some 0)) NoFault.

Definition signedOptions : Handler.options :=
  Handler.mkOptions fileUrl (fileUrl +:+ ".sig")
    "file:///checksums.json" "file:///checksums.json.sig"
    "/srv/advisories/feed.json" "/srv/advisories/feed.json.sig"
    "/srv/advisories/checksums.json" "/srv/advisories/checksums.json.sig"
    "/keys/feed.pem" false true.

(** A match of the advisory of [feedJson] with the installed skill. *)
Definition testSkill : InstalledSkill.t :=
  InstalledSkill.mk "test-skill" "test-skill" (Some "1.0.0").

Definition testMatch : AdvisoryMatch.t :=
  AdvisoryMatch.mk (asAdvisory advisoryJson) testSkill ["test-skill@1.0.0"].

(** A state file of an older schema, with an advisory listed twice and a
    blank id. *)
Definition staleStateJson : json :=
  JObj [("schema_version", JStr "1.0");
        ("known_advisories", JArr [JStr "TEST-001"; JStr " "; JStr "TEST-001"])].

(** A request for a skill that no advisory names. *)
Definition otherRequest : list string := ["--skill"; "other-skill"].


End Samples.

(* ===================================================================== *)
(** ** Strings, effects and the allow-list *)
(* ===================================================================== *)

(* ---- strings ---- *)
Section StringFacts.

Lemma trimEnd_idempotent (s : string) : JS.trimEnd (JS.trimEnd s) = JS.trimEnd s.
Proof.
  induction s as [|c r IH]; simpl; [reflexivity|].
  destruct (JS.isWhiteSpace c && JS.isEmpty (JS.trimEnd r)) eqn:E; simpl; [reflexivity|].
  rewrite IH, E. reflexivity.
Qed.

Lemma trimStart_head (s : string) :
  JS.trimStart s = EmptyString
  \/ exists c r, JS.trimStart s = String c r /\ JS.isWhiteSpace c = false.
Proof.
  induction s as [|c r IH]; simpl; [now left|].
  destruct (JS.isWhiteSpace c) eqn:E; [exact IH|].
  right. exists c, r. split; [reflexivity|exact E].
Qed.

Lemma trimStart_trim (s : string) : JS.trimStart (JS.trim s) = JS.trim s.
Proof.
  unfold JS.trim. destruct (trimStart_head s) as [->|(c & r & -> & Hc)]; [reflexivity|].
  simpl. rewrite Hc. simpl. rewrite Hc. reflexivity.
Qed.

Lemma trim_idempotent (s : string) : JS.trim (JS.trim s) = JS.trim s.
Proof.
  unfold JS.trim at 1. rewrite trimStart_trim. unfold JS.trim. apply trimEnd_idempotent.
Qed.

Lemma lastIndexOf_absent (c : ascii) (s : string) :
  JS.includes c s = false -> JS.lastIndexOf c s = -1.
Proof.
  induction s as [|d r IH]; simpl; [reflexivity|].
  intros H. apply orb_false_elim in H as [Hd Hr].
  rewrite (IH Hr). simpl. rewrite Hd. reflexivity.
Qed.

Lemma isEmpty_false (s : string) : s <> EmptyString -> JS.isEmpty s = false.
Proof. destruct s; [congruence|reflexivity]. Qed.

End StringFacts.

Lemma append_cons (c : ascii) (x y : string) : String c x +:+ y = String c (x +:+ y).
Proof. reflexivity. Qed.

Lemma append_nil (y : string) : EmptyString +:+ y = y.
Proof. reflexivity. Qed.

Ltac appends := rewrite ?append_cons, ?append_nil.

Lemma append_assoc (x y z : string) : (x +:+ y) +:+ z = x +:+ y +:+ z.
Proof. induction x as [|c x IH]; appends; [reflexivity|]. rewrite IH. reflexivity. Qed.

Lemma append_empty (x : string) : x +:+ EmptyString = x.
Proof. induction x as [|c x IH]; appends; [reflexivity|]. rewrite IH. reflexivity. Qed.

Lemma includes_app c x y : JS.includes c (x +:+ y) = JS.includes c x || JS.includes c y.
Proof. induction x as [|d x IH]; appends; simpl; [reflexivity|]. rewrite IH. apply orb_assoc. Qed.

Lemma effectFree_ret {A} (a : A) : effectFree (ret a).
Proof. exists (Done a). repeat split; intros; discriminate. Qed.

Lemma effectFree_throw {A} (message : string) : effectFree (throw (A := A) (Error message)).
Proof. exists (Thrown (Error message)). repeat split; intros; discriminate. Qed.

Lemma effectFree_bind {A B} (m : M A) (k : A -> M B) :
  effectFree m -> (forall a, effectFree (k a)) -> effectFree (x <- m ;; k x).
Proof.
  intros (o & Ho & Hp & He) Hk. destruct o as [a|e|n].
  - destruct (Hk a) as (o' & Ho' & Hp' & He'). exists o'.
    split; [|auto]. intros s. unfold bind. rewrite Ho. apply Ho'.
  - exists (Thrown e). split; [|split].
    + intros s. unfold bind. rewrite Ho. reflexivity.
    + intros msg E. injection E as ->. eapply Hp; reflexivity.
    + discriminate.
  - exfalso. eapply He; reflexivity.
Qed.

Create HintDb effects.
#[local] Hint Resolve effectFree_ret effectFree_throw : effects.

Lemma collectDigests_error entries files e :
  Feed.collectDigests entries files = inl e -> exists message, e = Error message.
Proof.
  revert files. induction entries as [|[key value] r IH]; intros files; simpl; [discriminate|].
  destruct (JS.isEmpty (JS.trim key)); [apply IH|].
  destruct (Feed.extractSha256Value value); [apply IH|].
  intros [= <-]. eauto.
Qed.

Lemma effectFree_parseChecksumsManifest (w : World) (manifestRaw : string) :
  effectFree (Feed.parseChecksumsManifest w manifestRaw).
Proof.
  unfold Feed.parseChecksumsManifest. apply effectFree_bind.
  - unfold orThrow. destruct (jsonParse w manifestRaw); auto with effects.
  - intros parsed.
    destruct (negb (isObject parsed)); [auto with effects|].
    match goal with |- effectFree (if ?b then _ else _) => destruct b end; [auto with effects|].
    match goal with |- effectFree (if ?b then _ else _) => destruct b end; [auto with effects|].
    destruct (prop "files" parsed) as [filesRaw|]; [|auto with effects].
    destruct (negb (isObject filesRaw)); [auto with effects|].
    destruct (Feed.collectDigests (entriesOf filesRaw) ∅) as [e|files] eqn:E.
    + apply collectDigests_error in E as [message ->]. auto with effects.
    + destruct (bool_decide (files = ∅)); auto with effects.
Qed.

Lemma effectFree_verifyChecksums (w : World) (m : Feed.manifest) entries :
  effectFree (Feed.verifyChecksums w m entries).
Proof.
  induction entries as [|[entryName entryContent] r IH]; simpl; [auto with effects|].
  destruct (JS.isEmpty entryName); [exact IH|].
  destruct (Feed.files m !! entryName) as [expectedDigest|];
    [|destruct (isInherited entryName); auto with effects].
  destruct (JS.isEmpty expectedDigest); [auto with effects|].
  destruct (negb _); auto with effects.
Qed.

#[local] Hint Resolve effectFree_parseChecksumsManifest effectFree_verifyChecksums : effects.

Lemma fetchText_run (w : World) (url : string) (s : Sys) :
  Feed.fetchText w url s = (fetchOutcome w url, requested url s).
Proof.
  unfold Feed.fetchText, Feed.secureFetch, fetchOutcome, tryCatch, bind, emit, throw, ret, requested.
  destruct (Feed.isAllowedDomain w url); simpl; [|reflexivity].
  destruct (fetch w url); reflexivity.
Qed.

Lemma extended_nil s : extended s [] = s.
Proof. destruct s. unfold extended. simpl. rewrite app_nil_r. reflexivity. Qed.

Lemma extended_app s evs1 evs2 : extended (extended s evs1) evs2 = extended s (evs1 ++ evs2).
Proof. unfold extended. simpl. rewrite app_assoc. reflexivity. Qed.

Lemma requested_extended url s : requested url s = extended s [FetchRequested url].
Proof. reflexivity. Qed.

Lemma reader_policyAware {A} w (m : M A) : policyAware w m -> reader m.
Proof. intros H s. destruct (H s) as (evs & ? & ? & ? & _). eauto. Qed.

Lemma reader_effectFree {A} (m : M A) : effectFree m -> reader m.
Proof.
  intros (o & Ho & _ & He) s. exists []. rewrite Ho. simpl.
  split; [symmetry; apply extended_nil|]. split; [constructor|exact He].
Qed.

Lemma reader_bind {A B} (m : M A) (k : A -> M B) :
  reader m -> (forall a, reader (k a)) -> reader (x <- m ;; k x).
Proof.
  intros Hm Hk s. destruct (Hm s) as (evs & Ht & Hr & He).
  unfold bind. destruct (m s) as [[a|e|n] s1] eqn:E; simpl in *.
  - destruct (Hk a s1) as (evs' & Ht' & Hr' & He'). exists (evs ++ evs')%list.
    split; [|split].
    + rewrite Ht', Ht. apply extended_app.
    + apply Forall_app. auto.
    + exact He'.
  - exists evs. split; [exact Ht|]. split; [exact Hr|discriminate].
  - exfalso. eapply He; reflexivity.
Qed.

Lemma policyAware_effectFree {A} w (m : M A) : effectFree m -> policyAware w m.
Proof.
  intros (o & Ho & Hp & He) s. exists []. rewrite Ho. simpl.
  split; [symmetry; apply extended_nil|]. split; [constructor|]. split; [exact He|].
  split; [intros (url & [] & _)|intros [message ->]; exfalso; eapply Hp; reflexivity].
Qed.

Lemma policyAware_fetchText w url : policyAware w (Feed.fetchText w url).
Proof.
  intros s. exists [FetchRequested url]. rewrite fetchText_run. simpl.
  split; [reflexivity|]. split; [repeat constructor; eexists; reflexivity|].
  unfold fetchOutcome. split; [|split].
  - destruct (Feed.isAllowedDomain w url); discriminate.
  - intros (u & [[= <-]|[]] & Hb). rewrite Hb. eexists; reflexivity.
  - intros [message E]. exists url. split; [now left|].
    destruct (Feed.isAllowedDomain w url); [discriminate|reflexivity].
Qed.

Lemma blocked_app w evs1 evs2 : blocked w (evs1 ++ evs2) <-> blocked w evs1 \/ blocked w evs2.
Proof.
  split.
  - intros (url & Hin & Hb). apply in_app_or in Hin as [H|H]; [left|right]; exists url; auto.
  - intros [(url & Hin & Hb)|(url & Hin & Hb)]; exists url; split; auto using in_or_app.
Qed.

Lemma policyAware_bind {A B} w (m : M A) (k : A -> M B) :
  policyAware w m -> (forall a, policyAware w (k a)) -> policyAware w (x <- m ;; k x).
Proof.
  intros Hm Hk s. destruct (Hm s) as (evs & Ht & Hr & He & Hb).
  unfold bind. destruct (m s) as [[a|e|n] s1] eqn:E; simpl in *.
  - destruct (Hk a s1) as (evs' & Ht' & Hr' & He' & Hb'). exists (evs ++ evs')%list.
    split; [|split; [|split]].
    + rewrite Ht', Ht. apply extended_app.
    + apply Forall_app. auto.
    + exact He'.
    + rewrite blocked_app, <- Hb'. split; [|auto].
      intros [Hbl|Hbl]; [|exact Hbl]. apply Hb in Hbl as [message [=]].
  - exists evs. split; [exact Ht|]. split; [exact Hr|]. split; [discriminate|].
    rewrite Hb. unfold raisesPolicy.
    split; intros [message [= ->]]; eexists; reflexivity.
  - exfalso. eapply He; reflexivity.
Qed.

Create HintDb policy.
#[local] Hint Resolve policyAware_fetchText policyAware_bind : policy.
#[local] Hint Extern 2 (policyAware _ _) => (apply policyAware_effectFree; auto with effects) : policy.

Ltac policy_cases :=
  repeat first
    [ solve [apply policyAware_effectFree; auto with effects]
    | apply policyAware_fetchText
    | apply policyAware_bind; [|intros ?]
    | match goal with
      | |- policyAware _ (if ?b then _ else _) => destruct b
      | |- policyAware _ (match ?x with _ => _ end) => destruct x
      end ].

Lemma policyAware_remoteVerification w feedUrl o payloadRaw :
  policyAware w (Feed.remoteVerification w feedUrl o payloadRaw).
Proof. unfold Feed.remoteVerification. policy_cases. Qed.

Lemma policyAware_remoteBody w feedUrl o :
  policyAware w
    (fetched <- Feed.fetchText w feedUrl ;;
     match Feed.truthy fetched with
     | None => ret None
     | Some payloadRaw =>
         verified <- (if negb (Feed.Remote.allowUnsignedOf o)
                      then Feed.remoteVerification w feedUrl o payloadRaw
                      else ret true) ;;
         if verified then
           match jsonParse w payloadRaw with
           | Some payload =>
               if Feed.isValidFeedPayload payload then ret (Some payload) else ret None
           | None => ret None
           end
         else ret None
     end).
Proof.
  policy_cases; apply policyAware_remoteVerification.
Qed.

Lemma since_extended s evs : since s (extended s evs) = evs.
Proof. unfold since, extended. simpl. apply drop_app_length. Qed.

Lemma loadRemoteFeed_cases w feedUrl o s :
  exists body : M (option json),
    policyAware w body
    /\ Feed.loadRemoteFeed w feedUrl o s
       = match body s with
         | (Thrown e, s') =>
             (if isSecurityPolicyError e then Done None else Thrown e, s')
         | r => r
         end.
Proof.
  eexists. split; [apply (policyAware_remoteBody w feedUrl o)|].
  unfold Feed.loadRemoteFeed, tryCatch.
  match goal with |- context [match ?b with _ => _ end] => destruct b as [[a|e|n] s'] end;
    try reflexivity.
  destruct e; reflexivity.
Qed.

(** Claim C1, as amended.  A request to a URL outside the allow-list makes
    [fetchText] raise the policy error, which its handler of network
    errors passes on.  [loadRemoteFeed] catches that error: whenever one
    of the URLs it requested (feed, signature, checksum manifest, manifest
    signature) was refused, it returns [null], so that the caller falls
    back to the local feed; it never raises the policy error itself. *)
Theorem policy_violation_ends_remote_load_without_feed w feedUrl o s :
  (forall url, Feed.isAllowedDomain w url = false ->
               raisesPolicy (Feed.fetchText w url s).1)
  /\ (blocked w (since s (Feed.loadRemoteFeed w feedUrl o s).2) ->
      (Feed.loadRemoteFeed w feedUrl o s).1 = Done None)
  /\ notPolicy (Feed.loadRemoteFeed w feedUrl o s).1.
Proof.
  split; [|split].
  - intros url Hb. rewrite fetchText_run. unfold fetchOutcome. rewrite Hb. eexists; reflexivity.
  - destruct (loadRemoteFeed_cases w feedUrl o s) as (body & Hbody & ->).
    destruct (Hbody s) as (evs & Ht & _ & _ & Hb).
    destruct (body s) as [[a|e|n] s'] eqn:E; simpl in *; subst s'; rewrite since_extended.
    + intros Hbl. apply Hb in Hbl as [message [=]].
    + intros Hbl. apply Hb in Hbl as [message [= ->]]. reflexivity.
    + intros Hbl. apply Hb in Hbl as [message [=]].
  - destruct (loadRemoteFeed_cases w feedUrl o s) as (body & _ & ->).
    destruct (body s) as [[a|e|n] s']; simpl; intros message; try discriminate.
    destruct e; simpl; discriminate.
Qed.

(** Claim C1 as stated fails on the feed URL of the repository's tests,
    [file:///nonexistent]: the URL is refused, and [loadRemoteFeed] returns
    [null] instead of raising the policy error. *)
Lemma remote_load_absorbs_policy_violation :
  Feed.isAllowedDomain (Fixtures.world Fixtures.offline) Fixtures.fileUrl = false
  /\ In (FetchRequested Fixtures.fileUrl)
        (trace (Feed.loadRemoteFeed (Fixtures.world Fixtures.offline) Fixtures.fileUrl Fixtures.noRemoteOptions (initial None)).2)
  /\ (Feed.loadRemoteFeed (Fixtures.world Fixtures.offline) Fixtures.fileUrl Fixtures.noRemoteOptions (initial None)).1 = Done None
  /\ ~ raisesPolicy (Feed.loadRemoteFeed (Fixtures.world Fixtures.offline) Fixtures.fileUrl Fixtures.noRemoteOptions (initial None)).1.
Proof.
  split; [reflexivity|]. split; [left; reflexivity|]. split; [reflexivity|].
  intros [message H]. vm_compute in H. discriminate H.
Qed.

(** The theorem at the same URL. *)
Lemma policy_violation_ends_remote_load_witness :
  (Feed.loadRemoteFeed (Fixtures.world Fixtures.offline) Fixtures.fileUrl Fixtures.noRemoteOptions (initial None)).1 = Done None.
Proof.
  apply (proj1 (proj2 (policy_violation_ends_remote_load_without_feed (Fixtures.world Fixtures.offline) Fixtures.fileUrl Fixtures.noRemoteOptions
                         (initial None)))).
  exists Fixtures.fileUrl. split; [left; reflexivity|reflexivity].
Defined.

(* ===================================================================== *)
(** ** The two feed loaders *)
(* ===================================================================== *)

Ltac branch :=
  match goal with
  | |- context [if ?b then _ else _] => destruct b eqn:?
  | |- context [match ?x with _ => _ end] => destruct x eqn:?
  end.

Lemma remote_skip w feedUrl o s :
  Feed.isAllowedDomain w (Feed.Remote.checksumsUrlOf w feedUrl o) = true ->
  Feed.isAllowedDomain w (Feed.Remote.checksumsSignatureUrlOf w feedUrl o) = true ->
  received w (Feed.Remote.checksumsUrlOf w feedUrl o) = None
  \/ received w (Feed.Remote.checksumsSignatureUrlOf w feedUrl o) = None ->
  (Feed.loadRemoteFeed w feedUrl o s).1
  = (Feed.loadRemoteFeed w feedUrl (withoutChecksums o) s).1.
Proof.
  intros Ha Hb Hr.
  unfold Feed.loadRemoteFeed, Feed.remoteVerification, tryCatch, bind.
  change (Feed.Remote.allowUnsignedOf (withoutChecksums o)) with (Feed.Remote.allowUnsignedOf o).
  change (Feed.Remote.signatureUrlOf feedUrl (withoutChecksums o))
    with (Feed.Remote.signatureUrlOf feedUrl o).
  change (Feed.Remote.publicKeyPemOf (withoutChecksums o)) with (Feed.Remote.publicKeyPemOf o).
  change (Feed.Remote.verifyChecksumManifestOf (withoutChecksums o)) with false.
  rewrite !fetchText_run. unfold fetchOutcome.
  destruct (Feed.isAllowedDomain w feedUrl); [|reflexivity].
  destruct (Feed.truthy _) as [payloadRaw|]; [|reflexivity].
  destruct (Feed.Remote.allowUnsignedOf o); simpl; [reflexivity|].
  rewrite !fetchText_run. unfold fetchOutcome.
  destruct (Feed.isAllowedDomain w (Feed.Remote.signatureUrlOf feedUrl o)); [|reflexivity].
  destruct (Feed.truthy _) as [signatureRaw|]; [|reflexivity].
  destruct (Feed.verifySignedPayload w payloadRaw signatureRaw _); simpl; [|reflexivity].
  destruct (Feed.Remote.verifyChecksumManifestOf o); [|reflexivity].
  cbv beta iota. rewrite !fetchText_run. unfold fetchOutcome. rewrite Ha.
  cbv beta iota. rewrite ?fetchText_run. unfold fetchOutcome. rewrite Hb. cbv beta iota.
  unfold received in Hr.
  destruct Hr as [Hr|Hr]; rewrite Hr; clear Hr; [|destruct (Feed.truthy _)];
    (destruct (jsonParse w payloadRaw) as [payload|];
     [destruct (Feed.isValidFeedPayload payload)|]; reflexivity).
Qed.

Ltac run_fetch := cbv beta iota; rewrite ?fetchText_run; unfold fetchOutcome.

Lemma verifyChecksums_Done w m entries s :
  (Feed.verifyChecksums w m entries s).1 = Done tt -> digestsMatch w m entries.
Proof.
  induction entries as [|[n c] r IH]; simpl; intros H entryName entryContent Hin Hne.
  - destruct Hin.
  - destruct (JS.isEmpty n) eqn:En.
    + destruct Hin as [[= <- <-]|Hin]; [destruct n; [congruence|discriminate]|].
      exact (IH H _ _ Hin Hne).
    + destruct (Feed.files m !! n) as [d|] eqn:Ed;
        [|destruct (isInherited n); discriminate].
      destruct (JS.isEmpty d); [discriminate|].
      destruct (String.eqb (sha256Hex w c) d) eqn:Eq; simpl in H; [|discriminate].
      apply String.eqb_eq in Eq. destruct Hin as [[= <- <-]|Hin].
      * rewrite Ed, Eq. reflexivity.
      * exact (IH H _ _ Hin Hne).
Qed.

Lemma assign_plain key value table : plainTable table -> plainTable (assign key value table).
Proof.
  unfold plainTable, assign. intros H.
  destruct (String.eqb_spec key "__proto__") as [->|Hne]; [exact H|].
  rewrite lookup_insert_ne by exact Hne. exact H.
Qed.

Lemma extractSha256Value_hex value digest :
  Feed.extractSha256Value value = Some digest -> Feed.isHex64 digest = true.
Proof.
  unfold Feed.extractSha256Value.
  assert (Hcheck : forall s,
             (if Feed.isHex64 (JS.toLowerCase (JS.trim s))
              then Some (JS.toLowerCase (JS.trim s)) else None) = Some digest ->
             Feed.isHex64 digest = true).
  { intros s. destruct (Feed.isHex64 _) eqn:E; [|discriminate]. intros [= <-]. exact E. }
  destruct value; try discriminate; try apply Hcheck;
    cbn [isObject]; destruct (propString _ _); try discriminate; apply Hcheck.
Qed.

Lemma collectDigests_invariant entries files result :
  Feed.collectDigests entries files = inr result ->
  (forall key digest, files !! key = Some digest ->
                      Feed.isHex64 digest = true /\ JS.isEmpty (JS.trim key) = false) ->
  (forall key digest, result !! key = Some digest ->
                      Feed.isHex64 digest = true /\ JS.isEmpty (JS.trim key) = false).
Proof.
  revert files. induction entries as [|[k v] r IH]; intros files; simpl.
  - intros [= <-] H. exact H.
  - destruct (JS.isEmpty (JS.trim k)) eqn:Ek; [apply IH|].
    destruct (Feed.extractSha256Value v) as [d|] eqn:Ed; [|discriminate].
    intros Hr Hf. apply (IH _ Hr). intros key digest.
    unfold assign. destruct (String.eqb k "__proto__"); [apply Hf|].
    destruct (decide (k = key)) as [->|Hne].
    + rewrite lookup_insert_eq. intros [= <-]. split; [|exact Ek].
      apply (extractSha256Value_hex _ _ Ed).
    + rewrite lookup_insert_ne by exact Hne. apply Hf.
Qed.

Lemma collectDigests_plain entries files result :
  Feed.collectDigests entries files = inr result -> plainTable files -> plainTable result.
Proof.
  revert files. induction entries as [|[k v] r IH]; intros files; simpl.
  - intros [= <-] H. exact H.
  - destruct (JS.isEmpty (JS.trim k)); [apply IH|].
    destruct (Feed.extractSha256Value v) as [d|]; [|discriminate].
    intros Hr Hf. apply (IH _ Hr), assign_plain, Hf.
Qed.

(** What [parseChecksumsManifest] has checked when it returns. *)
Lemma parseChecksumsManifest_Done w manifestRaw s m :
  (Feed.parseChecksumsManifest w manifestRaw s).1 = Done m ->
  Feed.algorithm m = "sha256"
  /\ Feed.schemaVersion m <> EmptyString
  /\ Feed.files m <> ∅
  /\ plainTable (Feed.files m)
  /\ (forall name digest,
         Feed.files m !! name = Some digest ->
         Feed.isHex64 digest = true /\ JS.isEmpty (JS.trim name) = false).
Proof.
  unfold Feed.parseChecksumsManifest, orThrow, bind, throw, ret.
  destruct (jsonParse w manifestRaw) as [parsed|]; [|discriminate].
  destruct (isObject parsed); [|discriminate]. cbn [negb].
  match goal with
  | |- context [String.eqb ?a "sha256"] => destruct (String.eqb_spec a "sha256") as [Ea|]
  end; [|discriminate].
  cbn [negb].
  match goal with
  | |- context [JS.isEmpty ?v] => destruct (JS.isEmpty v) eqn:Ev
  end; [discriminate|].
  destruct (prop "files" parsed) as [filesRaw|]; [|discriminate].
  destruct (isObject filesRaw); [|discriminate]. cbn [negb].
  destruct (Feed.collectDigests _ ∅) as [e|files] eqn:Ec; [discriminate|].
  destruct (bool_decide (files = ∅)) eqn:Ef; [discriminate|].
  intros [= <-]. cbn [Feed.algorithm Feed.schemaVersion Feed.files].
  split; [exact Ea|].
  split; [intros H; rewrite H in Ev; discriminate Ev|].
  split; [apply bool_decide_eq_false in Ef; exact Ef|].
  split; [apply (collectDigests_plain _ _ _ Ec), lookup_empty|].
  apply (collectDigests_invariant _ _ _ Ec). intros key digest. rewrite lookup_empty.
  discriminate.
Qed.

Lemma isHex64_filled digest : Feed.isHex64 digest = true -> JS.isEmpty digest = false.
Proof. destruct digest; [discriminate|reflexivity]. Qed.

Lemma verifyChecksums_complete w m entries s :
  (forall name digest, Feed.files m !! name = Some digest -> Feed.isHex64 digest = true) ->
  digestsMatch w m entries -> (Feed.verifyChecksums w m entries s).1 = Done tt.
Proof.
  intros Hhex. induction entries as [|[n c] r IH]; simpl; intros H; [reflexivity|].
  assert (Hr : digestsMatch w m r).
  { intros a b Hin. apply H. right. exact Hin. }
  destruct (JS.isEmpty n) eqn:En; [apply IH, Hr|].
  assert (Hn : Feed.files m !! n = Some (sha256Hex w c)).
  { apply H; [left; reflexivity|]. intros ->. discriminate En. }
  rewrite Hn, (isHex64_filled _ (Hhex _ _ Hn)).
  rewrite String.eqb_refl. cbn [negb]. apply IH, Hr.
Qed.

Lemma remote_accepts w feedUrl o s payload :
  (Feed.loadRemoteFeed w feedUrl o s).1 = Done (Some payload) ->
  exists payloadRaw,
    received w feedUrl = Some payloadRaw
    /\ jsonParse w payloadRaw = Some payload
    /\ Feed.isValidFeedPayload payload = true
    /\ (Feed.Remote.allowUnsignedOf o = false ->
        exists signatureRaw,
          received w (Feed.Remote.signatureUrlOf feedUrl o) = Some signatureRaw
          /\ Feed.verifySignedPayload w payloadRaw signatureRaw
               (Feed.Remote.publicKeyPemOf o) = true
          /\ (Feed.Remote.verifyChecksumManifestOf o = true ->
              forall checksumsRaw checksumsSignatureRaw,
                received w (Feed.Remote.checksumsUrlOf w feedUrl o) = Some checksumsRaw ->
                received w (Feed.Remote.checksumsSignatureUrlOf w feedUrl o)
                  = Some checksumsSignatureRaw ->
                manifestVouches w checksumsRaw checksumsSignatureRaw
                  (Feed.Remote.checksumsPublicKeyPemOf o)
                  (Feed.Remote.expectedEntries w feedUrl o payloadRaw signatureRaw))).
Proof.
  unfold Feed.loadRemoteFeed, Feed.remoteVerification, tryCatch, bind.
  run_fetch.
  destruct (Feed.isAllowedDomain w feedUrl); [|discriminate].
  cbv beta iota. fold (received w feedUrl).
  destruct (received w feedUrl) as [payloadRaw|]; [|discriminate].
  intros H. exists payloadRaw. split; [reflexivity|].
  assert (Hparse : forall s' : Sys,
             (match jsonParse w payloadRaw with
              | Some payload =>
                  if Feed.isValidFeedPayload payload then ret (Some payload) else ret None
              | None => ret None
              end s').1 = Done (Some payload) ->
             jsonParse w payloadRaw = Some payload /\ Feed.isValidFeedPayload payload = true).
  { intros s'. destruct (jsonParse w payloadRaw) as [p|]; [|discriminate].
    destruct (Feed.isValidFeedPayload p) eqn:E; [|discriminate].
    intros [= ->]. auto. }
  destruct (Feed.Remote.allowUnsignedOf o); cbn [negb] in H.
  { unfold ret at 1 in H. cbv beta iota in H.
    destruct (_ _) as [[a|e|n] s'] eqn:E in H; try discriminate;
        try (destruct e; discriminate).
    apply (f_equal fst) in E. simpl in H, E. rewrite H in E. apply Hparse in E as [-> ->].
      split; [reflexivity|]. split; [reflexivity|]. discriminate. }
  revert H. run_fetch.
  destruct (Feed.isAllowedDomain w (Feed.Remote.signatureUrlOf feedUrl o)); [|discriminate].
  cbv beta iota. fold (received w (Feed.Remote.signatureUrlOf feedUrl o)).
  destruct (received w (Feed.Remote.signatureUrlOf feedUrl o)) as [signatureRaw|];
    [|discriminate].
  destruct (Feed.verifySignedPayload w payloadRaw signatureRaw _) eqn:Hsig;
    cbn [negb]; [|discriminate].
  destruct (Feed.Remote.verifyChecksumManifestOf o).
  2:{ unfold ret at 1. cbv beta iota. intros H.
      destruct (_ _) as [[a|e|n] s'] eqn:E in H; try discriminate;
        try (destruct e; discriminate).
      apply (f_equal fst) in E. simpl in H, E. rewrite H in E. apply Hparse in E as [-> ->].
        split; [reflexivity|]. split; [reflexivity|]. intros _. exists signatureRaw.
        split; [reflexivity|]. split; [exact Hsig|]. discriminate. }
  run_fetch.
  destruct (Feed.isAllowedDomain w (Feed.Remote.checksumsUrlOf w feedUrl o)); [|discriminate].
  run_fetch.
  destruct (Feed.isAllowedDomain w (Feed.Remote.checksumsSignatureUrlOf w feedUrl o));
    [|discriminate].
  cbv beta iota.
  fold (received w (Feed.Remote.checksumsUrlOf w feedUrl o)).
  fold (received w (Feed.Remote.checksumsSignatureUrlOf w feedUrl o)).
  destruct (received w (Feed.Remote.checksumsUrlOf w feedUrl o)) as [checksumsRaw|] eqn:Hc.
  2:{ unfold ret at 1. cbv beta iota. intros H.
      destruct (_ _) as [[a|e|n] s'] eqn:E in H; try discriminate;
        try (destruct e; discriminate).
      apply (f_equal fst) in E. simpl in H, E. rewrite H in E. apply Hparse in E as [-> ->].
        split; [reflexivity|]. split; [reflexivity|]. intros _. exists signatureRaw.
        split; [reflexivity|]. split; [exact Hsig|].
        intros _ c cs [=]. }
  destruct (received w (Feed.Remote.checksumsSignatureUrlOf w feedUrl o))
    as [checksumsSignatureRaw|] eqn:Hcs.
  2:{ unfold ret at 1. cbv beta iota. intros H.
      destruct (_ _) as [[a|e|n] s'] eqn:E in H; try discriminate;
        try (destruct e; discriminate).
      apply (f_equal fst) in E. simpl in H, E. rewrite H in E. apply Hparse in E as [-> ->].
        split; [reflexivity|]. split; [reflexivity|]. intros _. exists signatureRaw.
        split; [reflexivity|]. split; [exact Hsig|].
        intros _ c cs _ [=]. }
  destruct (Feed.verifySignedPayload w checksumsRaw checksumsSignatureRaw _) eqn:Hmsig;
    cbn [negb]; [|discriminate].
  destruct (effectFree_parseChecksumsManifest w checksumsRaw) as (o1 & Ho1 & _).
  rewrite Ho1. destruct o1 as [m|e|n]; [|destruct e; discriminate|discriminate].
  destruct (effectFree_verifyChecksums w m
              (Feed.Remote.expectedEntries w feedUrl o payloadRaw signatureRaw))
    as (o2 & Ho2 & _).
  pose proof (verifyChecksums_Done w m
                (Feed.Remote.expectedEntries w feedUrl o payloadRaw signatureRaw) s) as Hd.
  rewrite Ho2 in *. destruct o2 as [[]|e|n]; [|destruct e; discriminate|discriminate].
  unfold ret at 1. cbv beta iota. intros H.
  destruct (_ _) as [[a|e|n] s'] eqn:E in H; try discriminate;
        try (destruct e; discriminate).
  apply (f_equal fst) in E. simpl in H, E. rewrite H in E. apply Hparse in E as [-> ->].
    split; [reflexivity|]. split; [reflexivity|]. intros _. exists signatureRaw.
    split; [reflexivity|]. split; [exact Hsig|].
    intros _ c cs [= <-] [= <-]. split; [exact Hmsig|]. exists m. split; [exact Ho1|].
    apply Hd. reflexivity.
Qed.

Ltac tail_cases payloadRaw :=
  match goal with
  | |- context [jsonParse ?w payloadRaw] =>
      destruct (jsonParse w payloadRaw) as [?payload|];
      [match goal with
       | |- context [Feed.isValidFeedPayload ?p] => destruct (Feed.isValidFeedPayload p)
       end|]
  end; unfold ret; try discriminate.

Lemma remote_throws w feedUrl o s e :
  (Feed.loadRemoteFeed w feedUrl o s).1 = Thrown e ->
  exists payloadRaw signatureRaw checksumsRaw checksumsSignatureRaw message,
    e = Error message
    /\ Feed.Remote.allowUnsignedOf o = false
    /\ Feed.Remote.verifyChecksumManifestOf o = true
    /\ received w feedUrl = Some payloadRaw
    /\ received w (Feed.Remote.signatureUrlOf feedUrl o) = Some signatureRaw
    /\ Feed.verifySignedPayload w payloadRaw signatureRaw (Feed.Remote.publicKeyPemOf o) = true
    /\ received w (Feed.Remote.checksumsUrlOf w feedUrl o) = Some checksumsRaw
    /\ received w (Feed.Remote.checksumsSignatureUrlOf w feedUrl o)
       = Some checksumsSignatureRaw
    /\ Feed.verifySignedPayload w checksumsRaw checksumsSignatureRaw
         (Feed.Remote.checksumsPublicKeyPemOf o) = true
    /\ ~ manifestVouches w checksumsRaw checksumsSignatureRaw
           (Feed.Remote.checksumsPublicKeyPemOf o)
           (Feed.Remote.expectedEntries w feedUrl o payloadRaw signatureRaw).
Proof.
  unfold Feed.loadRemoteFeed, Feed.remoteVerification, tryCatch, bind.
  run_fetch.
  destruct (Feed.isAllowedDomain w feedUrl); [|discriminate].
  cbv beta iota. fold (received w feedUrl).
  destruct (received w feedUrl) as [payloadRaw|]; [|discriminate].
  destruct (Feed.Remote.allowUnsignedOf o); cbn [negb].
  { unfold ret at 1. cbv beta iota. tail_cases payloadRaw. }
  run_fetch.
  destruct (Feed.isAllowedDomain w (Feed.Remote.signatureUrlOf feedUrl o)); [|discriminate].
  cbv beta iota. fold (received w (Feed.Remote.signatureUrlOf feedUrl o)).
  destruct (received w (Feed.Remote.signatureUrlOf feedUrl o)) as [signatureRaw|];
    [|discriminate].
  destruct (Feed.verifySignedPayload w payloadRaw signatureRaw _) eqn:Hsig;
    cbn [negb]; [|discriminate].
  destruct (Feed.Remote.verifyChecksumManifestOf o).
  2:{ unfold ret at 1. cbv beta iota. tail_cases payloadRaw. }
  run_fetch.
  destruct (Feed.isAllowedDomain w (Feed.Remote.checksumsUrlOf w feedUrl o)); [|discriminate].
  run_fetch.
  destruct (Feed.isAllowedDomain w (Feed.Remote.checksumsSignatureUrlOf w feedUrl o));
    [|discriminate].
  cbv beta iota.
  fold (received w (Feed.Remote.checksumsUrlOf w feedUrl o)).
  fold (received w (Feed.Remote.checksumsSignatureUrlOf w feedUrl o)).
  destruct (received w (Feed.Remote.checksumsUrlOf w feedUrl o)) as [checksumsRaw|] eqn:Hc.
  2:{ unfold ret at 1. cbv beta iota. tail_cases payloadRaw. }
  destruct (received w (Feed.Remote.checksumsSignatureUrlOf w feedUrl o))
    as [checksumsSignatureRaw|] eqn:Hcs.
  2:{ unfold ret at 1. cbv beta iota. tail_cases payloadRaw. }
  destruct (Feed.verifySignedPayload w checksumsRaw checksumsSignatureRaw _) eqn:Hmsig;
    cbn [negb]; [|discriminate].
  destruct (effectFree_parseChecksumsManifest w checksumsRaw) as (o1 & Ho1 & Hp1 & _).
  rewrite Ho1. destruct o1 as [m|e1|n].
  3:{ discriminate. }
  2:{ destruct e1 as [msg|msg]; [exfalso; eapply Hp1; reflexivity|].
      cbn [fst]. intros [= <-].
      exists payloadRaw, signatureRaw, checksumsRaw, checksumsSignatureRaw, msg.
      repeat (split; [reflexivity || assumption|]).
      intros (_ & m & Hm & _). specialize (Hm s). rewrite Ho1 in Hm. discriminate Hm. }
  destruct (effectFree_verifyChecksums w m
              (Feed.Remote.expectedEntries w feedUrl o payloadRaw signatureRaw))
    as (o2 & Ho2 & Hp2 & _).
  pose proof (verifyChecksums_Done w m
                (Feed.Remote.expectedEntries w feedUrl o payloadRaw signatureRaw) s) as Hd.
  rewrite Ho2 in *. destruct o2 as [[]|e2|n].
  3:{ discriminate. }
  1:{ unfold ret at 1. cbv beta iota. tail_cases payloadRaw. }
  destruct e2 as [msg|msg]; [exfalso; eapply Hp2; reflexivity|].
  cbn [fst]. intros [= <-].
  exists payloadRaw, signatureRaw, checksumsRaw, checksumsSignatureRaw, msg.
  repeat (split; [reflexivity || assumption|]).
  intros (_ & m' & Hm & Hdig). specialize (Hm s). rewrite Ho1 in Hm. injection Hm as <-.
  assert (Hdone : (Feed.verifyChecksums w m
                     (Feed.Remote.expectedEntries w feedUrl o payloadRaw signatureRaw) s).1
                  = Done tt).
  { apply verifyChecksums_complete; [|exact Hdig].
    intros name digest Hin.
    destruct (parseChecksumsManifest_Done w checksumsRaw s m) as (_ & _ & _ & _ & Hhex).
    - rewrite Ho1. reflexivity.
    - apply (Hhex _ _ Hin). }
  rewrite Ho2 in Hdone. discriminate Hdone.
Qed.

Lemma remote_refused w feedUrl o s :
  Feed.Remote.allowUnsignedOf o = false ->
  Feed.Remote.verifyChecksumManifestOf o = true ->
  Feed.isAllowedDomain w (Feed.Remote.checksumsUrlOf w feedUrl o) = false
  \/ Feed.isAllowedDomain w (Feed.Remote.checksumsSignatureUrlOf w feedUrl o) = false ->
  (Feed.loadRemoteFeed w feedUrl o s).1 = Done None.
Proof.
  intros Hu Hc Hr.
  unfold Feed.loadRemoteFeed, Feed.remoteVerification, tryCatch, bind.
  rewrite Hu, Hc. cbn [negb].
  run_fetch.
  destruct (Feed.isAllowedDomain w feedUrl); [|reflexivity].
  destruct (Feed.truthy _) as [payloadRaw|]; [|reflexivity].
  run_fetch.
  destruct (Feed.isAllowedDomain w (Feed.Remote.signatureUrlOf feedUrl o)); [|reflexivity].
  destruct (Feed.truthy _) as [signatureRaw|]; [|reflexivity].
  destruct (Feed.verifySignedPayload w payloadRaw signatureRaw _); cbn [negb]; [|reflexivity].
  run_fetch.
  destruct (Feed.isAllowedDomain w (Feed.Remote.checksumsUrlOf w feedUrl o)) eqn:Ea;
    [|reflexivity].
  run_fetch.
  destruct Hr as [Hr|Hr]; [discriminate Hr|]. rewrite Hr. reflexivity.
Qed.

Lemma effectFree_readFileM w path : effectFree (Feed.readFileM w path).
Proof.
  unfold Feed.readFileM, orThrow. destruct (readFile w path); auto with effects.
Qed.

#[local] Hint Resolve effectFree_readFileM : effects.

Ltac effect_cases :=
  repeat first
    [ solve [auto with effects]
    | apply effectFree_bind; [|intros ?]
    | match goal with
      | |- effectFree (if ?b then _ else _) => destruct b
      | |- effectFree (match ?x with _ => _ end) => destruct x
      end ].

Lemma effectFree_loadLocalFeed w feedPath o : effectFree (Feed.loadLocalFeed w feedPath o).
Proof. unfold Feed.loadLocalFeed, orThrow. effect_cases. Qed.

Lemma local_accepts w feedPath o s payload :
  (Feed.loadLocalFeed w feedPath o s).1 = Done payload ->
  exists payloadRaw,
    readFile w feedPath = Some payloadRaw
    /\ jsonParse w payloadRaw = Some payload
    /\ Feed.isValidFeedPayload payload = true
    /\ (Feed.Local.allowUnsignedOf o = false ->
        exists signatureRaw,
          readFile w (Feed.Local.signaturePathOf feedPath o) = Some signatureRaw
          /\ Feed.verifySignedPayload w payloadRaw signatureRaw
               (Feed.Local.publicKeyPemOf o) = true
          /\ (Feed.Local.verifyChecksumManifestOf o = true ->
              exists checksumsRaw checksumsSignatureRaw,
                readFile w (Feed.Local.checksumsPathOf w feedPath o) = Some checksumsRaw
                /\ readFile w (Feed.Local.checksumsSignaturePathOf w feedPath o)
                   = Some checksumsSignatureRaw
                /\ manifestVouches w checksumsRaw checksumsSignatureRaw
                     (Feed.Local.checksumsPublicKeyPemOf o)
                     (Feed.Local.expectedEntries w feedPath o payloadRaw signatureRaw))).
Proof.
  unfold Feed.loadLocalFeed, Feed.readFileM, orThrow, bind.
  destruct (readFile w feedPath) as [payloadRaw|]; [|discriminate].
  unfold ret at 1. cbv beta iota.
  assert (Hparse : forall s' : Sys,
             (let (o0, s'0) :=
                match jsonParse w payloadRaw with
                | Some a => ret a
                | None => throw (Error "SyntaxError: invalid JSON")
                end s' in
              match o0 with
              | Done a =>
                  (if negb (Feed.isValidFeedPayload a)
                   then throw (Error ("Invalid advisory feed format: " +:+ feedPath))
                   else ret a) s'0
              | Thrown e => (Thrown e, s'0)
              | Exited n => (Exited n, s'0)
              end).1 = Done payload ->
             jsonParse w payloadRaw = Some payload /\ Feed.isValidFeedPayload payload = true).
  { intros s'. destruct (jsonParse w payloadRaw) as [p|]; [|discriminate].
    unfold ret at 1. cbv beta iota.
    destruct (Feed.isValidFeedPayload p) eqn:E; [|discriminate].
    intros [= ->]. auto. }
  destruct (Feed.Local.allowUnsignedOf o); cbn [negb].
  { unfold ret at 1. cbv beta iota. intros H. apply Hparse in H as [Hj Hv].
    exists payloadRaw. split; [reflexivity|]. split; [exact Hj|]. split; [exact Hv|].
    discriminate. }
  destruct (readFile w (Feed.Local.signaturePathOf feedPath o)) as [signatureRaw|];
    [|discriminate].
  unfold ret at 1. cbv beta iota.
  destruct (Feed.verifySignedPayload w payloadRaw signatureRaw _) eqn:Hsig;
    cbn [negb]; [|discriminate].
  destruct (Feed.Local.verifyChecksumManifestOf o).
  2:{ unfold ret at 1. cbv beta iota. intros H. apply Hparse in H as [Hj Hv].
      exists payloadRaw. split; [reflexivity|]. split; [exact Hj|]. split; [exact Hv|].
      intros _. exists signatureRaw. split; [reflexivity|]. split; [exact Hsig|]. discriminate. }
  destruct (readFile w (Feed.Local.checksumsPathOf w feedPath o)) as [checksumsRaw|];
    [|discriminate].
  unfold ret at 1. cbv beta iota.
  destruct (readFile w (Feed.Local.checksumsSignaturePathOf w feedPath o))
    as [checksumsSignatureRaw|]; [|discriminate].
  unfold ret at 1. cbv beta iota.
  destruct (Feed.verifySignedPayload w checksumsRaw checksumsSignatureRaw _) eqn:Hmsig;
    cbn [negb]; [|discriminate].
  destruct (effectFree_parseChecksumsManifest w checksumsRaw) as (o1 & Ho1 & _).
  rewrite Ho1. destruct o1 as [m|e|n]; [|discriminate..].
  destruct (effectFree_verifyChecksums w m
              (Feed.Local.expectedEntries w feedPath o payloadRaw signatureRaw))
    as (o2 & Ho2 & _).
  pose proof (verifyChecksums_Done w m
                (Feed.Local.expectedEntries w feedPath o payloadRaw signatureRaw) s) as Hd.
  rewrite Ho2 in *. destruct o2 as [[]|e|n]; [|discriminate..].
  intros H. apply Hparse in H as [Hj Hv].
  exists payloadRaw. split; [reflexivity|]. split; [exact Hj|]. split; [exact Hv|].
  intros _. exists signatureRaw. split; [reflexivity|]. split; [exact Hsig|].
  intros _. exists checksumsRaw, checksumsSignatureRaw.
  split; [reflexivity|]. split; [reflexivity|]. split; [exact Hmsig|].
  exists m. split; [exact Ho1|]. apply Hd. reflexivity.
Qed.

(* ===================================================================== *)
(** ** Payload shape and checksum manifests *)
(* ===================================================================== *)

Lemma isFilledString_nonEmpty v : Feed.isFilledString v = true -> nonEmptyString v = true.
Proof.
  destruct v as [[]|]; simpl; try discriminate. destruct s; [discriminate|reflexivity].
Qed.

Lemma isValidAdvisory_shape advisory :
  Feed.isValidAdvisory advisory = true -> advisoryShape advisory = true.
Proof.
  unfold Feed.isValidAdvisory, advisoryShape. intros H.
  apply andb_prop in H as [H Ha]. apply andb_prop in H as [H Hs]. apply andb_prop in H as [_ Hi].
  rewrite (isFilledString_nonEmpty _ Hi), (isFilledString_nonEmpty _ Hs). simpl.
  destruct (prop "affected" advisory) as [[]|]; try discriminate. reflexivity.
Qed.

Lemma isValidFeedPayload_shape payload :
  Feed.isValidFeedPayload payload = true -> feedShape payload = true.
Proof.
  unfold Feed.isValidFeedPayload, feedShape. intros H.
  apply andb_prop in H as [H Ha]. apply andb_prop in H as [-> Hv].
  rewrite (isFilledString_nonEmpty _ Hv). simpl.
  destruct (prop "advisories" payload) as [[]|]; try discriminate.
  rewrite forallb_forall in *. intros a Hin. apply isValidAdvisory_shape, Ha, Hin.
Qed.

Lemma remote_rejects w feedUrl o s payloadRaw payload :
  received w feedUrl = Some payloadRaw ->
  jsonParse w payloadRaw = Some payload ->
  Feed.isValidFeedPayload payload = false ->
  (Feed.Remote.allowUnsignedOf o = true
   \/ exists verified s',
        Feed.remoteVerification w feedUrl o payloadRaw (requested feedUrl s)
        = (Done verified, s')) ->
  (Feed.loadRemoteFeed w feedUrl o s).1 = Done None.
Proof.
  intros Hr Hj Hv Hsig. unfold Feed.loadRemoteFeed, tryCatch, bind.
  rewrite fetchText_run. unfold fetchOutcome.
  destruct (Feed.isAllowedDomain w feedUrl); [|reflexivity].
  cbv beta iota. fold (received w feedUrl). rewrite Hr.
  destruct (Feed.Remote.allowUnsignedOf o); cbn [negb].
  - unfold ret. rewrite Hj, Hv. reflexivity.
  - destruct Hsig as [[=]|(verified & s' & ->)].
    destruct verified; [|reflexivity]. unfold ret. rewrite Hj, Hv. reflexivity.
Qed.

Lemma remote_never_exits w feedUrl o s status :
  (Feed.loadRemoteFeed w feedUrl o s).1 <> Exited status.
Proof.
  destruct (loadRemoteFeed_cases w feedUrl o s) as (body & Hbody & ->).
  destruct (Hbody s) as (evs & _ & _ & Hexit & _).
  destruct (body s) as [[a|e|n] s']; cbn [fst] in *; try discriminate.
  - destruct (isSecurityPolicyError e); discriminate.
  - intros _. apply (Hexit n). reflexivity.
Qed.

(** Claim C5, as amended.  A payload that either loader returns has the
    shape of the specification.  A payload without that shape is rejected
    whole, whether or not its signature verified.  The local load raises
    an error.  The remote load never returns the payload: it returns
    [null] or raises an error; it returns [null] whenever signatures are
    not required, checksum verification is off, or the verification of
    signature and checksums ran to its end; and it raises only when
    checksum verification is on, the manifest and its signature were both
    received, the signature of the manifest verified, and the manifest
    does not vouch for the feed and its signature, which is checked before
    the shape is. *)
Theorem loaders_accept_only_well_shaped_payloads (w : World) (s : Sys) :
  (forall feedPath o payload,
      (Feed.loadLocalFeed w feedPath o s).1 = Done payload -> feedShape payload = true)
  /\ (forall feedUrl o payload,
        (Feed.loadRemoteFeed w feedUrl o s).1 = Done (Some payload) ->
        feedShape payload = true)
  /\ (forall feedPath o payloadRaw payload,
        readFile w feedPath = Some payloadRaw ->
        jsonParse w payloadRaw = Some payload ->
        feedShape payload = false ->
        exists e, (Feed.loadLocalFeed w feedPath o s).1 = Thrown e)
  /\ (forall feedUrl o payloadRaw payload,
        received w feedUrl = Some payloadRaw ->
        jsonParse w payloadRaw = Some payload ->
        feedShape payload = false ->
        (forall accepted, (Feed.loadRemoteFeed w feedUrl o s).1 <> Done (Some accepted))
        /\ ((Feed.loadRemoteFeed w feedUrl o s).1 = Done None
            \/ exists message, (Feed.loadRemoteFeed w feedUrl o s).1 = Thrown (Error message))
        /\ (Feed.Remote.allowUnsignedOf o = true
            \/ Feed.Remote.verifyChecksumManifestOf o = false
            \/ (exists verified s',
                  Feed.remoteVerification w feedUrl o payloadRaw (requested feedUrl s)
                  = (Done verified, s')) ->
            (Feed.loadRemoteFeed w feedUrl o s).1 = Done None)
        /\ (forall e,
              (Feed.loadRemoteFeed w feedUrl o s).1 = Thrown e ->
              exists signatureRaw checksumsRaw checksumsSignatureRaw,
                Feed.Remote.allowUnsignedOf o = false
                /\ Feed.Remote.verifyChecksumManifestOf o = true
                /\ received w (Feed.Remote.signatureUrlOf feedUrl o) = Some signatureRaw
                /\ Feed.verifySignedPayload w payloadRaw signatureRaw
                     (Feed.Remote.publicKeyPemOf o) = true
                /\ received w (Feed.Remote.checksumsUrlOf w feedUrl o) = Some checksumsRaw
                /\ received w (Feed.Remote.checksumsSignatureUrlOf w feedUrl o)
                   = Some checksumsSignatureRaw
                /\ Feed.verifySignedPayload w checksumsRaw checksumsSignatureRaw
                     (Feed.Remote.checksumsPublicKeyPemOf o) = true
                /\ ~ manifestVouches w checksumsRaw checksumsSignatureRaw
                       (Feed.Remote.checksumsPublicKeyPemOf o)
                       (Feed.Remote.expectedEntries w feedUrl o payloadRaw signatureRaw))).
Proof.
  split; [|split; [|split]].
  - intros feedPath o payload H.
    destruct (local_accepts _ _ _ _ _ H) as (raw & _ & _ & Hv & _).
    apply isValidFeedPayload_shape, Hv.
  - intros feedUrl o payload H.
    destruct (remote_accepts _ _ _ _ _ H) as (raw & _ & _ & Hv & _).
    apply isValidFeedPayload_shape, Hv.
  - intros feedPath o payloadRaw payload Hr Hj Hs.
    destruct (effectFree_loadLocalFeed w feedPath o) as (out & Hout & _ & He).
    pose proof (local_accepts w feedPath o s) as Hacc. rewrite Hout in *. simpl in *.
    destruct out as [accepted|e|n].
    + destruct (Hacc accepted eq_refl) as (raw & Hr' & Hj' & Hv & _).
      rewrite Hr in Hr'. injection Hr' as <-. rewrite Hj in Hj'. injection Hj' as <-.
      apply isValidFeedPayload_shape in Hv. congruence.
    + eauto.
    + exfalso. eapply He; reflexivity.
  - intros feedUrl o payloadRaw payload Hr Hj Hs.
    assert (Hv : Feed.isValidFeedPayload payload = false).
    { destruct (Feed.isValidFeedPayload payload) eqn:E; [|reflexivity].
      apply isValidFeedPayload_shape in E. congruence. }
    assert (Hnever : forall accepted,
               (Feed.loadRemoteFeed w feedUrl o s).1 <> Done (Some accepted)).
    { intros accepted H.
      destruct (remote_accepts _ _ _ _ _ H) as (raw & Hr' & Hj' & Hv' & _).
      rewrite Hr in Hr'. injection Hr' as <-. rewrite Hj in Hj'. injection Hj' as <-.
      congruence. }
    assert (Hthrows : forall e,
               (Feed.loadRemoteFeed w feedUrl o s).1 = Thrown e ->
               exists message signatureRaw checksumsRaw checksumsSignatureRaw,
                 e = Error message
                 /\ Feed.Remote.allowUnsignedOf o = false
                 /\ Feed.Remote.verifyChecksumManifestOf o = true
                 /\ received w (Feed.Remote.signatureUrlOf feedUrl o) = Some signatureRaw
                 /\ Feed.verifySignedPayload w payloadRaw signatureRaw
                      (Feed.Remote.publicKeyPemOf o) = true
                 /\ received w (Feed.Remote.checksumsUrlOf w feedUrl o) = Some checksumsRaw
                 /\ received w (Feed.Remote.checksumsSignatureUrlOf w feedUrl o)
                    = Some checksumsSignatureRaw
                 /\ Feed.verifySignedPayload w checksumsRaw checksumsSignatureRaw
                      (Feed.Remote.checksumsPublicKeyPemOf o) = true
                 /\ ~ manifestVouches w checksumsRaw checksumsSignatureRaw
                        (Feed.Remote.checksumsPublicKeyPemOf o)
                        (Feed.Remote.expectedEntries w feedUrl o payloadRaw signatureRaw)).
    { intros e H.
      destruct (remote_throws _ _ _ _ _ H)
        as (raw & sig & c & cs & message & -> & Hu & Hc & Hr' & Hrest).
      rewrite Hr in Hr'. injection Hr' as <-. exists message, sig, c, cs. auto. }
    split; [exact Hnever|]. split; [|split].
    + destruct (Feed.loadRemoteFeed w feedUrl o s).1 as [[accepted|]|e|n] eqn:E.
      * destruct (Hnever accepted). reflexivity.
      * left. reflexivity.
      * destruct (Hthrows e eq_refl) as (message & _ & _ & _ & -> & _). right. eauto.
      * destruct (remote_never_exits w feedUrl o s n E).
    + intros [Hu|[Hc|Hdone]].
      * apply remote_rejects with (payloadRaw := payloadRaw) (payload := payload); auto.
      * destruct (Feed.loadRemoteFeed w feedUrl o s).1 as [[accepted|]|e|n] eqn:E.
        -- destruct (Hnever accepted). reflexivity.
        -- reflexivity.
        -- destruct (Hthrows e eq_refl) as (_ & _ & _ & _ & _ & _ & Hc' & _). congruence.
        -- destruct (remote_never_exits w feedUrl o s n E).
      * apply remote_rejects with (payloadRaw := payloadRaw) (payload := payload); auto.
    + intros e H. destruct (Hthrows e H) as (message & sig & c & cs & _ & Hrest).
      exists sig, c, cs. exact Hrest.
Qed.

(** Claim C5 as stated fails for the remote loader: a payload without
    advisories whose signature verifies, on a host whose signed checksum
    manifest lists another digest for it, makes the load raise the
    checksum error instead of returning [null]. *)
Lemma signed_misshapen_payload_raises :
  feedShape Fixtures.misshapenJson = false
  /\ Feed.verifySignedPayload (Fixtures.world Fixtures.misshapenListed) "FEED" "FEED-SIGNATURE"
       "PUBLIC-KEY" = true
  /\ (Feed.loadRemoteFeed (Fixtures.world Fixtures.misshapenListed) Fixtures.feedUrl
        Fixtures.keyed (initial None)).1
     = Thrown (Error "Checksum mismatch for feed.json").
Proof. repeat split. Qed.

(** The theorem at a validly signed payload without advisories. *)
Lemma loaders_accept_only_well_shaped_payloads_witness :
  (Feed.loadRemoteFeed (Fixtures.world Fixtures.misshapen) Fixtures.feedUrl Fixtures.keyed (initial None)).1 = Done None.
Proof.
  refine (proj1 (proj2 (proj2 (proj2 (proj2 (proj2 (loaders_accept_only_well_shaped_payloads (Fixtures.world Fixtures.misshapen) (initial None))))
                  Fixtures.feedUrl Fixtures.keyed "FEED" Fixtures.misshapenJson _ _ _))) _).
  - reflexivity.
  - reflexivity.
  - reflexivity.
  - right. right. eexists _, _. vm_compute. reflexivity.
Defined.

(** Claim C2, as amended.  With signature verification enabled:
    the remote loader, when both checksum URLs pass the allow-list and the
    manifest or its signature yields no text, returns what it returns with
    checksum verification switched off; with checksum verification on and
    one of the two checksum URLs refused by the allow-list, it returns
    [null]; a feed it returns has a verified feed signature and, when
    checksum verification is on and manifest and signature were both
    received, a verified manifest whose digests match every required
    entry.  The local loader, with checksum verification on, returns a
    feed only if the manifest and its signature file exist and verify and
    the digests match; otherwise it raises an error. *)
Theorem checksum_verification_remote_and_local (w : World) (s : Sys) :
  (forall feedUrl o,
      Feed.Remote.allowUnsignedOf o = false ->
      (Feed.isAllowedDomain w (Feed.Remote.checksumsUrlOf w feedUrl o) = true ->
       Feed.isAllowedDomain w (Feed.Remote.checksumsSignatureUrlOf w feedUrl o) = true ->
       received w (Feed.Remote.checksumsUrlOf w feedUrl o) = None
       \/ received w (Feed.Remote.checksumsSignatureUrlOf w feedUrl o) = None ->
       (Feed.loadRemoteFeed w feedUrl o s).1
       = (Feed.loadRemoteFeed w feedUrl (withoutChecksums o) s).1)
      /\ (Feed.Remote.verifyChecksumManifestOf o = true ->
          Feed.isAllowedDomain w (Feed.Remote.checksumsUrlOf w feedUrl o) = false
          \/ Feed.isAllowedDomain w (Feed.Remote.checksumsSignatureUrlOf w feedUrl o) = false ->
          (Feed.loadRemoteFeed w feedUrl o s).1 = Done None)
      /\ (forall payload,
            (Feed.loadRemoteFeed w feedUrl o s).1 = Done (Some payload) ->
            exists payloadRaw signatureRaw,
              received w feedUrl = Some payloadRaw
              /\ received w (Feed.Remote.signatureUrlOf feedUrl o) = Some signatureRaw
              /\ Feed.verifySignedPayload w payloadRaw signatureRaw
                   (Feed.Remote.publicKeyPemOf o) = true
              /\ (Feed.Remote.verifyChecksumManifestOf o = true ->
                  forall checksumsRaw checksumsSignatureRaw,
                    received w (Feed.Remote.checksumsUrlOf w feedUrl o) = Some checksumsRaw ->
                    received w (Feed.Remote.checksumsSignatureUrlOf w feedUrl o)
                    = Some checksumsSignatureRaw ->
                    manifestVouches w checksumsRaw checksumsSignatureRaw
                      (Feed.Remote.checksumsPublicKeyPemOf o)
                      (Feed.Remote.expectedEntries w feedUrl o payloadRaw signatureRaw))))
  /\ (forall feedPath o,
        Feed.Local.allowUnsignedOf o = false ->
        Feed.Local.verifyChecksumManifestOf o = true ->
        (forall payload,
            (Feed.loadLocalFeed w feedPath o s).1 = Done payload ->
            exists payloadRaw signatureRaw checksumsRaw checksumsSignatureRaw,
              readFile w feedPath = Some payloadRaw
              /\ readFile w (Feed.Local.signaturePathOf feedPath o) = Some signatureRaw
              /\ readFile w (Feed.Local.checksumsPathOf w feedPath o) = Some checksumsRaw
              /\ readFile w (Feed.Local.checksumsSignaturePathOf w feedPath o)
                 = Some checksumsSignatureRaw
              /\ manifestVouches w checksumsRaw checksumsSignatureRaw
                   (Feed.Local.checksumsPublicKeyPemOf o)
                   (Feed.Local.expectedEntries w feedPath o payloadRaw signatureRaw))
        /\ ((exists payload, (Feed.loadLocalFeed w feedPath o s).1 = Done payload)
            \/ (exists e, (Feed.loadLocalFeed w feedPath o s).1 = Thrown e))).
Proof.
  split.
  - intros feedUrl o Hu. split; [apply remote_skip|]. split; [apply remote_refused, Hu|].
    intros payload H.
    destruct (remote_accepts _ _ _ _ _ H) as (raw & Hr & _ & _ & Hsig).
    destruct (Hsig Hu) as (sig & Hs & Hv & Hc).
    exists raw, sig. split; [exact Hr|]. split; [exact Hs|]. split; [exact Hv|exact Hc].
  - intros feedPath o Hu Hc. split.
    + intros payload H.
      destruct (local_accepts _ _ _ _ _ H) as (raw & Hr & _ & _ & Hsig).
      destruct (Hsig Hu) as (sig & Hs & Hv & Hm).
      destruct (Hm Hc) as (c & cs & Hrc & Hrcs & Hvouch).
      exists raw, sig, c, cs.
      split; [exact Hr|]. split; [exact Hs|]. split; [exact Hrc|]. split; [exact Hrcs|].
      exact Hvouch.
    + destruct (effectFree_loadLocalFeed w feedPath o) as (out & Hout & _ & He).
      rewrite Hout. simpl. destruct out as [p|e|n].
      * left. eexists; reflexivity.
      * right. eexists; reflexivity.
      * exfalso. eapply He; reflexivity.
Qed.

(** Claim C2 as stated fails when the manifest is unreachable and the URL
    of its signature is outside the allow-list: the validly signed feed is
    not loaded on its signature alone, the load returns [null]. *)
Lemma blocked_manifest_signature_rejects_signed_feed :
  received (Fixtures.world Fixtures.signedRemote) (Feed.Remote.checksumsUrlOf (Fixtures.world Fixtures.signedRemote) Fixtures.feedUrl Fixtures.mirrored)
  = None
  /\ Feed.Remote.allowUnsignedOf Fixtures.mirrored = false
  /\ (Feed.loadRemoteFeed (Fixtures.world Fixtures.signedRemote) Fixtures.feedUrl Fixtures.mirrored (initial None)).1 = Done None
  /\ (Feed.loadRemoteFeed (Fixtures.world Fixtures.signedRemote) Fixtures.feedUrl (withoutChecksums Fixtures.mirrored)
        (initial None)).1 = Done (Some Fixtures.feedJson).
Proof. repeat split. Qed.

(** The theorem at a signed feed whose host publishes no manifest, and at
    the same feed with the manifest signature looked for on a mirror
    outside the allow-list. *)
Lemma checksum_verification_remote_and_local_witness :
  (Feed.loadRemoteFeed (Fixtures.world Fixtures.signedRemote) Fixtures.feedUrl Fixtures.keyed (initial None)).1
  = (Feed.loadRemoteFeed (Fixtures.world Fixtures.signedRemote) Fixtures.feedUrl (withoutChecksums Fixtures.keyed) (initial None)).1
  /\ (Feed.loadRemoteFeed (Fixtures.world Fixtures.signedRemote) Fixtures.feedUrl
        Fixtures.mirrored (initial None)).1 = Done None.
Proof.
  split.
  - refine (proj1 (proj1 (checksum_verification_remote_and_local (Fixtures.world Fixtures.signedRemote) (initial None)) Fixtures.feedUrl Fixtures.keyed _)
              _ _ _).
    + reflexivity.
    + reflexivity.
    + reflexivity.
    + left. reflexivity.
  - refine (proj1 (proj2 (proj1 (checksum_verification_remote_and_local
                                   (Fixtures.world Fixtures.signedRemote) (initial None))
                            Fixtures.feedUrl Fixtures.mirrored _)) _ _).
    + reflexivity.
    + reflexivity.
    + right. reflexivity.
Defined.

(* ===================================================================== *)
(** ** The state file and the hook *)
(* ===================================================================== *)

Lemma reader_loadRemoteFeed w feedUrl o : reader (Feed.loadRemoteFeed w feedUrl o).
Proof.
  intros s. destruct (loadRemoteFeed_cases w feedUrl o s) as (body & Hbody & ->).
  destruct (reader_policyAware _ _ Hbody s) as (evs & Ht & Hr & He).
  exists evs. destruct (body s) as [[a|e|n] s']; simpl in *.
  - auto.
  - split; [exact Ht|]. split; [exact Hr|]. destruct (isSecurityPolicyError e); discriminate.
  - exfalso. eapply He; reflexivity.
Qed.

Lemma reader_loadFeedFrom w o : reader (Handler.loadFeedFrom w o).
Proof.
  unfold Handler.loadFeedFrom.
  apply reader_bind; [destruct (Handler.allowUnsigned o); apply reader_effectFree; auto with effects|].
  intros publicKeyPem. apply reader_bind; [apply reader_loadRemoteFeed|].
  intros [feed|]; [apply reader_effectFree; auto with effects|].
  apply reader_bind; [apply reader_effectFree, effectFree_loadLocalFeed|].
  intros localFeed. apply reader_effectFree; auto with effects.
Qed.

Lemma reader_loadFeed w o : reader (Handler.loadFeed w o).
Proof.
  unfold Handler.loadFeed. apply reader_bind; [apply reader_loadFeedFrom|].
  intros r. apply reader_effectFree; auto with effects.
Qed.

(* ---- lists of strings ---- *)

Lemma existsb_eqb_In (x : string) (l : list string) :
  existsb (String.eqb x) l = true <-> In x l.
Proof.
  rewrite existsb_exists. split.
  - intros (y & Hy & E). apply String.eqb_eq in E. subst. exact Hy.
  - intros H. exists x. split; [exact H|apply String.eqb_refl].
Qed.

Lemma uniqueFrom_In (seen values : list string) (x : string) :
  In x (JS.uniqueFrom seen values) <-> In x values /\ ~ In x seen.
Proof.
  revert seen. induction values as [|v r IH]; intros seen; simpl; [tauto|].
  destruct (existsb (String.eqb v) seen) eqn:E.
  - apply existsb_eqb_In in E. rewrite IH. split; [tauto|].
    intros [[->|H] Hn]; tauto.
  - assert (~ In v seen) as Hv by (rewrite <- existsb_eqb_In, E; discriminate).
    simpl. rewrite IH. simpl. split.
    + intros [->|[H Hn]]; tauto.
    + intros [[->|H] Hn]; [tauto|].
      destruct (String.string_dec v x) as [->|Hne]; tauto.
Qed.

Lemma uniqueStrings_In (values : list string) (x : string) :
  In x (uniqueStrings values) <-> In x values.
Proof. unfold uniqueStrings. rewrite uniqueFrom_In. simpl. tauto. Qed.

Lemma stringItems_strings (l : list string) : stringItems (map JStr l) = l.
Proof. induction l as [|x r IH]; [reflexivity|]. cbn. unfold stringItems in IH. rewrite IH. reflexivity. Qed.

(* ---- lib/state.ts ---- *)

Lemma known_normalize_stateToJson (st : AdvisoryState.t) :
  AdvisoryState.known_advisories (State.normalizeState (State.stateToJson st))
  = uniqueStrings (List.filter State.isFilled (AdvisoryState.known_advisories st)).
Proof. cbn. rewrite stringItems_strings. reflexivity. Qed.

Lemma notified_normalize_stateToJson (st : AdvisoryState.t) :
  AdvisoryState.notified_matches (State.normalizeState (State.stateToJson st))
  = State.collectNotified
      (map (fun kv => (kv.1, JStr kv.2)) (map_to_list (AdvisoryState.notified_matches st))) ∅.
Proof. reflexivity. Qed.

Lemma collectNotified_allFilled entries acc :
  allFilled acc -> allFilled (State.collectNotified entries acc).
Proof.
  revert acc. induction entries as [|[key value] r IH]; intros acc Hacc; simpl; [exact Hacc|].
  destruct value; try (apply IH; exact Hacc).
  apply IH. destruct (State.isFilled s) eqn:E; [|exact Hacc].
  unfold assign. destruct (String.eqb key "__proto__"); [exact Hacc|].
  intros k v. destruct (decide (key = k)) as [->|Hne].
  - rewrite lookup_insert_eq. intros [= <-]. exact E.
  - rewrite lookup_insert_ne by exact Hne. apply Hacc.
Qed.

Lemma collectNotified_plain entries acc :
  plainTable acc -> plainTable (State.collectNotified entries acc).
Proof.
  revert acc. induction entries as [|[key value] r IH]; intros acc Hacc; simpl; [exact Hacc|].
  destruct value; try (apply IH; exact Hacc).
  apply IH. destruct (State.isFilled s); [apply assign_plain|]; exact Hacc.
Qed.

Lemma normalizeState_plain raw :
  plainTable (AdvisoryState.notified_matches (State.normalizeState raw)).
Proof.
  unfold State.normalizeState. destruct (negb (isObject raw)); simpl; [apply lookup_empty|].
  destruct (prop "notified_matches" raw) as [m|]; [|apply lookup_empty].
  destruct (isObject m); [|apply lookup_empty].
  apply collectNotified_plain, lookup_empty.
Qed.



Lemma allFilled_empty : allFilled ∅.
Proof. intros k v. rewrite lookup_empty. discriminate. Qed.

Lemma normalizeState_allFilled raw :
  allFilled (AdvisoryState.notified_matches (State.normalizeState raw)).
Proof.
  unfold State.normalizeState. destruct (negb (isObject raw)); simpl; [apply allFilled_empty|].
  destruct (prop "notified_matches" raw) as [m|]; [|apply allFilled_empty].
  destruct (isObject m); [|apply allFilled_empty].
  apply collectNotified_allFilled, allFilled_empty.
Qed.


Lemma collectNotified_strings (l : list (string * string)) (acc : gmap string string) (k : string) :
  NoDup l.*1 ->
  (forall kv, In kv l -> State.isFilled kv.2 = true) ->
  (forall kv, In kv l -> kv.1 <> "__proto__") ->
  State.collectNotified (map (fun kv => (kv.1, JStr kv.2)) l) acc !! k
  = match (list_to_map l : gmap string string) !! k with
    | Some v => Some v
    | None => acc !! k
    end.
Proof.
  revert acc. induction l as [|[k0 v0] r IH]; intros acc Hnd Hf Hp; simpl.
  - rewrite lookup_empty. reflexivity.
  - apply NoDup_cons in Hnd as [Hk0 Hnd].
    pose proof (Hf (k0, v0) (or_introl eq_refl)) as Hv0. simpl in Hv0. rewrite Hv0.
    pose proof (Hp (k0, v0) (or_introl eq_refl)) as Hp0. simpl in Hp0.
    unfold assign. apply String.eqb_neq in Hp0. rewrite Hp0.
    rewrite IH; [|exact Hnd|intros kv Hin; apply Hf; right; exact Hin
                 |intros kv Hin; apply Hp; right; exact Hin].
    destruct (decide (k0 = k)) as [->|Hne].
    + rewrite lookup_insert_eq.
      rewrite (not_elem_of_list_to_map_1 r k) by exact Hk0.
      rewrite lookup_insert_eq. reflexivity.
    + rewrite !lookup_insert_ne by exact Hne. reflexivity.
Qed.

Lemma notified_roundtrip (st : AdvisoryState.t) :
  allFilled (AdvisoryState.notified_matches st) ->
  plainTable (AdvisoryState.notified_matches st) ->
  AdvisoryState.notified_matches (State.normalizeState (State.stateToJson st))
  = AdvisoryState.notified_matches st.
Proof.
  intros Hf Hp. rewrite notified_normalize_stateToJson. apply map_eq. intros k.
  rewrite collectNotified_strings.
  - rewrite list_to_map_to_list, lookup_empty. destruct (_ !! k); reflexivity.
  - apply NoDup_fst_map_to_list.
  - intros [k' v'] Hin. apply (Hf k'). apply elem_of_map_to_list.
    apply list_elem_of_In. exact Hin.
  - intros [k' v'] Hin E. cbn in E. subst k'.
    apply list_elem_of_In, elem_of_map_to_list in Hin. unfold plainTable in Hp. congruence.
Qed.


Lemma known_filled raw id :
  In id (AdvisoryState.known_advisories (State.normalizeState raw)) -> State.isFilled id = true.
Proof.
  unfold State.normalizeState. destruct (negb (isObject raw)); simpl; [tauto|].
  destruct (prop "known_advisories" raw) as [[]|]; simpl; try tauto.
  rewrite uniqueStrings_In, filter_In. tauto.
Qed.

Lemma knownIds_filled s id : In id (knownIds s) -> State.isFilled id = true.
Proof.
  unfold knownIds, storedState. destruct (stateFile s); [apply known_filled|simpl; tauto].
Qed.

Lemma knownIds_written (st : AdvisoryState.t) (s : Sys) id :
  stateFile s = Some (written st) ->
  In id (knownIds s) <-> In id (AdvisoryState.known_advisories st) /\ State.isFilled id = true.
Proof.
  intros E. unfold knownIds, storedState, written in *. rewrite E.
  rewrite !known_normalize_stateToJson, !uniqueStrings_In, !filter_In, uniqueStrings_In, filter_In.
  tauto.
Qed.

(* ---- handler.ts ---- *)

Lemma scan_eq w cfg event state feed :
  Handler.scan w cfg event state feed
  = (State.persistState w (Handler.stateFilePath cfg) (scanState w cfg state feed) ;;;
     ret (scanEvent w cfg event state feed)).
Proof.
  unfold Handler.scan, scanEvent, scanUnseen, scanState, scanMatches, refreshed.
  destruct (Matching.findMatches feed _) as [|m r] eqn:E; [reflexivity|].
  cbn [length Nat.eqb].
  destruct (Handler.collectUnseen _ _ _) as [unseen state']. reflexivity.
Qed.

Lemma persistState_cases w path state s :
  match persistFaults w with
  | WriteFails => exists e, State.persistState w path state s = (Thrown e, s)
  | _ => exists o evs,
           State.persistState w path state s = (o, extended (stored state s) evs)
           /\ Forall (fun ev => ~ isStateWrite ev) evs
           /\ (forall n, o <> Exited n)
  end.
Proof.
  unfold State.persistState. destruct (persistFaults w) as [| |code|].
  - exists (Done tt), []. rewrite extended_nil. repeat split; [constructor|discriminate].
  - eexists; reflexivity.
  - unfold bind, State.writeStateFile. cbv beta iota.
    destruct (String.eqb code "ENOTSUP" || String.eqb code "EPERM").
    + eexists (Done tt), [_]. split; [reflexivity|]. split; [|discriminate].
      repeat constructor. intros [c [=]].
    + eexists (Thrown _), []. rewrite extended_nil. split; [reflexivity|].
      split; [constructor|discriminate].
  - eexists (Thrown _), []. rewrite extended_nil. split; [reflexivity|].
    split; [constructor|discriminate].
Qed.


Lemma collectUnseen_fields matches state now :
  let state' := (Handler.collectUnseen matches state now).2 in
  AdvisoryState.last_hook_scan state' = AdvisoryState.last_hook_scan state
  /\ AdvisoryState.known_advisories state' = AdvisoryState.known_advisories state.
Proof.
  revert state. induction matches as [|m r IH]; intros state; simpl; [auto|].
  destruct (Handler.alreadyNotified state (Matching.matchKey m)); [apply IH|].
  specialize (IH (Handler.setNotified state (Matching.matchKey m) now)).
  destruct (Handler.collectUnseen r _ now) as [unseen state'']. simpl in *. exact IH.
Qed.

Lemma since_trace s s' evs : trace s' = (trace s ++ evs)%list -> since s s' = evs.
Proof. intros E. unfold since. rewrite E. apply drop_app_length. Qed.

Lemma afterWarning_frame w s :
  stateFile (afterWarning w s) = stateFile s
  /\ exists evs, trace (afterWarning w s) = (trace s ++ evs)%list
                 /\ Forall (fun ev => ~ isStateWrite ev) evs.
Proof.
  unfold afterWarning, Handler.warnUnsignedOnce.
  destruct (_ && _); simpl.
  - split; [reflexivity|]. eexists [_]. split; [reflexivity|].
    repeat constructor. intros [c [=]].
  - split; [reflexivity|]. exists []. rewrite app_nil_r. split; [reflexivity|constructor].
Qed.

Lemma storedState_afterWarning w s : storedState (afterWarning w s) = storedState s.
Proof. unfold storedState. rewrite (proj1 (afterWarning_frame w s)). reflexivity. Qed.

Lemma handler_proceeds w event s :
  proceeds w event s = true ->
  Handler.handler w event s
  = match Handler.loadFeed w (Handler.feedOptions (Handler.readSettings w)) (afterWarning w s) with
    | (Done feed, s1) =>
        Handler.scan w (Handler.readSettings w) event (storedState s) feed s1
    | (Thrown e, s1) => (Done event, extended s1 [Warned (Handler.feedLoadWarning e)])
    | (Exited n, s1) => (Exited n, s1)
    end.
Proof.
  unfold proceeds. intros H. apply andb_prop in H as [Hf Hr].
  unfold Handler.handler. rewrite Hf. cbn [negb].
  unfold bind at 1. unfold afterWarning.
  destruct (Handler.warnUnsignedOnce _ s) as [o0 s0] eqn:Ew.
  assert (o0 = Done tt) as ->.
  { unfold Handler.warnUnsignedOnce in Ew. destruct (_ && _) in Ew; injection Ew; auto. }
  assert (storedState s0 = storedState s) as Hst.
  { rewrite <- (storedState_afterWarning w s). unfold afterWarning. rewrite Ew. reflexivity. }
  unfold bind at 1, State.loadState at 1. fold (storedState s0). rewrite Hst.
  cbv beta iota.
  match goal with
  | |- (if ?c then _ else _) _ = _ => replace c with false
  end.
  2:{ symmetry. apply orb_true_iff in Hr as [Hr|Hr].
      - rewrite Hr. reflexivity.
      - apply negb_true_iff in Hr. rewrite Hr. apply andb_false_r. }
  unfold bind at 1, tryCatch, bind at 1. simpl snd.
  destruct (Handler.loadFeed w _ s0) as [[feed|e|n] s1]; reflexivity.
Qed.

Lemma request_not_write ev : isRequest ev -> ~ isStateWrite ev.
Proof. intros [url ->] [c [=]]. Qed.

Lemma loadFeed_frame w s :
  let r := Handler.loadFeed w (Handler.feedOptions (Handler.readSettings w)) (afterWarning w s) in
  stateFile r.2 = stateFile s
  /\ (forall n, r.1 <> Exited n)
  /\ exists evs, trace r.2 = (trace s ++ evs)%list /\ Forall (fun ev => ~ isStateWrite ev) evs.
Proof.
  intros r. subst r.
  destruct (reader_loadFeed w (Handler.feedOptions (Handler.readSettings w)) (afterWarning w s))
    as (evs & -> & Hr & He).
  destruct (afterWarning_frame w s) as (Hfile & wevs & Ht & Hw).
  simpl. split; [exact Hfile|]. split; [exact He|].
  exists (wevs ++ evs)%list. rewrite Ht, app_assoc. split; [reflexivity|].
  apply Forall_app. split; [exact Hw|].
  eapply Forall_impl; [exact Hr|]. apply request_not_write.
Qed.



(* ---- the advisory ids across invocations ---- *)

Lemma handler_skips w event s :
  proceeds w event s = false ->
  stateFile (Handler.handler w event s).2 = stateFile s.
Proof.
  unfold proceeds, Handler.handler. destruct (Handler.shouldHandleEvent event); simpl.
  - intros Hr. unfold bind at 1.
    pose proof (storedState_afterWarning w s) as Hst.
    pose proof (proj1 (afterWarning_frame w s)) as Hfile.
    unfold afterWarning in Hst, Hfile.
    destruct (Handler.warnUnsignedOnce _ s) as [o0 s0] eqn:Ew.
    assert (o0 = Done tt) as ->.
    { unfold Handler.warnUnsignedOnce in Ew. destruct (_ && _) in Ew; injection Ew; auto. }
    simpl in Hst, Hfile.
    unfold bind at 1, State.loadState at 1. fold (storedState s0). rewrite Hst.
    cbv beta iota.
    apply orb_false_iff in Hr as [Hr1 Hr2]. apply negb_false_iff in Hr2.
    rewrite Hr1, Hr2. simpl. exact Hfile.
  - reflexivity.
Qed.

Lemma handler_file w event s :
  stateFile (Handler.handler w event s).2 = stateFile s
  \/ exists feed,
       stateFile (Handler.handler w event s).2
       = Some (written (scanState w (Handler.readSettings w) (storedState s) feed)).
Proof.
  destruct (proceeds w event s) eqn:Hp; [|left; apply handler_skips; exact Hp].
  rewrite (handler_proceeds _ _ _ Hp).
  destruct (loadFeed_frame w s) as (Hfile & Hexit & _).
  destruct (Handler.loadFeed w _ (afterWarning w s)) as [[feed|e|n] s1]; simpl in *.
  - rewrite scan_eq. unfold bind.
    pose proof (persistState_cases w (Handler.stateFilePath (Handler.readSettings w))
                  (scanState w (Handler.readSettings w) (storedState s) feed) s1) as Hc.
    destruct (persistFaults w);
      [destruct Hc as (o & pevs & -> & _ & _)
      |destruct Hc as (err & ->)
      |destruct Hc as (o & pevs & -> & _ & _)
      |destruct Hc as (o & pevs & -> & _ & _)];
      try (left; exact Hfile);
      right; exists feed; destruct o; reflexivity.
  - left. exact Hfile.
  - left. exact Hfile.
Qed.

Lemma knownIds_file s s' : stateFile s' = stateFile s -> knownIds s' = knownIds s.
Proof. unfold knownIds, storedState. intros ->. reflexivity. Qed.

Lemma known_scanState w cfg state feed id :
  In id (AdvisoryState.known_advisories state) ->
  In id (AdvisoryState.known_advisories (scanState w cfg state feed)).
Proof.
  intros H. unfold scanState. rewrite (proj2 (collectUnseen_fields _ _ _)).
  unfold refreshed. cbn. apply uniqueStrings_In. apply in_or_app. left. exact H.
Qed.

Lemma handler_known w event s : incl (knownIds s) (knownIds (Handler.handler w event s).2).
Proof.
  intros id Hid. destruct (handler_file w event s) as [E|[feed E]].
  - rewrite (knownIds_file _ _ E). exact Hid.
  - apply (knownIds_written _ _ id E). split; [|apply (knownIds_filled s); exact Hid].
    apply known_scanState. exact Hid.
Qed.

(** Claim C9.  The advisory ids stored before an invocation of the hook
    are all stored after it, from any content of the state file; so along
    any sequence of invocations from the default state the stored ids only
    grow. *)
Theorem known_advisories_only_grow :
  (forall w event s, incl (knownIds s) (knownIds (Handler.handler w event s).2))
  /\ (forall runs, incl (knownIds (initial None)) (knownIds (after runs (initial None)))).
Proof.
  split; [exact handler_known|].
  intros runs. generalize (initial None). induction runs as [|[w event] r IH]; intros s.
  - apply incl_refl.
  - simpl. eapply incl_tran; [apply handler_known|apply IH].
Qed.

(* ---- the de-duplication table across scans ---- *)










Lemma storedState_file s s' : stateFile s' = stateFile s -> storedState s' = storedState s.
Proof. unfold storedState. intros ->. reflexivity. Qed.



(* ===================================================================== *)
(** ** The guarded installer *)
(* ===================================================================== *)

Section GuardGate.

Import GuardedInstall.

Lemma printMatch_run entry s :
  printMatch entry s = (Done tt, extended s (map Stdout (matchDetails entry))).
Proof.
  unfold printMatch, matchDetails, bind, emit, extended.
  destruct (truthyValue _); unfold ret;
    cbn [trace stateFile unsignedModeWarningShown app map];
    rewrite <- ?app_assoc; reflexivity.
Qed.

Lemma printMatches_run matches skillName version s :
  printMatches matches skillName version s
  = (Done tt, extended s (map Stdout (matchReport matches skillName version))).
Proof.
  unfold printMatches, matchReport. unfold bind at 1 2, emit at 1 2.
  cbn [app map].
  assert (Hloop : forall s', forEach printMatch matches s'
                             = (Done tt, extended s' (map Stdout (flat_map matchDetails matches)))).
  { induction matches as [|entry rest IH]; intros s'; cbn [forEach flat_map map].
    - unfold ret. rewrite extended_nil. reflexivity.
    - unfold bind. rewrite printMatch_run, IH, extended_app, map_app. reflexivity. }
  rewrite Hloop. unfold extended. cbn [trace stateFile unsignedModeWarningShown].
  rewrite <- !app_assoc. reflexivity.
Qed.

Lemma parseTokens_Done argv parsed s args s' :
  parseTokens argv parsed s = (Done args, s') -> s' = s.
Proof.
  remember (length argv) as n eqn:Hn.
  assert (Hle : (length argv <= n)%nat) by lia. clear Hn.
  revert argv parsed Hle. induction n as [|n IH]; intros argv parsed Hle.
  - destruct argv; [|simpl in Hle; lia]. intros [= _ <-]. reflexivity.
  - destruct argv as [|token rest]; simpl in *; [intros [= _ <-]; reflexivity|].
    repeat match goal with |- context [if ?b then _ else _] => destruct b end;
      try discriminate;
      try (destruct rest as [|value rest']; [intros [= _ <-]; reflexivity|]);
      apply IH; simpl in *; lia.
Qed.

Lemma parseArgs_Done argv s args s' :
  parseArgs argv s = (Done args, s') -> s' = s.
Proof.
  unfold parseArgs, bind.
  destruct (parseTokens argv _ s) as [[parsed|e|n] s0] eqn:E; try discriminate.
  apply parseTokens_Done in E as ->.
  destruct (JS.isEmpty (skill parsed)); [discriminate|].
  destruct (negb (isSkillName (skill parsed))); [discriminate|].
  intros [= _ <-]. reflexivity.
Qed.

Lemma loadFeed_frame_guard w s :
  exists evs, (loadFeed w s).2 = extended s evs
              /\ Forall (fun ev => ~ isSpawn ev) evs.
Proof.
  unfold loadFeed, bind at 1.
  set (o := readOptions w).
  assert (exists evs0 s0,
             (if Handler.allowUnsigned o
              then emit (Stderr ("WARNING: CLAWSEC_ALLOW_UNSIGNED_FEED=1 is enabled. This temporary migration compatibility bypass should be removed once signed feed artifacts are available." +:+ nl))
              else ret tt) s = (Done tt, s0)
             /\ s0 = extended s evs0 /\ Forall (fun ev => ~ isSpawn ev) evs0)
    as (evs0 & s0 & -> & -> & H0).
  { destruct (Handler.allowUnsigned o).
    - eexists [_], _. split; [reflexivity|]. split; [reflexivity|].
      repeat constructor. intros [c [=]].
    - exists [], s. split; [reflexivity|]. split; [symmetry; apply extended_nil|constructor]. }
  unfold bind.
  destruct (reader_loadFeedFrom w o (extended s evs0)) as (evs & Hs & Hr & He).
  destruct (Handler.loadFeedFrom w o (extended s evs0)) as [[r|e|n] s1]; simpl in *; subst s1;
    exists (evs0 ++ evs)%list; rewrite extended_app; (split; [reflexivity|]);
    apply Forall_app; (split; [exact H0|]);
    (eapply Forall_impl; [exact Hr|]); intros ev [url ->] [c [=]].
Qed.





End GuardGate.

(* ===================================================================== *)
(** ** Versions and affected specifiers *)
(* ===================================================================== *)

Lemma parseInt10_None (part : string) :
  JS.parseInt10 part = None <-> startsNumeric part = false.
Proof.
  unfold JS.parseInt10, startsNumeric.
  destruct (JS.signOf (JS.trimStart part)) as [sign body]. simpl.
  destruct body as [|c r]; [tauto|]. destruct (JS.isDigit c); split; congruence.
Qed.

Lemma parseSemver_None (v : string) :
  Version.parseSemver v = None
  <-> exists part, In part (firstn 3 (JS.split "." (Version.cleaned v)))
                   /\ startsNumeric part = false.
Proof.
  unfold Version.parseSemver.
  destruct (JS.split "." (Version.cleaned v)) as [|p1 [|p2 [|p3 rest]]] eqn:E.
  - split; [|intros (part & [] & _)].
    intros _. exfalso. destruct (Version.cleaned v) as [|c r]; simpl in E; [discriminate|].
    destruct (Ascii.eqb c "."); [discriminate|]. destruct (JS.split "." r); discriminate.
  - cbn. destruct (JS.parseInt10 p1) eqn:E1.
    + split; [discriminate|]. intros (part & [<-|[]] & H). apply parseInt10_None in H. congruence.
    + split; [|reflexivity]. intros _. exists p1. split; [now left|]. apply parseInt10_None, E1.
  - cbn. destruct (JS.parseInt10 p1) eqn:E1; destruct (JS.parseInt10 p2) eqn:E2;
      (split; [try discriminate|try reflexivity]);
      try (intros (part & [<-|[<-|[]]] & H); apply parseInt10_None in H; congruence);
      intros _;
      first [ exists p1; split; [now left|apply parseInt10_None; assumption]
            | exists p2; split; [right; now left|apply parseInt10_None; assumption] ].
  - cbn. destruct (JS.parseInt10 p1) eqn:E1; destruct (JS.parseInt10 p2) eqn:E2;
      destruct (JS.parseInt10 p3) eqn:E3;
      (split; [try discriminate|try reflexivity]);
      try (intros (part & [<-|[<-|[<-|[]]]] & H); apply parseInt10_None in H; congruence);
      intros _;
      first [ exists p1; split; [now left|apply parseInt10_None; assumption]
            | exists p2; split; [right; now left|apply parseInt10_None; assumption]
            | exists p3; split; [right; right; now left|apply parseInt10_None; assumption] ].
Qed.

Lemma compareSemver_None left right :
  Version.parseSemver left = None \/ Version.parseSemver right = None ->
  Version.compareSemver left right = None.
Proof.
  unfold Version.compareSemver. intros [->| ->]; [reflexivity|].
  destruct (Version.parseSemver left) as [[[a b] c]|]; reflexivity.
Qed.

Lemma semverRule_None version rawSpec target :
  usesSemverRule rawSpec target ->
  Version.parseSemver (normalizedInstalled version) = None
  \/ Version.parseSemver target = None ->
  Version.versionMatches version rawSpec = false.
Proof.
  unfold usesSemverRule, ruleOf, Version.versionMatches, normalizedInstalled.
  intros Hrule Hnone.
  remember (JS.sliceFrom 1 (JS.trim rawSpec)) as rest1 eqn:Hrest. clear Hrest.
  destruct (Version.isAnySpec (JS.trim rawSpec)).
  { destruct Hrule as [[op [=]]|[[=]|[=]]]. }
  destruct (Version.isUnknownVersion version); [reflexivity|].
  destruct (JS.includes "*" (JS.trim rawSpec)).
  { destruct Hrule as [[op [=]]|[[=]|[=]]]. }
  destruct (Version.comparatorMatch (JS.trim rawSpec)) as [[operator rest]|].
  { destruct Hrule as [[op [= _ <-]]|[[=]|[=]]].
    rewrite compareSemver_None by exact Hnone. reflexivity. }
  destruct (JS.startsWith "^" (JS.trim rawSpec)).
  { destruct Hrule as [[op [=]]|[[= <-]|[=]]].
    destruct Hnone as [-> | ->]; [|reflexivity].
    destruct (Version.parseSemver _) as [[[t0 t1] t2]|]; reflexivity. }
  destruct (JS.startsWith "~" (JS.trim rawSpec)).
  { destruct Hrule as [[op [=]]|[[=]|[= <-]]].
    destruct Hnone as [-> | ->]; [|reflexivity].
    destruct (Version.parseSemver _) as [[[t0 t1] t2]|]; reflexivity. }
  destruct Hrule as [[op [=]]|[[=]|[=]]].
Qed.

(** Claim C8, as amended.  When one of the first three dot-separated
    components of a version (trimmed, one leading [v] dropped, cut before
    the first [-]) does not start with a decimal digit after optional white
    space and sign, [parseSemver] returns [null]; and [versionMatches]
    returns [false] whenever the specification selects the comparator,
    caret or tilde rule and that version is the target or the installed
    version as normalized by [versionMatches]. *)
Theorem unparseable_version_never_matches (v : string) :
  (exists part, In part (firstn 3 (JS.split "." (Version.cleaned v)))
                /\ startsNumeric part = false) ->
  Version.parseSemver v = None
  /\ forall version rawSpec target,
       usesSemverRule rawSpec target ->
       normalizedInstalled version = v \/ target = v ->
       Version.versionMatches version rawSpec = false.
Proof.
  intros H. apply parseSemver_None in H. split; [exact H|].
  intros version rawSpec target Hrule [<-|<-]; eapply semverRule_None; eauto.
Qed.

(** Claim C8 as stated fails twice: the component [2x] is read as 2, so
    [1.2x.3] parses; and [vv1.2.3], which [parseSemver] rejects, satisfies
    [>=1.0.0], because [versionMatches] and [parseSemver] each drop one
    leading [v]. *)
Lemma lenient_component_parsing :
  Version.parseSemver "1.2x.3" = Some (1, 2, 3)
  /\ Version.parseSemver "vv1.2.3" = None
  /\ Version.versionMatches (Some "vv1.2.3") ">=1.0.0" = true.
Proof. repeat split. Qed.

(** The theorem at [1.x.3]. *)
Lemma unparseable_version_never_matches_witness :
  Version.parseSemver "1.x.3" = None
  /\ Version.versionMatches (Some "1.x.3") ">=1.0.0" = false.
Proof.
  assert (H := unparseable_version_never_matches "1.x.3"
                 (ex_intro _ "x" (conj (or_intror (or_introl eq_refl)) eq_refl))).
  split; [exact (proj1 H)|].
  apply (proj2 H (Some "1.x.3") ">=1.0.0" "1.0.0").
  - left. exists ">=". reflexivity.
  - left. reflexivity.
Defined.

(** Claim C3.  [versionMatches] has the values of the specification's
    table, and every version, [null] included, matches [*]. *)
Theorem versionMatches_spec_table :
  Version.versionMatches (Some "1.2.3") "^1.0.0" = true
  /\ Version.versionMatches (Some "2.0.0") "^1.0.0" = false
  /\ Version.versionMatches (Some "1.2.3") "~1.2.0" = true
  /\ Version.versionMatches (Some "1.3.0") "~1.2.0" = false
  /\ Version.versionMatches (Some "unknown") "1.2.3" = false
  /\ forall v : option string, Version.versionMatches v "*" = true.
Proof. repeat split. Qed.

Lemma lastIndexOf_noAt (s : string) :
  noAtAfterFirst s = true -> (JS.lastIndexOf "@" s <=? 0) = true.
Proof.
  destruct s as [|c r]; [reflexivity|]. simpl. intros H. apply negb_true_iff in H.
  rewrite (lastIndexOf_absent _ _ H). simpl. destruct (Ascii.eqb c "@"); reflexivity.
Qed.

(** Claim C10, as amended.  For a specifier whose trimmed text is not
    empty and has no [@] after its first character,
    [parseAffectedSpecifier] returns the trimmed text as the name and [*]
    as the version specification; the specifier then matches every
    installed skill of the same normalized name, whatever its version. *)
Theorem bare_specifier_matches_every_version (raw : string) :
  JS.trim raw <> EmptyString ->
  noAtAfterFirst (JS.trim raw) = true ->
  Feed.parseAffectedSpecifier raw = Some (Feed.mkSpecifier (JS.trim raw) "*")
  /\ forall skill : InstalledSkill.t,
       normalizeSkillName (InstalledSkill.name skill) = normalizeSkillName raw ->
       Matching.affectedSpecifierMatchesSkill raw skill = true.
Proof.
  intros Hne Hat.
  assert (Hparse : Feed.parseAffectedSpecifier raw = Some (Feed.mkSpecifier (JS.trim raw) "*")).
  { unfold Feed.parseAffectedSpecifier. rewrite (isEmpty_false _ Hne).
    rewrite (lastIndexOf_noAt _ Hat). reflexivity. }
  split; [exact Hparse|]. intros skill Hname.
  unfold Matching.affectedSpecifierMatchesSkill. rewrite Hparse. cbn [Feed.name Feed.versionSpec].
  unfold normalizeSkillName in *. rewrite trim_idempotent, Hname, String.eqb_refl.
  reflexivity.
Qed.

(** Claim C10 as stated fails on a specifier with white space around the
    name: the name returned is the trimmed text, not the whole string. *)
Lemma specifier_name_is_trimmed :
  noAtAfterFirst " helper-plus" = true
  /\ Feed.parseAffectedSpecifier " helper-plus" = Some (Feed.mkSpecifier "helper-plus" "*")
  /\ Feed.parseAffectedSpecifier " helper-plus" <> Some (Feed.mkSpecifier " helper-plus" "*").
Proof. repeat split. discriminate. Qed.

(** The theorem at a bare name and an installed skill of unknown
    version. *)
Lemma bare_specifier_matches_every_version_witness :
  Matching.affectedSpecifierMatchesSkill "helper-plus"
    (InstalledSkill.mk "Helper-Plus" "helper-plus" (Some "unknown")) = true.
Proof.
  refine (proj2 (bare_specifier_matches_every_version "helper-plus" _ _)
            (InstalledSkill.mk "Helper-Plus" "helper-plus" (Some "unknown")) _).
  - vm_compute. discriminate.
  - reflexivity.
  - reflexivity.
Defined.

(* ===================================================================== *)
(** ** Decimal texts and parsed versions *)
(* ===================================================================== *)

Lemma digitsValue_acc (d : Decimal.uint) (p : positive) :
  JS.digitsValue (Z.pos p) (NilEmpty.string_of_uint d) = Z.pos (Pos.of_uint_acc d p).
Proof.
  revert p. induction d; intros p; simpl; [reflexivity|..];
    rewrite <- IHd; f_equal; unfold JS.digitValue;
    try match goal with
        | |- context [Z.of_nat ?n] =>
            let v := eval vm_compute in (Z.of_nat n) in change (Z.of_nat n) with v
        end; lia.
Qed.

Lemma digitsValue_uint (d : Decimal.uint) :
  JS.digitsValue 0 (NilEmpty.string_of_uint d) = Z.of_N (Pos.of_uint d).
Proof.
  induction d; simpl; [reflexivity|exact IHd|..];
    match goal with |- JS.digitsValue ?a _ = _ => change a with (Z.pos (Z.to_pos a)) end;
    rewrite digitsValue_acc; reflexivity.
Qed.

Lemma uint_digits (d : Decimal.uint) :
  allChars JS.isDigit (NilEmpty.string_of_uint d) = true.
Proof. unfold allChars. induction d; simpl; auto. Qed.

Lemma decimal_uint (n : N) :
  decimal n = NilEmpty.string_of_uint (N.to_uint n) /\ N.to_uint n <> Decimal.Nil.
Proof.
  unfold decimal. destruct n as [|p]; [split; [reflexivity|discriminate]|].
  pose proof (DecimalPos.Unsigned.to_uint_nonnil p) as Hn. simpl.
  destruct (Pos.to_uint p); [contradiction|..]; split; solve [reflexivity|discriminate].
Qed.

Lemma decimal_digits (n : N) : allChars JS.isDigit (decimal n) = true.
Proof. rewrite (proj1 (decimal_uint n)). apply uint_digits. Qed.

Lemma decimal_head (n : N) :
  exists c r, decimal n = String c r /\ JS.isDigit c = true.
Proof.
  destruct (decimal_uint n) as [E Hn]. pose proof (decimal_digits n) as Hd.
  rewrite E in *. destruct (N.to_uint n); [contradiction|..]; simpl;
    eexists _, _; split; reflexivity.
Qed.

Lemma digit_not_space c : JS.isDigit c = true -> JS.isWhiteSpace c = false.
Proof. destruct c as [[] [] [] [] [] [] [] []]; vm_compute; congruence. Qed.

Lemma toDouble_exact (n : Z) : Z.abs n < 2 ^ 53 -> JS.toDouble n = n.
Proof.
  intros H. unfold JS.toDouble. destruct (Z.ltb_spec (Z.abs n) (2 ^ 53)); [reflexivity|lia].
Qed.

Lemma parseInt10_decimal (n : N) :
  JS.parseInt10 (decimal n) = Some (JS.toDouble (Z.of_N n)).
Proof.
  destruct (decimal_head n) as (c & r & E & Hc).
  unfold JS.parseInt10.
  assert (JS.trimStart (decimal n) = decimal n) as ->.
  { rewrite E. simpl. rewrite (digit_not_space c Hc). reflexivity. }
  assert (JS.signOf (decimal n) = (1, decimal n)) as ->.
  { rewrite E. unfold JS.signOf.
    destruct (Ascii.eqb_spec c "-") as [->|_]; [discriminate|].
    destruct (Ascii.eqb_spec c "+") as [->|_]; [discriminate|reflexivity]. }
  rewrite E, Hc, <- E. rewrite (proj1 (decimal_uint n)), digitsValue_uint.
  change (Pos.of_uint (N.to_uint n)) with (N.of_uint (N.to_uint n)).
  rewrite DecimalN.Unsigned.of_to. f_equal. f_equal. lia.
Qed.

Lemma parseInt10_exact (n : N) :
  (n < 2 ^ 53)%N -> JS.parseInt10 (decimal n) = Some (Z.of_N n).
Proof.
  intros H. rewrite parseInt10_decimal, toDouble_exact; [reflexivity|].
  change (2 ^ 53)%N with (Z.to_N (2 ^ 53)) in H. lia.
Qed.

Lemma allChars_app P x y : allChars P (x +:+ y) = allChars P x && allChars P y.
Proof.
  unfold allChars. induction x as [|c x IH]; appends; simpl; [reflexivity|].
  rewrite IH. apply andb_assoc.
Qed.

Lemma allChars_impl (P Q : ascii -> bool) s :
  (forall c, P c = true -> Q c = true) -> allChars P s = true -> allChars Q s = true.
Proof.
  unfold allChars. intros H. induction s as [|c s IH]; simpl; [reflexivity|].
  intros Hs. apply andb_prop in Hs as [Hc Hs]. rewrite (H c Hc), (IH Hs). reflexivity.
Qed.

Lemma includes_allChars P c s :
  allChars P s = true -> P c = false -> JS.includes c s = false.
Proof.
  unfold allChars. intros Hs Hc. induction s as [|d s IH]; simpl in *; [reflexivity|].
  apply andb_prop in Hs as [Hd Hs]. rewrite (IH Hs), orb_false_r.
  apply Ascii.eqb_neq. intros ->. congruence.
Qed.

Lemma split_cons sep s : exists h t, JS.split sep s = h :: t.
Proof.
  induction s as [|c s (h & t & IH)]; simpl; [eauto|].
  destruct (Ascii.eqb c sep); [eauto|]. rewrite IH. eauto.
Qed.

Lemma split_without sep s : JS.includes sep s = false -> JS.split sep s = [s].
Proof.
  induction s as [|c s IH]; simpl; [reflexivity|]. intros H.
  apply orb_false_iff in H as [Hc Hs]. rewrite Hc, (IH Hs). reflexivity.
Qed.

Lemma split_app sep x y :
  JS.includes sep x = false -> JS.split sep (x +:+ String sep y) = x :: JS.split sep y.
Proof.
  induction x as [|c x IH]; appends; simpl; intros H.
  - rewrite Ascii.eqb_refl. reflexivity.
  - apply orb_false_iff in H as [Hc Hx]. rewrite Hc, (IH Hx). reflexivity.
Qed.

Lemma split_sep sep y : JS.split sep (String sep y) = EmptyString :: JS.split sep y.
Proof. simpl. rewrite Ascii.eqb_refl. reflexivity. Qed.

Lemma hd_split_app sep x y :
  JS.includes sep x = false ->
  hd EmptyString (JS.split sep (x +:+ y)) = x +:+ hd EmptyString (JS.split sep y).
Proof.
  induction x as [|c x IH]; appends; simpl; intros H; [reflexivity|].
  apply orb_false_iff in H as [Hc Hx]. rewrite Hc. specialize (IH Hx).
  destruct (split_cons sep (x +:+ y)) as (h & t & E). rewrite E in *. simpl in *.
  rewrite IH. reflexivity.
Qed.

Lemma hd_split_cons sep c y :
  Ascii.eqb c sep = false ->
  hd EmptyString (JS.split sep (String c y)) = String c (hd EmptyString (JS.split sep y)).
Proof. intros H. apply (hd_split_app sep (String c EmptyString) y). simpl. rewrite H. reflexivity. Qed.

Lemma trimEnd_app x c y :
  JS.isWhiteSpace c = false ->
  JS.trimEnd (x +:+ String c y) = x +:+ String c (JS.trimEnd y).
Proof.
  intros Hc. induction x as [|d x IH]; appends; simpl.
  - rewrite Hc. reflexivity.
  - rewrite IH. destruct x; appends; simpl; rewrite andb_false_r; reflexivity.
Qed.

Lemma trimEnd_cons c y :
  JS.isWhiteSpace c = false -> JS.trimEnd (String c y) = String c (JS.trimEnd y).
Proof. intros Hc. simpl. rewrite Hc. reflexivity. Qed.

Lemma trimEnd_solid s :
  allChars (fun c => negb (JS.isWhiteSpace c)) s = true -> JS.trimEnd s = s.
Proof.
  unfold allChars. induction s as [|c s IH]; simpl; [reflexivity|]. intros H.
  apply andb_prop in H as [Hc Hs]. rewrite (IH Hs).
  apply negb_true_iff in Hc. rewrite Hc. reflexivity.
Qed.

Lemma trim_solid s :
  allChars (fun c => negb (JS.isWhiteSpace c)) s = true -> JS.trim s = s.
Proof.
  intros H. unfold JS.trim.
  assert (JS.trimStart s = s) as ->.
  { destruct s as [|c s]; [reflexivity|]. unfold allChars in H. simpl in *.
    apply andb_prop in H as [Hc _]. apply negb_true_iff in Hc. rewrite Hc. reflexivity. }
  apply trimEnd_solid, H.
Qed.

Lemma digitOrDot_solid c : isDigitOrDot c = true -> negb (JS.isWhiteSpace c) = true.
Proof. destruct c as [[] [] [] [] [] [] [] []]; vm_compute; congruence. Qed.

Lemma digit_digitOrDot c : JS.isDigit c = true -> isDigitOrDot c = true.
Proof. unfold isDigitOrDot. intros ->. reflexivity. Qed.

Lemma decimal_digitOrDot n : allChars isDigitOrDot (decimal n) = true.
Proof. eapply allChars_impl; [apply digit_digitOrDot|apply decimal_digits]. Qed.

Lemma showVersion_digitOrDot v : allChars isDigitOrDot (showVersion v) = true.
Proof.
  unfold showVersion. rewrite !allChars_app, !decimal_digitOrDot. reflexivity.
Qed.

Lemma decimal_without c n : JS.isDigit c = false -> JS.includes c (decimal n) = false.
Proof. intros H. eapply includes_allChars; [apply decimal_digits|exact H]. Qed.

Lemma showVersion_without c v : isDigitOrDot c = false -> JS.includes c (showVersion v) = false.
Proof. intros H. eapply includes_allChars; [apply showVersion_digitOrDot|exact H]. Qed.

Lemma showVersion_head v : exists c r, showVersion v = String c r /\ JS.isDigit c = true.
Proof.
  unfold showVersion. destruct (decimal_head v.1.1) as (c & r & -> & Hc).
  appends. eauto.
Qed.

Lemma split_showVersion v :
  JS.split "." (showVersion v) = [decimal v.1.1; decimal v.1.2; decimal v.2].
Proof.
  unfold showVersion. appends.
  rewrite !split_app by (apply decimal_without; reflexivity).
  rewrite split_without by (apply decimal_without; reflexivity). reflexivity.
Qed.

Lemma split_showVersion_more v rest :
  JS.split "." (showVersion v +:+ "." +:+ rest)
  = decimal v.1.1 :: decimal v.1.2 :: decimal v.2 :: JS.split "." rest.
Proof.
  unfold showVersion. rewrite !append_assoc. appends.
  rewrite !split_app by (apply decimal_without; reflexivity). reflexivity.
Qed.

(** [parseSemver] on a text whose cleaned form has the three components
    in front. *)
Lemma parseSemver_parts version v more :
  JS.split "." (Version.cleaned version)
  = decimal v.1.1 :: decimal v.1.2 :: decimal v.2 :: more ->
  exactNumbers v ->
  Version.parseSemver version = Some (asIntegers v).
Proof.
  unfold Version.parseSemver. intros -> (H0 & H1 & H2). simpl.
  rewrite !parseInt10_exact by assumption. reflexivity.
Qed.

Lemma stripLeadingV_digit s c r :
  s = String c r -> JS.isDigit c = true -> JS.stripLeadingV s = s.
Proof.
  intros -> Hc. simpl.
  destruct (Ascii.eqb_spec c "v") as [->|_]; [discriminate|].
  destruct (Ascii.eqb_spec c "V") as [->|_]; [discriminate|reflexivity].
Qed.

Lemma trimStart_digit s c r :
  s = String c r -> JS.isDigit c = true -> JS.trimStart s = s.
Proof. intros -> Hc. simpl. rewrite (digit_not_space c Hc). reflexivity. Qed.

Lemma trim_showVersion v : JS.trim (showVersion v) = showVersion v.
Proof.
  apply trim_solid. eapply allChars_impl; [apply digitOrDot_solid|apply showVersion_digitOrDot].
Qed.

Lemma cleaned_showVersion v : Version.cleaned (showVersion v) = showVersion v.
Proof.
  unfold Version.cleaned. rewrite trim_showVersion.
  destruct (showVersion_head v) as (c & r & E & Hc).
  rewrite (stripLeadingV_digit _ c r E Hc).
  rewrite split_without by (apply showVersion_without; reflexivity). reflexivity.
Qed.

Lemma parseSemver_showVersion v :
  exactNumbers v -> Version.parseSemver (showVersion v) = Some (asIntegers v).
Proof.
  apply (parseSemver_parts _ v []). rewrite cleaned_showVersion. apply split_showVersion.
Qed.

Lemma trimEnd_front x tail c r :
  x = String c r ->
  allChars (fun c => negb (JS.isWhiteSpace c)) x = true ->
  JS.trimEnd (x +:+ tail) = x +:+ JS.trimEnd tail.
Proof.
  intros _ H. clear c r. induction x as [|d x IH]; appends; [reflexivity|].
  unfold allChars in *. simpl in *. apply andb_prop in H as [Hd Hx].
  apply negb_true_iff in Hd. rewrite Hd, (IH Hx). reflexivity.
Qed.

(** The cleaned form of a text that starts with a version. *)
Lemma cleaned_showVersion_then v tail :
  Version.cleaned (showVersion v +:+ tail)
  = showVersion v +:+ hd EmptyString (JS.split "-" (JS.trimEnd tail)).
Proof.
  unfold Version.cleaned, JS.trim.
  destruct (showVersion_head v) as (c & r & E & Hc).
  assert (Hsolid : allChars (fun c => negb (JS.isWhiteSpace c)) (showVersion v) = true).
  { eapply allChars_impl; [apply digitOrDot_solid|apply showVersion_digitOrDot]. }
  rewrite (trimStart_digit (showVersion v +:+ tail) c (r +:+ tail))
    by (rewrite ?E; auto).
  rewrite (trimEnd_front _ _ c r E Hsolid).
  rewrite (stripLeadingV_digit (showVersion v +:+ JS.trimEnd tail) c (r +:+ JS.trimEnd tail))
    by (rewrite ?E; auto).
  apply hd_split_app, showVersion_without. reflexivity.
Qed.

Lemma cleaned_decimal n : Version.cleaned (decimal n) = decimal n.
Proof.
  unfold Version.cleaned. destruct (decimal_head n) as (c & r & E & Hc).
  rewrite trim_solid
    by (eapply allChars_impl; [|apply decimal_digits];
        intros d Hd; rewrite (digit_not_space d Hd); reflexivity).
  rewrite (stripLeadingV_digit _ c r E Hc).
  rewrite split_without by (apply decimal_without; reflexivity). reflexivity.
Qed.

Lemma cleaned_two a b :
  Version.cleaned (decimal a +:+ "." +:+ decimal b) = decimal a +:+ "." +:+ decimal b.
Proof.
  unfold Version.cleaned. destruct (decimal_head a) as (c & r & E & Hc).
  assert (Hd : allChars isDigitOrDot (decimal a +:+ "." +:+ decimal b) = true).
  { rewrite !allChars_app, !decimal_digitOrDot. reflexivity. }
  rewrite trim_solid by (eapply allChars_impl; [apply digitOrDot_solid|exact Hd]).
  rewrite (stripLeadingV_digit _ c (r +:+ "." +:+ decimal b)) by (rewrite ?E; auto).
  rewrite split_without by (eapply includes_allChars; [exact Hd|reflexivity]).
  reflexivity.
Qed.

(** [parseSemver] reads back a printed version, with or without the
    leading [v], whatever follows a [-] or a fourth component, and fills
    missing components with 0. *)
Theorem parseSemver_reads_printed_versions (v : triple) :
  exactNumbers v ->
  Version.parseSemver (showVersion v) = Some (asIntegers v)
  /\ Version.parseSemver ("v" +:+ showVersion v) = Some (asIntegers v)
  /\ Version.parseSemver ("V" +:+ showVersion v) = Some (asIntegers v)
  /\ (forall prerelease,
        Version.parseSemver (showVersion v +:+ "-" +:+ prerelease) = Some (asIntegers v))
  /\ (forall rest,
        Version.parseSemver (showVersion v +:+ "." +:+ rest) = Some (asIntegers v))
  /\ Version.parseSemver (decimal v.1.1 +:+ "." +:+ decimal v.1.2)
     = Some (Z.of_N v.1.1, Z.of_N v.1.2, 0)
  /\ Version.parseSemver (decimal v.1.1) = Some (Z.of_N v.1.1, 0, 0).
Proof.
  intros Hexact.
  assert (Hv : forall p, Ascii.eqb p "v" || Ascii.eqb p "V" = true ->
             Version.parseSemver (String p (showVersion v)) = Some (asIntegers v)).
  { intros p Hp. apply (parseSemver_parts _ v []); [|exact Hexact].
    unfold Version.cleaned.
    assert (JS.trim (String p (showVersion v)) = String p (showVersion v)) as ->.
    { apply trim_solid. unfold allChars. simpl.
      fold (allChars (fun c => negb (JS.isWhiteSpace c)) (showVersion v)).
      rewrite (allChars_impl _ _ _ digitOrDot_solid (showVersion_digitOrDot v)).
      apply orb_prop in Hp as [Hp|Hp]; apply Ascii.eqb_eq in Hp; subst p; reflexivity. }
    simpl. rewrite Hp.
    rewrite (split_without "-" (showVersion v)) by (apply showVersion_without; reflexivity).
    apply split_showVersion. }
  split; [apply parseSemver_showVersion, Hexact|].
  split; [apply Hv; reflexivity|]. split; [apply Hv; reflexivity|].
  split; [|split; [|split]].
  - intros prerelease. apply (parseSemver_parts _ v []); [|exact Hexact].
    rewrite cleaned_showVersion_then. appends.
    rewrite trimEnd_cons by reflexivity.
    rewrite split_sep. cbn [hd]. rewrite append_empty. apply split_showVersion.
  - intros rest. eapply parseSemver_parts; [|exact Hexact].
    rewrite cleaned_showVersion_then. appends.
    rewrite trimEnd_cons by reflexivity.
    rewrite hd_split_cons by reflexivity.
    apply (split_showVersion_more v).
  - destruct Hexact as (H0 & H1 & _).
    unfold Version.parseSemver. rewrite cleaned_two. appends.
    rewrite split_app by (apply decimal_without; reflexivity).
    rewrite split_without by (apply decimal_without; reflexivity).
    simpl. rewrite !parseInt10_exact by assumption. reflexivity.
  - destruct Hexact as (H0 & _).
    unfold Version.parseSemver. rewrite cleaned_decimal.
    rewrite split_without by (apply decimal_without; reflexivity).
    simpl. rewrite !parseInt10_exact by assumption. reflexivity.
Qed.

(** The theorem at version 1.2.3 with a pre-release tag. *)
Lemma parseSemver_reads_printed_versions_witness :
  Version.parseSemver "1.2.3-beta.1" = Some (1, 2, 3).
Proof.
  exact (proj1 (proj2 (proj2 (proj2 (parseSemver_reads_printed_versions (1, 2, 3)%N
                                        ltac:(repeat split; reflexivity)))))
           "beta.1").
Defined.

(* ===================================================================== *)
(** ** The order of versions and the rules of [versionMatches] *)
(* ===================================================================== *)

Lemma compareSemver_parsed l r a b :
  Version.parseSemver l = Some a -> Version.parseSemver r = Some b ->
  Version.compareSemver l r
  = Some (if b.1.1 <? a.1.1 then 1 else if a.1.1 <? b.1.1 then -1
          else if b.1.2 <? a.1.2 then 1 else if a.1.2 <? b.1.2 then -1
          else if b.2 <? a.2 then 1 else if a.2 <? b.2 then -1
          else 0).
Proof.
  unfold Version.compareSemver. intros -> ->.
  destruct a as [[a0 a1] a2], b as [[b0 b1] b2]. reflexivity.
Qed.

Lemma compareSemver_defined l r c :
  Version.compareSemver l r = Some c ->
  exists a b, Version.parseSemver l = Some a /\ Version.parseSemver r = Some b.
Proof.
  unfold Version.compareSemver.
  destruct (Version.parseSemver l) as [[[a0 a1] a2]|]; [|discriminate].
  destruct (Version.parseSemver r) as [[[b0 b1] b2]|]; [|discriminate].
  eauto.
Qed.

Ltac order_cases :=
  repeat match goal with
         | |- context [?x <? ?y] => destruct (Z.ltb_spec x y)
         | H : context [?x <? ?y] |- _ => destruct (Z.ltb_spec x y)
         end.

(** [compareSemver] is defined exactly on the versions that parse, takes
    the values -1, 0 and 1, is antisymmetric and transitive, and is 0
    exactly on versions with the same three components. *)
Theorem compareSemver_orders_parsed_versions :
  (forall l r, (exists c, Version.compareSemver l r = Some c)
               <-> (exists a b, Version.parseSemver l = Some a
                                /\ Version.parseSemver r = Some b))
  /\ (forall l r c, Version.compareSemver l r = Some c -> c = -1 \/ c = 0 \/ c = 1)
  /\ (forall l r c, Version.compareSemver l r = Some c ->
                    Version.compareSemver r l = Some (- c))
  /\ (forall l r, Version.compareSemver l r = Some 0
                  <-> exists a, Version.parseSemver l = Some a
                                /\ Version.parseSemver r = Some a)
  /\ (forall x y z c d,
        Version.compareSemver x y = Some c -> Version.compareSemver y z = Some d ->
        0 <= c -> 0 <= d ->
        exists e, Version.compareSemver x z = Some e /\ 0 <= e
                  /\ (e = 0 -> c = 0 /\ d = 0)).
Proof.
  split; [|split; [|split; [|split]]].
  - intros l r. split.
    + intros [c H]. eapply compareSemver_defined, H.
    + intros (a & b & Ha & Hb). rewrite (compareSemver_parsed _ _ _ _ Ha Hb). eauto.
  - intros l r c H. destruct (compareSemver_defined _ _ _ H) as (a & b & Ha & Hb).
    rewrite (compareSemver_parsed _ _ _ _ Ha Hb) in H. injection H as <-.
    order_cases; auto.
  - intros l r c H. destruct (compareSemver_defined _ _ _ H) as (a & b & Ha & Hb).
    rewrite (compareSemver_parsed _ _ _ _ Ha Hb) in H. injection H as <-.
    rewrite (compareSemver_parsed _ _ _ _ Hb Ha). f_equal.
    order_cases; lia.
  - intros l r. split.
    + intros H. destruct (compareSemver_defined _ _ _ H) as (a & b & Ha & Hb).
      rewrite (compareSemver_parsed _ _ _ _ Ha Hb) in H. injection H as H.
      exists a. split; [exact Ha|]. rewrite Hb. f_equal.
      destruct a as [[a0 a1] a2], b as [[b0 b1] b2]. simpl in *.
      order_cases; try discriminate. repeat f_equal; lia.
    + intros (a & Ha & Hb). rewrite (compareSemver_parsed _ _ _ _ Ha Hb). f_equal.
      order_cases; lia.
  - intros x y z c d Hc Hd Hc0 Hd0.
    destruct (compareSemver_defined _ _ _ Hc) as (a & b & Ha & Hb).
    destruct (compareSemver_defined _ _ _ Hd) as (b' & k & Hb' & Hk).
    rewrite Hb in Hb'. injection Hb' as <-.
    rewrite (compareSemver_parsed _ _ _ _ Ha Hb) in Hc. injection Hc as <-.
    rewrite (compareSemver_parsed _ _ _ _ Hb Hk) in Hd. injection Hd as <-.
    rewrite (compareSemver_parsed _ _ _ _ Ha Hk). eexists. split; [reflexivity|].
    destruct a as [[a0 a1] a2], b as [[b0 b1] b2], k as [[k0 k1] k2]. simpl in *.
    order_cases; try lia; (split; [lia|]); intros; try lia; split; reflexivity.
Qed.

Lemma compareSemver_showVersion v t :
  exactNumbers v -> exactNumbers t ->
  Version.compareSemver (showVersion v) (showVersion t)
  = Some (signOfComparison (versionCompare v t)).
Proof.
  intros Hv Ht.
  rewrite (compareSemver_parsed _ _ _ _ (parseSemver_showVersion v Hv)
             (parseSemver_showVersion t Ht)).
  f_equal. unfold versionCompare, asIntegers.
  destruct v as [[v0 v1] v2], t as [[t0 t1] t2]. simpl.
  destruct (N.compare_spec v0 t0); destruct (N.compare_spec v1 t1);
    destruct (N.compare_spec v2 t2); simpl; order_cases; lia.
Qed.

Lemma versionEqb_eq v t : versionEqb v t = true <-> v = t.
Proof.
  unfold versionEqb, versionCompare. destruct v as [[v0 v1] v2], t as [[t0 t1] t2]. simpl.
  destruct (N.compare_spec v0 t0); destruct (N.compare_spec v1 t1);
    destruct (N.compare_spec v2 t2); split; intros Hvt; try discriminate;
    try (injection Hvt as -> -> ->); subst; try reflexivity; lia.
Qed.

Lemma decimal_inj a b : decimal a = decimal b -> a = b.
Proof.
  intros H. unfold decimal in H. apply (f_equal NilZero.uint_of_string) in H.
  rewrite !NilZero.usu in H by apply decimal_uint. injection H as H.
  apply (f_equal N.of_uint) in H. rewrite !DecimalN.Unsigned.of_to in H. exact H.
Qed.

Lemma showVersion_inj v t : showVersion v = showVersion t -> v = t.
Proof.
  intros H. pose proof (split_showVersion v) as Hv. rewrite H, split_showVersion in Hv.
  injection Hv as H0 H1 H2. apply decimal_inj in H0, H1, H2.
  destruct v as [[v0 v1] v2], t as [[t0 t1] t2]. simpl in *. congruence.
Qed.

Lemma eqb_showVersion v t : String.eqb (showVersion v) (showVersion t) = versionEqb v t.
Proof.
  destruct (String.eqb_spec (showVersion v) (showVersion t)) as [E|N].
  - symmetry. apply versionEqb_eq, showVersion_inj, E.
  - destruct (versionEqb v t) eqn:E; [|reflexivity].
    apply versionEqb_eq in E. subst. contradiction.
Qed.

(** The head of a specification decides the first tests of
    [versionMatches]. *)
Lemma isAnySpec_head c r :
  c <> "*"%char -> JS.lowerChar c <> "a"%char -> Version.isAnySpec (String c r) = false.
Proof.
  intros H1 H2. unfold Version.isAnySpec. simpl.
  apply Ascii.eqb_neq in H1, H2. rewrite H1, H2. reflexivity.
Qed.

Lemma isUnknownVersion_showVersion v : Version.isUnknownVersion (Some (showVersion v)) = false.
Proof.
  unfold Version.isUnknownVersion. rewrite trim_showVersion.
  destruct (showVersion_head v) as (c & r & -> & Hc). simpl.
  destruct c as [[] [] [] [] [] [] [] []]; try discriminate Hc; reflexivity.
Qed.

Lemma normalized_showVersion v :
  JS.stripLeadingV (JS.trim (showVersion v)) = showVersion v.
Proof.
  rewrite trim_showVersion. destruct (showVersion_head v) as (c & r & E & Hc).
  apply (stripLeadingV_digit _ c r E Hc).
Qed.

Lemma dotPlusToEnd_showVersion v : Version.dotPlusToEnd (showVersion v) = Some (showVersion v).
Proof.
  unfold Version.dotPlusToEnd. destruct (showVersion_head v) as (c & r & E & Hc).
  rewrite E at 1. simpl.
  assert (existsb JS.isLineTerminator (list_ascii_of_string (showVersion v)) = false) as ->;
    [|reflexivity].
  pose proof (showVersion_digitOrDot v) as H. unfold allChars in H.
  induction (list_ascii_of_string (showVersion v)) as [|d l IH]; simpl in *; [reflexivity|].
  apply andb_prop in H as [Hd Hl]. rewrite (IH Hl), orb_false_r.
  destruct d as [[] [] [] [] [] [] [] []]; try discriminate Hd; reflexivity.
Qed.

Lemma spacesThenRest_gap gap v :
  isBlank gap = true ->
  Version.spacesThenRest (gap +:+ showVersion v) = Some (showVersion v).
Proof.
  unfold isBlank, allChars. induction gap as [|c gap IH]; appends; simpl; intros H.
  - destruct (showVersion_head v) as (c & r & E & Hc).
    rewrite E at 1. simpl. rewrite (digit_not_space c Hc). rewrite <- E.
    apply dotPlusToEnd_showVersion.
  - apply andb_prop in H as [Hc Hg]. rewrite Hc, (IH Hg). reflexivity.
Qed.

Lemma gap_head gap v :
  isBlank gap = true ->
  exists c r, gap +:+ showVersion v = String c r
              /\ (JS.isWhiteSpace c = true \/ JS.isDigit c = true).
Proof.
  intros H. destruct gap as [|c gap]; appends.
  - destruct (showVersion_head v) as (c & r & E & Hc). eauto.
  - unfold isBlank, allChars in H. simpl in H. apply andb_prop in H as [Hc _]. eauto.
Qed.

Lemma trim_gap op gap v c r :
  op = String c r ->
  allChars (fun c => negb (JS.isWhiteSpace c)) op = true ->
  JS.trim (op +:+ gap +:+ showVersion v) = op +:+ gap +:+ showVersion v.
Proof.
  intros E Hop. unfold JS.trim.
  assert (JS.trimStart (op +:+ gap +:+ showVersion v) = op +:+ gap +:+ showVersion v) as ->.
  { subst op. unfold allChars in Hop. simpl in *. apply andb_prop in Hop as [Hc _].
    apply negb_true_iff in Hc. rewrite Hc. reflexivity. }
  rewrite <- !append_assoc.
  destruct (showVersion_head v) as (d & t & Ev & Hd).
  rewrite Ev. rewrite trimEnd_app by (apply digit_not_space, Hd).
  rewrite trimEnd_solid; [reflexivity|].
  pose proof (showVersion_digitOrDot v) as H. rewrite Ev in H.
  unfold allChars in *. simpl in H. apply andb_prop in H as [_ H].
  revert H. apply (allChars_impl _ _ t), digitOrDot_solid.
Qed.

Lemma blank_without c gap :
  isBlank gap = true -> JS.isWhiteSpace c = false -> JS.includes c gap = false.
Proof. intros H Hc. eapply includes_allChars; [exact H|exact Hc]. Qed.

(** What [versionMatches] computes once the specification is a
    comparator rule. *)
Lemma versionMatches_comparator version rawSpec operator rest :
  Version.isAnySpec (JS.trim rawSpec) = false ->
  Version.isUnknownVersion version = false ->
  JS.includes "*" (JS.trim rawSpec) = false ->
  Version.comparatorMatch (JS.trim rawSpec) = Some (operator, rest) ->
  Version.versionMatches version rawSpec
  = match Version.compareSemver (normalizedInstalled version) (JS.trim rest) with
    | None => false
    | Some compared =>
        if String.eqb operator ">=" then 0 <=? compared
        else if String.eqb operator "<=" then compared <=? 0
        else if String.eqb operator ">" then 0 <? compared
        else if String.eqb operator "<" then compared <? 0
        else compared =? 0
    end.
Proof.
  intros Ha Hu Hs Hc. unfold Version.versionMatches. rewrite Ha, Hu, Hs, Hc. reflexivity.
Qed.

Lemma comparator_rule (operator : string) (v t : triple) (gap : string) c r :
  exactNumbers v -> exactNumbers t ->
  In operator Version.operators ->
  operator = String c r ->
  isBlank gap = true ->
  Version.versionMatches (Some (showVersion v)) (operator +:+ gap +:+ showVersion t)
  = let compared := signOfComparison (versionCompare v t) in
    if String.eqb operator ">=" then 0 <=? compared
    else if String.eqb operator "<=" then compared <=? 0
    else if String.eqb operator ">" then 0 <? compared
    else if String.eqb operator "<" then compared <? 0
    else compared =? 0.
Proof.
  intros Hv Ht Hin E Hgap.
  assert (Hsolid : allChars (fun c => negb (JS.isWhiteSpace c)) operator = true).
  { simpl in Hin. repeat destruct Hin as [<-|Hin]; try reflexivity. contradiction. }
  assert (Hmatch : Version.comparatorMatch (operator +:+ gap +:+ showVersion t)
                   = Some (operator, showVersion t)).
  { destruct (gap_head gap t Hgap) as (d & k & Eg & Hd).
    assert (Hne : Ascii.eqb d "=" = false).
    { destruct Hd as [Hd|Hd]; destruct d as [[] [] [] [] [] [] [] []];
        try discriminate Hd; reflexivity. }
    unfold Version.comparatorMatch, Version.operators.
    simpl in Hin.
    repeat destruct Hin as [<-|Hin]; try contradiction; appends;
      cbn [Version.matchOperators JS.startsWith String.prefix];
      repeat match goal with
             | |- context [ascii_dec ?a ?b] =>
                 destruct (ascii_dec a b); [try discriminate|try contradiction]
             end;
      try (rewrite Eg in *; cbn [String.prefix];
           destruct (ascii_dec "=" d) as [<-|_]; [discriminate Hne|]);
      try rewrite <- Eg;
      cbn [String.length JS.sliceFrom]; rewrite ?spacesThenRest_gap by exact Hgap;
      reflexivity. }
  rewrite (versionMatches_comparator _ _ operator (showVersion t)).
  - unfold normalizedInstalled.
    change (default EmptyString (Some (showVersion v))) with (showVersion v).
    rewrite normalized_showVersion, trim_showVersion.
    rewrite compareSemver_showVersion by assumption. reflexivity.
  - rewrite (trim_gap _ _ _ c r E Hsolid). rewrite E. appends.
    simpl in Hin. rewrite E in Hin.
    apply isAnySpec_head;
      repeat destruct Hin as [Hin|Hin]; try contradiction; injection Hin as <- _;
      discriminate.
  - apply isUnknownVersion_showVersion.
  - rewrite (trim_gap _ _ _ c r E Hsolid). rewrite !includes_app.
    rewrite (blank_without _ _ Hgap) by reflexivity.
    rewrite showVersion_without by reflexivity.
    simpl in Hin. repeat destruct Hin as [<-|Hin]; try contradiction; reflexivity.
  - rewrite (trim_gap _ _ _ c r E Hsolid). exact Hmatch.
Qed.

Lemma versionCompare_opp v t : versionCompare t v = CompOpp (versionCompare v t).
Proof.
  unfold versionCompare. rewrite (N.compare_antisym v.1.1), (N.compare_antisym v.1.2),
    (N.compare_antisym v.2).
  destruct (v.1.1 ?= t.1.1)%N, (v.1.2 ?= t.1.2)%N, (v.2 ?= t.2)%N; reflexivity.
Qed.

(** The five comparators decide by the order of the three components;
    white space may separate the operator from the version. *)
Theorem comparators_follow_version_order (v t : triple) (gap : string) :
  exactNumbers v -> exactNumbers t -> isBlank gap = true ->
  let installed := Some (showVersion v) in
  Version.versionMatches installed (">=" +:+ gap +:+ showVersion t) = versionLeb t v
  /\ Version.versionMatches installed ("<=" +:+ gap +:+ showVersion t) = versionLeb v t
  /\ Version.versionMatches installed (">" +:+ gap +:+ showVersion t) = versionLtb t v
  /\ Version.versionMatches installed ("<" +:+ gap +:+ showVersion t) = versionLtb v t
  /\ Version.versionMatches installed ("=" +:+ gap +:+ showVersion t) = versionEqb v t.
Proof.
  intros Hv Ht Hgap installed. subst installed.
  unfold versionLeb, versionLtb, versionEqb. rewrite (versionCompare_opp v t).
  repeat split;
    (erewrite comparator_rule;
     [|exact Hv|exact Ht|simpl; tauto|reflexivity|exact Hgap]);
    destruct (versionCompare v t); reflexivity.
Qed.

(** The theorem at 1.2.3 against [>= 1.0.0]. *)
Lemma comparators_follow_version_order_witness :
  Version.versionMatches (Some "1.2.3") ">= 1.0.0" = true.
Proof.
  exact (proj1 (comparators_follow_version_order (1, 2, 3)%N (1, 0, 0)%N " "
                  ltac:(repeat split; reflexivity) ltac:(repeat split; reflexivity)
                  ltac:(reflexivity))).
Defined.

Lemma ofN_eqb a b : (Z.of_N a =? Z.of_N b) = (a =? b)%N.
Proof.
  destruct (N.eqb_spec a b) as [->|Hne]; [apply Z.eqb_refl|]. apply Z.eqb_neq. lia.
Qed.

Lemma ofN_eqb0 a : (Z.of_N a =? 0) = (a =? 0)%N.
Proof. apply (ofN_eqb a 0). Qed.

Lemma startsWith_char q p r : JS.startsWith (String q EmptyString) (String p r) = Ascii.eqb q p.
Proof.
  unfold JS.startsWith. cbn [String.prefix].
  destruct (ascii_dec q p) as [->|Hne].
  - rewrite Ascii.eqb_refl. destruct r; reflexivity.
  - symmetry. apply Ascii.eqb_neq, Hne.
Qed.

Lemma comparatorMatch_none c r :
  c <> ">"%char -> c <> "<"%char -> c <> "="%char ->
  Version.comparatorMatch (String c r) = None.
Proof.
  intros H1 H2 H3. unfold Version.comparatorMatch, Version.operators.
  cbn [Version.matchOperators JS.startsWith String.prefix].
  repeat match goal with
         | |- context [ascii_dec ?a ?b] =>
             destruct (ascii_dec a b); [congruence|]
         end.
  reflexivity.
Qed.

Lemma digit_plain c :
  JS.isDigit c = true ->
  c <> "*"%char /\ JS.lowerChar c <> "a"%char /\ c <> ">"%char /\ c <> "<"%char
  /\ c <> "="%char /\ c <> "^"%char /\ c <> "~"%char /\ c <> "v"%char /\ c <> "V"%char.
Proof.
  destruct c as [[] [] [] [] [] [] [] []]; intros H; try discriminate H;
    repeat split; discriminate.
Qed.

(** A specification that is a bare version, or one behind [head]. *)
Lemma plain_spec (head : string) (t : triple) :
  allChars (fun c => negb (JS.isWhiteSpace c) && negb (Ascii.eqb c "*")) head = true ->
  JS.trim (head +:+ showVersion t) = head +:+ showVersion t
  /\ JS.includes "*" (head +:+ showVersion t) = false.
Proof.
  intros H. split.
  - apply trim_solid. rewrite allChars_app.
    rewrite (allChars_impl _ _ head (fun c Hc => proj1 (andb_prop _ _ Hc)) H).
    apply (allChars_impl _ _ _ digitOrDot_solid (showVersion_digitOrDot t)).
  - rewrite includes_app, showVersion_without by reflexivity.
    rewrite orb_false_r. eapply includes_allChars; [exact H|reflexivity].
Qed.

(** The caret rule pins the major component (and the minor one under
    major 0), the tilde rule pins major and minor, both ask for at least
    the target; a bare version asks for the same three components, a
    leading [v] on either side being ignored. *)
Theorem caret_tilde_and_exact_rules (v t : triple) :
  exactNumbers v -> exactNumbers t ->
  let installed := Some (showVersion v) in
  Version.versionMatches installed ("^" +:+ showVersion t)
  = (v.1.1 =? t.1.1)%N && (negb (t.1.1 =? 0)%N || (v.1.2 =? t.1.2)%N) && versionLeb t v
  /\ Version.versionMatches installed ("~" +:+ showVersion t)
     = (v.1.1 =? t.1.1)%N && (v.1.2 =? t.1.2)%N && versionLeb t v
  /\ Version.versionMatches installed (showVersion t) = versionEqb v t
  /\ Version.versionMatches installed ("v" +:+ showVersion t) = versionEqb v t
  /\ Version.versionMatches (Some ("v" +:+ showVersion v)) (showVersion t) = versionEqb v t.
Proof.
  intros Xv Xt installed. subst installed.
  assert (Hcmp : bool_decide (Version.compareSemver (showVersion v) (showVersion t) = Some (-1))
                 = negb (versionLeb t v)).
  { rewrite compareSemver_showVersion by assumption. unfold versionLeb. rewrite (versionCompare_opp v t).
    destruct (versionCompare v t); reflexivity. }
  assert (Hranged : forall p : ascii,
             p = "^"%char \/ p = "~"%char ->
             Version.versionMatches (Some (showVersion v)) (String p (showVersion t))
             = if Ascii.eqb p "^"
               then (v.1.1 =? t.1.1)%N && (negb (t.1.1 =? 0)%N || (v.1.2 =? t.1.2)%N)
                    && versionLeb t v
               else (v.1.1 =? t.1.1)%N && (v.1.2 =? t.1.2)%N && versionLeb t v).
  { intros p Hp.
    destruct (plain_spec (String p EmptyString) t) as [Ht Hs];
      [destruct Hp as [->| ->]; reflexivity|].
    change (String p EmptyString +:+ showVersion t) with (String p (showVersion t)) in *.
    unfold Version.versionMatches. rewrite Ht, Hs.
    rewrite isAnySpec_head by (destruct Hp as [->| ->]; discriminate).
    rewrite isUnknownVersion_showVersion.
    rewrite comparatorMatch_none by (destruct Hp as [->| ->]; discriminate).
    change (default EmptyString (Some (showVersion v))) with (showVersion v).
    rewrite normalized_showVersion.
    cbn [JS.sliceFrom]. rewrite !parseSemver_showVersion, Hcmp by assumption.
    unfold asIntegers. rewrite negb_involutive, !ofN_eqb, ofN_eqb0.
    change "^" with (String "^" EmptyString). change "~" with (String "~" EmptyString).
    rewrite !startsWith_char. clear Hcmp.
    destruct Hp as [->| ->]; cbn [Ascii.eqb Bool.eqb];
      destruct (v.1.1 =? t.1.1)%N, (t.1.1 =? 0)%N, (v.1.2 =? t.1.2)%N, (versionLeb t v);
      reflexivity. }
  split; [apply (Hranged "^"%char); auto|].
  split; [apply (Hranged "~"%char); auto|].
  destruct (showVersion_head t) as (c & r & Et & Hc).
  destruct (digit_plain c Hc) as (N1 & N2 & N3 & N4 & N5 & N6 & N7 & N8 & N9).
  split; [|split].
  - destruct (plain_spec EmptyString t) as [Ht Hs]; [reflexivity|].
    rewrite append_nil in *.
    unfold Version.versionMatches. rewrite Ht, Hs.
    rewrite isUnknownVersion_showVersion.
    change (default EmptyString (Some (showVersion v))) with (showVersion v).
    rewrite normalized_showVersion.
    rewrite (stripLeadingV_digit _ c r Et Hc), eqb_showVersion, orb_diag.
    rewrite Et.
    rewrite isAnySpec_head, comparatorMatch_none by assumption.
    change "^" with (String "^" EmptyString). change "~" with (String "~" EmptyString).
    rewrite !startsWith_char.
    apply not_eq_sym in N6, N7. apply Ascii.eqb_neq in N6, N7. rewrite N6, N7.
    reflexivity.
  - destruct (plain_spec "v" t) as [Ht Hs]; [reflexivity|].
    change ("v" +:+ showVersion t) with (String "v" (showVersion t)) in *.
    unfold Version.versionMatches. rewrite Ht, Hs.
    rewrite isAnySpec_head by discriminate.
    rewrite isUnknownVersion_showVersion.
    rewrite comparatorMatch_none by discriminate.
    change (default EmptyString (Some (showVersion v))) with (showVersion v).
    rewrite normalized_showVersion.
    change "^" with (String "^" EmptyString). change "~" with (String "~" EmptyString).
    rewrite !startsWith_char.
    cbn [JS.stripLeadingV Ascii.eqb Bool.eqb orb].
    rewrite eqb_showVersion.
    destruct (showVersion_head v) as (d & k & Ev & Hd).
    destruct (digit_plain d Hd) as (_ & _ & _ & _ & _ & _ & _ & M8 & _).
    rewrite Ev at 1. cbn [String.eqb]. apply Ascii.eqb_neq in M8. rewrite M8. reflexivity.
  - destruct (plain_spec EmptyString t) as [Ht Hs]; [reflexivity|].
    rewrite append_nil in *.
    unfold Version.versionMatches. rewrite Ht, Hs.
    assert (Hn : JS.stripLeadingV (JS.trim (default EmptyString (Some ("v" +:+ showVersion v))))
                 = showVersion v).
    { change (default EmptyString (Some ("v" +:+ showVersion v)))
        with (String "v" (showVersion v)).
      destruct (plain_spec "v" v) as [Hv _]; [reflexivity|].
      change ("v" +:+ showVersion v) with (String "v" (showVersion v)) in Hv.
      rewrite Hv. reflexivity. }
    rewrite Hn.
    assert (Hu : Version.isUnknownVersion (Some ("v" +:+ showVersion v)) = false).
    { unfold Version.isUnknownVersion.
      destruct (plain_spec "v" v) as [Hv _]; [reflexivity|]. rewrite Hv.
      destruct (showVersion_head v) as (d & k & -> & Hd).
      change ("v" +:+ String d k) with (String "v" (String d k)).
      cbn -[JS.lowerChar].
      destruct d as [[] [] [] [] [] [] [] []]; try discriminate Hd; reflexivity. }
    rewrite Hu.
    rewrite (stripLeadingV_digit _ c r Et Hc), eqb_showVersion, orb_diag.
    rewrite Et.
    rewrite isAnySpec_head, comparatorMatch_none by assumption.
    change "^" with (String "^" EmptyString). change "~" with (String "~" EmptyString).
    rewrite !startsWith_char.
    apply not_eq_sym in N6, N7. apply Ascii.eqb_neq in N6, N7. rewrite N6, N7.
    reflexivity.
Qed.

(** The theorem at 0.3.0 against [^0.2.1]: under major 0 the minor
    component is pinned. *)
Lemma caret_tilde_and_exact_rules_witness :
  Version.versionMatches (Some "0.3.0") "^0.2.1" = false.
Proof.
  exact (proj1 (caret_tilde_and_exact_rules (0, 3, 0)%N (0, 2, 1)%N
                  ltac:(repeat split; reflexivity) ltac:(repeat split; reflexivity))).
Defined.

(* ===================================================================== *)
(** ** Wildcard specifications *)
(* ===================================================================== *)

Lemma escapeRegex_head (spec : string) :
  match Version.escapeRegex spec with
  | String c _ => c <> "*"%char
  | EmptyString => True
  end.
Proof.
  destruct spec as [|c r]; simpl; [exact I|].
  destruct (Version.isRegexSpecial c) eqn:E; [discriminate|].
  intros ->. discriminate E.
Qed.

Lemma starsToWildcards_cons c rest :
  (c <> "\"%char \/ match rest with String d _ => d <> "*"%char | EmptyString => True end) ->
  Version.starsToWildcards (String c rest) = String c (Version.starsToWildcards rest).
Proof.
  intros H. simpl.
  destruct c as [[] [] [] [] [] [] [] []]; try reflexivity.
  destruct rest as [|d k]; [reflexivity|].
  destruct d as [[] [] [] [] [] [] [] []]; try reflexivity.
  destruct H as [H|H]; contradiction.
Qed.

Lemma compiled_pattern (spec : string) :
  Version.tokens (Version.starsToWildcards (Version.escapeRegex spec))
  = Some (map tokenOf (list_ascii_of_string spec)).
Proof.
  induction spec as [|c r IH]; [reflexivity|].
  pose proof (escapeRegex_head r) as Hr.
  cbn [Version.escapeRegex list_ascii_of_string map].
  destruct (Version.isRegexSpecial c) eqn:Ec.
  - destruct (Ascii.eqb_spec c "*") as [->|Hstar].
    + change (Version.starsToWildcards (String "\" (String "*" (Version.escapeRegex r))))
        with (String "." (String "*" (Version.starsToWildcards (Version.escapeRegex r)))).
      cbn [Version.tokens]. rewrite IH. reflexivity.
    + rewrite starsToWildcards_cons by (right; exact Hstar).
      rewrite starsToWildcards_cons by (right; exact Hr).
      unfold tokenOf. apply Ascii.eqb_neq in Hstar. rewrite Hstar.
      cbn [Version.tokens]. rewrite Ec, IH. reflexivity.
  - assert (c <> "\"%char) as Hb by (intros ->; discriminate Ec).
    assert (c <> "."%char) as Hd by (intros ->; discriminate Ec).
    assert (c <> "*"%char) as Hs by (intros ->; discriminate Ec).
    rewrite starsToWildcards_cons by (left; exact Hb).
    unfold tokenOf. apply Ascii.eqb_neq in Hs. rewrite Hs.
    transitivity (cons (Version.Lit c)
                    <$> Version.tokens (Version.starsToWildcards (Version.escapeRegex r))).
    + destruct c as [[] [] [] [] [] [] [] []]; try reflexivity;
        try (exfalso; apply Hb; reflexivity); try (exfalso; apply Hd; reflexivity);
        cbn [Version.tokens]; try rewrite Ec; try reflexivity;
        destruct (Version.starsToWildcards (Version.escapeRegex r)); reflexivity.
    + rewrite IH. reflexivity.
Qed.

Lemma list_ascii_app x y :
  list_ascii_of_string (x +:+ y) = (list_ascii_of_string x ++ list_ascii_of_string y)%list.
Proof. induction x as [|c x IH]; appends; simpl; [reflexivity|]. rewrite IH. reflexivity. Qed.

Lemma matchTokens_dotStar v :
  allChars (fun c => negb (JS.isLineTerminator c)) v = true ->
  Version.matchTokens [Version.DotStar] v = true.
Proof.
  unfold allChars. induction v as [|c v IH]; [reflexivity|].
  simpl. intros H. apply andb_prop in H as [Hc Hv]. rewrite Hc. simpl in IH. rewrite (IH Hv).
  reflexivity.
Qed.

Lemma matchTokens_prefix prefix v :
  JS.includes "*" prefix = false ->
  allChars (fun c => negb (JS.isLineTerminator c)) v = true ->
  Version.matchTokens (map tokenOf (list_ascii_of_string (prefix +:+ "*"))) v
  = JS.startsWith prefix v.
Proof.
  revert v. induction prefix as [|c p IH]; intros v Hp Hv.
  - rewrite append_nil. change (map tokenOf (list_ascii_of_string "*")) with [Version.DotStar].
    rewrite (matchTokens_dotStar v Hv). destruct v; reflexivity.
  - simpl in Hp. apply orb_false_iff in Hp as [Hc Hp].
    rewrite append_cons.
    cbn [list_ascii_of_string map]. unfold tokenOf at 1. rewrite Hc.
    cbn [Version.matchTokens]. unfold JS.startsWith.
    destruct v as [|d v]; [reflexivity|]. cbn [String.prefix].
    unfold allChars in Hv. simpl in Hv. apply andb_prop in Hv as [_ Hv].
    destruct (ascii_dec c d) as [->|Hne].
    + rewrite Ascii.eqb_refl. apply (IH v Hp Hv).
    + apply Ascii.eqb_neq in Hne. rewrite Hne. reflexivity.
Qed.

Lemma prefix_component (x y rest : string) :
  allChars JS.isDigit x = true -> allChars JS.isDigit y = true ->
  JS.startsWith (x +:+ ".") (y +:+ "." +:+ rest) = String.eqb x y.
Proof.
  unfold JS.startsWith, allChars. revert y.
  induction x as [|c x IH]; intros y Hx Hy.
  - rewrite append_nil. destruct y as [|d y]; appends; [destruct rest; reflexivity|].
    simpl in Hy. apply andb_prop in Hy as [Hd _]. cbn [String.prefix].
    destruct (ascii_dec "." d) as [<-|_]; [discriminate Hd|reflexivity].
  - simpl in Hx. apply andb_prop in Hx as [Hc Hx]. appends.
    destruct y as [|d y]; appends; cbn [String.prefix String.eqb].
    + destruct (ascii_dec c ".") as [->|_]; [discriminate Hc|reflexivity].
    + simpl in Hy. apply andb_prop in Hy as [_ Hy].
      destruct (ascii_dec c d) as [->|Hne].
      * rewrite Ascii.eqb_refl. apply (IH y Hx Hy).
      * apply Ascii.eqb_neq in Hne. rewrite Hne. reflexivity.
Qed.

(** Whatever the specification, the pattern built from it treats every
    character but [*] literally; a trailing [*] leaves a prefix test, so
    that [major.*] selects exactly the versions of that major
    component. *)
Theorem wildcard_specs_match_literally :
  (forall spec v,
      Version.globTest spec v
      = Version.matchTokens (map tokenOf (list_ascii_of_string spec)) v)
  /\ (forall prefix v,
         JS.includes "*" prefix = false ->
         allChars (fun c => negb (JS.isLineTerminator c)) v = true ->
         Version.globTest (prefix +:+ "*") v = JS.startsWith prefix v)
  /\ (forall (v : triple) (major : N),
         Version.versionMatches (Some (showVersion v)) (decimal major +:+ ".*")
         = (v.1.1 =? major)%N).
Proof.
  assert (Hglob : forall spec v,
             Version.globTest spec v
             = Version.matchTokens (map tokenOf (list_ascii_of_string spec)) v).
  { intros spec v. unfold Version.globTest. rewrite compiled_pattern. reflexivity. }
  assert (Hline : forall v, allChars (fun c => negb (JS.isLineTerminator c)) (showVersion v) = true).
  { intros v. eapply allChars_impl; [|apply showVersion_digitOrDot].
    intros c Hc. destruct c as [[] [] [] [] [] [] [] []]; try discriminate Hc; reflexivity. }
  split; [exact Hglob|]. split.
  - intros prefix v Hp Hv. rewrite Hglob. apply matchTokens_prefix; assumption.
  - intros v major.
    assert (Hsolid : allChars (fun c => negb (JS.isWhiteSpace c)) (decimal major +:+ ".*") = true).
    { rewrite allChars_app.
      rewrite (allChars_impl _ _ _ digitOrDot_solid (decimal_digitOrDot major)). reflexivity. }
    destruct (decimal_head major) as (c & r & E & Hc).
    destruct (digit_plain c Hc) as (N1 & N2 & _).
    unfold Version.versionMatches. rewrite (trim_solid _ Hsolid).
    rewrite isUnknownVersion_showVersion.
    change (default EmptyString (Some (showVersion v))) with (showVersion v).
    rewrite normalized_showVersion.
    assert (JS.includes "*" (decimal major +:+ ".*") = true) as ->.
    { rewrite includes_app. apply orb_true_r. }
    assert (Version.isAnySpec (decimal major +:+ ".*") = false) as ->.
    { rewrite E. appends. apply isAnySpec_head; assumption. }
    rewrite Hglob.
    change (decimal major +:+ ".*") with (decimal major +:+ "." +:+ "*").
    rewrite <- append_assoc.
    rewrite matchTokens_prefix.
    + unfold showVersion. rewrite prefix_component by apply decimal_digits.
      destruct (String.eqb_spec (decimal major) (decimal v.1.1)) as [Heq|Hne].
      * apply decimal_inj in Heq. subst. symmetry. apply N.eqb_refl.
      * symmetry. apply N.eqb_neq. intros <-. contradiction.
    + rewrite includes_app. rewrite decimal_without by reflexivity. reflexivity.
    + apply Hline.
Qed.

(* ===================================================================== *)
(** ** Affected specifiers with a version part *)
(* ===================================================================== *)

Lemma lastIndexOf_bound c s : -1 <= JS.lastIndexOf c s < Z.of_nat (String.length s).
Proof.
  induction s as [|d s IH]; simpl; [lia|].
  destruct (Z.leb_spec 0 (JS.lastIndexOf c s)); [lia|].
  destruct (Ascii.eqb d c); lia.
Qed.

Lemma lastIndexOf_app c x y :
  JS.includes c y = false ->
  JS.lastIndexOf c (x +:+ String c y) = Z.of_nat (String.length x).
Proof.
  intros Hy. induction x as [|d x IH]; appends.
  - simpl. rewrite (lastIndexOf_absent c y Hy), Ascii.eqb_refl. reflexivity.
  - cbn [JS.lastIndexOf String.length]. rewrite IH.
    destruct (Z.leb_spec 0 (Z.of_nat (String.length x))); lia.
Qed.

Lemma sliceTo_app x y : JS.sliceTo (String.length x) (x +:+ y) = x.
Proof. induction x as [|c x IH]; appends; simpl; [destruct y; reflexivity|]. rewrite IH. reflexivity. Qed.

Lemma sliceFrom_app x y : JS.sliceFrom (String.length x) (x +:+ y) = y.
Proof. induction x as [|c x IH]; appends; simpl; [reflexivity|exact IH]. Qed.

(** A specifier [name@spec] is split at its last [@]: the name may start
    with [@] (a scoped name), and the version part is what [versionMatches]
    then receives, so that an empty one admits every version. *)
Theorem versioned_specifier_splits_at_last_at (raw name spec : string) :
  JS.trim raw = name +:+ "@" +:+ spec ->
  name <> EmptyString ->
  JS.includes "@" spec = false ->
  Feed.parseAffectedSpecifier raw = Some (Feed.mkSpecifier name spec)
  /\ (forall skill,
         normalizeSkillName name = normalizeSkillName (InstalledSkill.name skill) ->
         Matching.affectedSpecifierMatchesSkill raw skill
         = Version.versionMatches (InstalledSkill.version skill) spec)
  /\ (forall skill,
         normalizeSkillName name <> normalizeSkillName (InstalledSkill.name skill) ->
         Matching.affectedSpecifierMatchesSkill raw skill = false).
Proof.
  intros Htrim Hname Hspec.
  assert (Hparse : Feed.parseAffectedSpecifier raw = Some (Feed.mkSpecifier name spec)).
  { unfold Feed.parseAffectedSpecifier. rewrite Htrim.
    change (name +:+ "@" +:+ spec) with (name +:+ String "@" spec).
    rewrite (lastIndexOf_app "@" name spec Hspec).
    destruct name as [|c name]; [contradiction|]. appends.
    cbn [JS.isEmpty].
    destruct (Z.leb_spec (Z.of_nat (String.length (String c name))) 0) as [Hle|_];
      [simpl in Hle; lia|].
    rewrite Nat2Z.id.
    replace (Z.to_nat (Z.of_nat (String.length (String c name)) + 1))
      with (String.length (String c name +:+ "@")).
    2:{ clear. induction (String c name) as [|d k IH]; appends; simpl; [reflexivity|].
        rewrite IH. lia. }
    rewrite <- append_cons.
    rewrite (sliceTo_app (String c name) (String "@" spec)).
    change (String c name +:+ String "@" spec) with (String c name +:+ "@" +:+ spec).
    rewrite <- append_assoc, sliceFrom_app. reflexivity. }
  split; [exact Hparse|]. split.
  - intros skill Hn. unfold Matching.affectedSpecifierMatchesSkill. rewrite Hparse.
    cbn [Feed.name Feed.versionSpec]. rewrite Hn, String.eqb_refl. reflexivity.
  - intros skill Hn. unfold Matching.affectedSpecifierMatchesSkill. rewrite Hparse.
    cbn [Feed.name Feed.versionSpec]. apply String.eqb_neq in Hn. rewrite Hn. reflexivity.
Qed.

(** The theorem at a scoped name with a version range. *)
Lemma versioned_specifier_splits_at_last_at_witness :
  Feed.parseAffectedSpecifier " @scope/pkg@>=1.0.0 "
  = Some (Feed.mkSpecifier "@scope/pkg" ">=1.0.0").
Proof.
  exact (proj1 (versioned_specifier_splits_at_last_at " @scope/pkg@>=1.0.0 "
                  "@scope/pkg" ">=1.0.0"
                  ltac:(reflexivity) ltac:(discriminate) ltac:(reflexivity))).
Defined.

(* ===================================================================== *)
(** ** The allow-list and the remote loader *)
(* ===================================================================== *)

Lemma substring_all s : String.substring 0 (String.length s) s = s.
Proof. induction s as [|c s IH]; simpl; [reflexivity|]. rewrite IH. reflexivity. Qed.

Lemma substring_skip x y n : String.substring (String.length x) n (x +:+ y) = String.substring 0 n y.
Proof. induction x as [|c x IH]; appends; simpl; [reflexivity|exact IH]. Qed.

Lemma substring_split s m :
  (m <= String.length s)%nat ->
  s = String.substring 0 m s +:+ String.substring m (String.length s - m) s.
Proof.
  revert m. induction s as [|c s IH]; intros m Hm; simpl in *.
  - destruct m; reflexivity.
  - destruct m as [|m]; simpl; appends.
    + rewrite substring_all. reflexivity.
    + f_equal. apply IH. lia.
Qed.

Lemma length_append x y : String.length (x +:+ y) = (String.length x + String.length y)%nat.
Proof. induction x as [|c x IH]; appends; simpl; [reflexivity|]. rewrite IH. reflexivity. Qed.

Lemma endsWith_suffix p s : JS.endsWith p s = true <-> exists pre, s = pre +:+ p.
Proof.
  unfold JS.endsWith. split.
  - intros H. apply andb_prop in H as [Hle Heq]. apply Nat.leb_le in Hle.
    apply String.eqb_eq in Heq.
    exists (String.substring 0 (String.length s - String.length p) s).
    pose proof (substring_split s (String.length s - String.length p) ltac:(lia)) as Hs.
    replace (String.length s - (String.length s - String.length p))%nat
      with (String.length p) in Hs by lia.
    rewrite Heq in Hs. exact Hs.
  - intros [pre ->]. rewrite length_append.
    replace (String.length pre + String.length p - String.length p)%nat
      with (String.length pre) by lia.
    rewrite substring_skip, substring_all, String.eqb_refl, andb_true_r.
    apply Nat.leb_le. lia.
Qed.

Lemma isAllowedDomain_allowedUrl w url : Feed.isAllowedDomain w url = true <-> allowedUrl w url.
Proof.
  unfold Feed.isAllowedDomain, allowedUrl, allowedHost. split.
  - destruct (parseUrl w url) as [parsed|]; [|discriminate].
    destruct (String.eqb_spec (protocol parsed) "https:") as [Hp|Hp]; [|discriminate].
    cbn [negb]. intros H. apply existsb_exists in H as (allowed & Hin & H).
    exists parsed. split; [reflexivity|]. split; [exact Hp|].
    exists allowed. split; [exact Hin|].
    apply orb_prop in H as [H|H].
    + left. apply String.eqb_eq, H.
    + right. apply endsWith_suffix in H as [sub H]. exists sub. exact H.
  - intros (parsed & -> & Hp & allowed & Hin & H). rewrite Hp. cbn [String.eqb negb].
    change (("https:" =? "https:")%string) with true. cbn [negb].
    apply existsb_exists. exists allowed. split; [exact Hin|].
    destruct H as [->|[sub ->]].
    + rewrite String.eqb_refl. reflexivity.
    + apply orb_true_iff. right. apply endsWith_suffix. exists sub. reflexivity.
Qed.

(** A feed that [loadRemoteFeed] returns was fetched over HTTPS from a
    host of the allow-list, its signature too, and so was every other URL
    the load requested. *)
Theorem remote_feed_comes_from_allowed_hosts w feedUrl o s :
  (forall url, Feed.isAllowedDomain w url = true <-> allowedUrl w url)
  /\ (forall payload,
         (Feed.loadRemoteFeed w feedUrl o s).1 = Done (Some payload) ->
         allowedUrl w feedUrl
         /\ (Feed.Remote.allowUnsignedOf o = false ->
             allowedUrl w (Feed.Remote.signatureUrlOf feedUrl o))
         /\ (forall url,
                In (FetchRequested url) (since s (Feed.loadRemoteFeed w feedUrl o s).2) ->
                allowedUrl w url)).
Proof.
  split; [apply isAllowedDomain_allowedUrl|].
  intros payload Hload. split; [|split].
  - apply isAllowedDomain_allowedUrl.
    revert Hload. unfold Feed.loadRemoteFeed, tryCatch, bind.
    rewrite fetchText_run. unfold fetchOutcome.
    destruct (Feed.isAllowedDomain w feedUrl); [reflexivity|discriminate].
  - intros Hsigned. apply isAllowedDomain_allowedUrl.
    revert Hload. unfold Feed.loadRemoteFeed, Feed.remoteVerification, tryCatch, bind.
    rewrite fetchText_run. unfold fetchOutcome.
    destruct (Feed.isAllowedDomain w feedUrl); [|discriminate].
    destruct (Feed.truthy _) as [payloadRaw|]; [|discriminate].
    rewrite Hsigned. cbn [negb]. rewrite fetchText_run. unfold fetchOutcome.
    destruct (Feed.isAllowedDomain w (Feed.Remote.signatureUrlOf feedUrl o));
      [reflexivity|discriminate].
  - destruct (loadRemoteFeed_cases w feedUrl o s) as (body & Hbody & Hrun).
    destruct (Hbody s) as (evs & Hs & _ & _ & Hblocked).
    rewrite Hrun in Hload |- *.
    destruct (body s) as [[a|e|n] s'] eqn:Eb; cbn [fst snd] in *; try discriminate Hload.
    + subst s'. rewrite since_extended.
      intros url Hin. apply isAllowedDomain_allowedUrl.
      destruct (Feed.isAllowedDomain w url) eqn:Ea; [reflexivity|exfalso].
      assert (Hb : blocked w evs) by (exists url; split; assumption).
      apply Hblocked in Hb as [message Hb]. discriminate Hb.
    + destruct (isSecurityPolicyError e); discriminate Hload.
Qed.

(** The theorem at the signed feed of the official host. *)
Lemma remote_feed_comes_from_allowed_hosts_witness :
  allowedUrl (Fixtures.world Fixtures.signedRemote) Fixtures.feedUrl.
Proof.
  exact (proj1 (proj2 (remote_feed_comes_from_allowed_hosts
                         (Fixtures.world Fixtures.signedRemote) Fixtures.feedUrl
                         Fixtures.keyed (initial None))
                  Fixtures.feedJson ltac:(vm_compute; reflexivity))).
Defined.

(* ===================================================================== *)
(** ** Checksum manifests *)
(* ===================================================================== *)

(** What [parseChecksumsManifest] returns is normalized: the algorithm is
    sha256, the schema version is not empty, there is at least one file,
    every digest is 64 lower-case hexadecimal digits and no file name is
    blank; parsing has no effect on the machine. *)
Theorem parsed_manifest_is_normalized w manifestRaw s m s' :
  Feed.parseChecksumsManifest w manifestRaw s = (Done m, s') ->
  s' = s
  /\ Feed.algorithm m = "sha256"
  /\ Feed.schemaVersion m <> EmptyString
  /\ Feed.files m <> ∅
  /\ (forall name digest,
         Feed.files m !! name = Some digest ->
         Feed.isHex64 digest = true /\ JS.isEmpty (JS.trim name) = false).
Proof.
  intros H.
  destruct (effectFree_parseChecksumsManifest w manifestRaw) as (o & Ho & _).
  rewrite Ho in H. injection H as -> <-. split; [reflexivity|].
  destruct (parseChecksumsManifest_Done w manifestRaw s m) as (Ha & Hv & Hf & _ & Hd).
  { rewrite Ho. reflexivity. }
  repeat split; try assumption; apply (Hd _ _ H).
Qed.

(** The theorem at the manifest of the signed local feed. *)
Lemma parsed_manifest_is_normalized_witness :
  exists m,
    (Feed.parseChecksumsManifest (Fixtures.world Samples.signedLocal) "MANIFEST"
       (initial None)).1 = Done m
    /\ Feed.algorithm m = "sha256"
    /\ Feed.files m !! "feed.pem" = Some Samples.keyDigest.
Proof.
  destruct (Feed.parseChecksumsManifest (Fixtures.world Samples.signedLocal) "MANIFEST"
              (initial None)) as [[m|e|n] s'] eqn:E;
    [|vm_compute in E; discriminate E|vm_compute in E; discriminate E].
  exists m. split; [reflexivity|].
  split; [exact (proj1 (proj2 (parsed_manifest_is_normalized _ _ _ _ _ E)))|].
  vm_compute in E. injection E as <- _. vm_compute. reflexivity.
Defined.

Lemma verifyChecksums_outcome w m entries s :
  (Feed.verifyChecksums w m entries s).2 = s
  /\ ((Feed.verifyChecksums w m entries s).1 = Done tt
      \/ exists message, (Feed.verifyChecksums w m entries s).1 = Thrown (Error message)).
Proof.
  induction entries as [|[n c] r IH]; simpl; [split; [reflexivity|left; reflexivity]|].
  destruct (JS.isEmpty n); [exact IH|].
  destruct (Feed.files m !! n) as [d|];
    [|destruct (isInherited n); split; solve [reflexivity|right; eauto]].
  destruct (JS.isEmpty d); [split; [reflexivity|right; eauto]|].
  destruct (String.eqb (sha256Hex w c) d); cbn [negb]; [exact IH|].
  split; [reflexivity|right; eauto].
Qed.

(** Against a parsed manifest, [verifyChecksums] returns exactly when the
    manifest lists, for every expected entry with a name, the SHA-256
    digest of its content; otherwise it throws an [Error].  It has no
    effect on the machine. *)
Theorem checksums_accept_exactly_the_listed_digests w manifestRaw m entries s :
  (Feed.parseChecksumsManifest w manifestRaw s).1 = Done m ->
  ((Feed.verifyChecksums w m entries s).1 = Done tt <-> digestsMatch w m entries)
  /\ ((Feed.verifyChecksums w m entries s).1 = Done tt
      \/ exists message, (Feed.verifyChecksums w m entries s).1 = Thrown (Error message))
  /\ (Feed.verifyChecksums w m entries s).2 = s.
Proof.
  intros Hparsed.
  destruct (parseChecksumsManifest_Done _ _ _ _ Hparsed) as (_ & _ & _ & _ & Hd).
  split; [split; [apply verifyChecksums_Done|apply verifyChecksums_complete]|].
  - intros name digest Hin. apply (Hd _ _ Hin).
  - destruct (verifyChecksums_outcome w m entries s) as [Hs Ho]. split; assumption.
Qed.

(** The theorem at the manifest of the signed local feed and the feed
    entry. *)
Lemma checksums_accept_exactly_the_listed_digests_witness :
  exists m,
    (Feed.parseChecksumsManifest (Fixtures.world Samples.signedLocal) "MANIFEST"
       (initial None)).1 = Done m
    /\ digestsMatch (Fixtures.world Samples.signedLocal) m [("feed.json", "FEED")].
Proof.
  destruct (Feed.parseChecksumsManifest (Fixtures.world Samples.signedLocal) "MANIFEST"
              (initial None)) as [[m|e|n] s'] eqn:E;
    [|vm_compute in E; discriminate E|vm_compute in E; discriminate E].
  exists m. split; [reflexivity|].
  apply (proj1 (checksums_accept_exactly_the_listed_digests
                  (Fixtures.world Samples.signedLocal) "MANIFEST" m
                  [("feed.json", "FEED")] (initial None)
                  ltac:(rewrite E; reflexivity))).
  vm_compute in E. injection E as <- _. vm_compute. reflexivity.
Defined.

(* ===================================================================== *)
(** ** Names derived from URLs and paths *)
(* ===================================================================== *)

Lemma lastIndexOf_found c s :
  0 <= JS.lastIndexOf c s ->
  s = JS.sliceTo (Z.to_nat (JS.lastIndexOf c s)) s
      +:+ String c (JS.sliceFrom (Z.to_nat (JS.lastIndexOf c s + 1)) s)
  /\ JS.includes c (JS.sliceFrom (Z.to_nat (JS.lastIndexOf c s + 1)) s) = false.
Proof.
  induction s as [|d s IH]; [simpl; lia|].
  cbn [JS.lastIndexOf]. pose proof (lastIndexOf_bound c s) as Hb.
  destruct (Z.leb_spec 0 (JS.lastIndexOf c s)) as [Hi|Hi].
  - intros _. destruct (IH Hi) as [E Hn].
    replace (Z.to_nat (JS.lastIndexOf c s + 1)) with (S (Z.to_nat (JS.lastIndexOf c s))) in * by lia.
    replace (Z.to_nat (JS.lastIndexOf c s + 1 + 1))
      with (S (S (Z.to_nat (JS.lastIndexOf c s)))) by lia.
    cbn [JS.sliceTo]. cbn [JS.sliceFrom] in *. appends. split; [f_equal; exact E|exact Hn].
  - destruct (Ascii.eqb_spec d c) as [->|Hne]; [|lia]. intros _.
    change (Z.to_nat 0) with O. change (Z.to_nat (0 + 1)) with 1%nat.
    cbn [JS.sliceTo JS.sliceFrom]. appends. split; [reflexivity|].
    assert (JS.lastIndexOf c s = -1) as Hm by lia.
    clear - Hm. induction s as [|e s IH]; [reflexivity|].
    cbn [JS.lastIndexOf] in Hm. pose proof (lastIndexOf_bound c s) as Hb.
    destruct (Z.leb_spec 0 (JS.lastIndexOf c s)); [lia|].
    simpl. destruct (Ascii.eqb e c); [lia|]. apply IH. lia.
Qed.

Lemma lastIndexOf_missing c s : JS.lastIndexOf c s < 0 -> JS.includes c s = false.
Proof.
  induction s as [|e s IH]; [reflexivity|].
  cbn [JS.lastIndexOf]. pose proof (lastIndexOf_bound c s) as Hb.
  destruct (Z.leb_spec 0 (JS.lastIndexOf c s)); [lia|].
  simpl. destruct (Ascii.eqb e c); [lia|]. intros _. apply IH. lia.
Qed.

Lemma length_sliceFrom n s : String.length (JS.sliceFrom n s) = (String.length s - n)%nat.
Proof.
  revert s. induction n as [|n IH]; intros s; [simpl; lia|].
  destruct s as [|c s]; [reflexivity|]. simpl. apply IH.
Qed.

Lemma afterLastSlash_cases (text : string) :
  match Feed.afterLastSlash text with
  | Some name =>
      name <> EmptyString /\ JS.includes "/" name = false
      /\ exists dir, text = dir +:+ "/" +:+ name
  | None => JS.includes "/" text = false \/ exists dir, text = dir +:+ "/"
  end.
Proof.
  unfold Feed.afterLastSlash. pose proof (lastIndexOf_bound "/" text) as Hb.
  destruct (Z.leb_spec 0 (JS.lastIndexOf "/" text)) as [Hi|Hi]; cbn [andb].
  - destruct (lastIndexOf_found "/" text Hi) as [E Hn].
    destruct (Z.ltb_spec (JS.lastIndexOf "/" text) (Z.of_nat (String.length text) - 1)) as [Hl|Hl].
    + split; [|split; [exact Hn|eexists; exact E]].
      intros Hempty. apply (f_equal String.length) in Hempty.
      rewrite length_sliceFrom in Hempty. simpl in Hempty. lia.
    + right. eexists. rewrite E at 1. f_equal. f_equal.
      assert (String.length (JS.sliceFrom (Z.to_nat (JS.lastIndexOf "/" text + 1)) text) = O)
        as Hlen by (rewrite length_sliceFrom; lia).
      destruct (JS.sliceFrom _ text); [reflexivity|discriminate Hlen].
  - left. apply lastIndexOf_missing. lia.
Qed.

(** [safeBasename] gives the text after the last slash of the path (the
    path of the URL when the text is one), which is then not empty and
    holds no slash; without a slash, or with nothing after the last one,
    it gives the fallback. *)
Theorem safeBasename_is_the_last_segment w urlOrPath fallback :
  let text := match parseUrl w urlOrPath with
              | Some parsed => pathname parsed
              | None => JS.trim urlOrPath
              end in
  let name := Feed.safeBasename w urlOrPath fallback in
  (name <> EmptyString /\ JS.includes "/" name = false
   /\ exists dir, text = dir +:+ "/" +:+ name)
  \/ (name = fallback
      /\ (JS.includes "/" text = false \/ exists dir, text = dir +:+ "/")).
Proof.
  intros text name. subst text name. unfold Feed.safeBasename.
  destruct (parseUrl w urlOrPath) as [parsed|].
  - pose proof (afterLastSlash_cases (pathname parsed)) as H.
    destruct (Feed.afterLastSlash (pathname parsed)); [left|right; split]; auto.
  - pose proof (afterLastSlash_cases (JS.trim urlOrPath)) as H.
    destruct (Feed.afterLastSlash (JS.trim urlOrPath)); [left|right; split]; auto.
Qed.

(** Without a base that [new URL] accepts, the default checksum manifest
    is the sibling [checksums.json] of the feed: the feed URL up to its
    last slash, or the root when it has none. *)
Theorem defaultChecksumsUrl_is_the_sibling w feedUrl :
  (forall url, resolveUrl w "checksums.json" feedUrl = Some url ->
               Feed.defaultChecksumsUrl w feedUrl = url)
  /\ (resolveUrl w "checksums.json" feedUrl = None ->
      (forall dir file,
          feedUrl = dir +:+ "/" +:+ file -> JS.includes "/" file = false ->
          Feed.defaultChecksumsUrl w feedUrl = dir +:+ "/checksums.json")
      /\ (JS.includes "/" feedUrl = false ->
          Feed.defaultChecksumsUrl w feedUrl = "/checksums.json")).
Proof.
  unfold Feed.defaultChecksumsUrl, Feed.stripLastSegment.
  split; [intros url ->; reflexivity|]. intros ->. split.
  - intros dir file -> Hfile.
    change (dir +:+ "/" +:+ file) with (dir +:+ String "/" file).
    rewrite (lastIndexOf_app "/" dir file Hfile).
    destruct (Z.leb_spec 0 (Z.of_nat (String.length dir))); [|lia].
    rewrite Nat2Z.id, sliceTo_app. reflexivity.
  - intros H. rewrite (lastIndexOf_absent _ _ H). reflexivity.
Qed.

(* ===================================================================== *)
(** ** Detached signatures *)
(* ===================================================================== *)

Lemma removeWhiteSpace_cons c s :
  Feed.removeWhiteSpace (String c s)
  = if JS.isWhiteSpace c then Feed.removeWhiteSpace s else String c (Feed.removeWhiteSpace s).
Proof. unfold Feed.removeWhiteSpace. simpl. destruct (JS.isWhiteSpace c); reflexivity. Qed.

Lemma removeWhiteSpace_trimStart s :
  Feed.removeWhiteSpace (JS.trimStart s) = Feed.removeWhiteSpace s.
Proof.
  induction s as [|c s IH]; [reflexivity|]. cbn [JS.trimStart].
  destruct (JS.isWhiteSpace c) eqn:E; [|reflexivity].
  rewrite (removeWhiteSpace_cons c s), E. exact IH.
Qed.

Lemma removeWhiteSpace_trimEnd s :
  Feed.removeWhiteSpace (JS.trimEnd s) = Feed.removeWhiteSpace s.
Proof.
  induction s as [|c s IH]; [reflexivity|]. cbn [JS.trimEnd].
  rewrite (removeWhiteSpace_cons c s).
  destruct (JS.isWhiteSpace c) eqn:E; cbn [andb].
  - destruct (JS.trimEnd s) eqn:Et; cbn [JS.isEmpty].
    + rewrite <- IH. reflexivity.
    + rewrite removeWhiteSpace_cons, E. exact IH.
  - rewrite removeWhiteSpace_cons, E, IH. reflexivity.
Qed.

Lemma removeWhiteSpace_trim s : Feed.removeWhiteSpace (JS.trim s) = Feed.removeWhiteSpace s.
Proof. unfold JS.trim. rewrite removeWhiteSpace_trimEnd. apply removeWhiteSpace_trimStart. Qed.

Lemma trim_empty_removeWhiteSpace s :
  JS.isEmpty (JS.trim s) = true -> JS.isEmpty (Feed.removeWhiteSpace s) = true.
Proof.
  intros H. rewrite <- removeWhiteSpace_trim. destruct (JS.trim s); [reflexivity|discriminate H].
Qed.

(** A detached signature is read up to white space: a text that does not
    open a JSON object is the base64 text itself, blanks and line breaks
    removed; a JSON object with a string [signature] stands for that
    string; an unparsable object, a blank signature and a blank key verify
    nothing. *)
Theorem signatures_are_read_up_to_white_space w payloadRaw signatureRaw publicKeyPem :
  (JS.startsWith "{" (JS.trim signatureRaw) = false ->
   Feed.verifySignedPayload w payloadRaw signatureRaw publicKeyPem
   = negb (JS.isEmpty (Feed.removeWhiteSpace signatureRaw))
     && negb (JS.isEmpty (JS.trim publicKeyPem))
     && ed25519Verify w payloadRaw (JS.trim publicKeyPem)
          (Feed.removeWhiteSpace signatureRaw))
  /\ (forall props inner,
         JS.startsWith "{" (JS.trim signatureRaw) = true ->
         jsonParse w (JS.trim signatureRaw) = Some (JObj props) ->
         objGet "signature" props = Some (JStr inner) ->
         Feed.verifySignedPayload w payloadRaw signatureRaw publicKeyPem
         = negb (JS.isEmpty (Feed.removeWhiteSpace inner))
           && negb (JS.isEmpty (JS.trim publicKeyPem))
           && ed25519Verify w payloadRaw (JS.trim publicKeyPem)
                (Feed.removeWhiteSpace inner))
  /\ (JS.startsWith "{" (JS.trim signatureRaw) = true ->
      jsonParse w (JS.trim signatureRaw) = None ->
      Feed.verifySignedPayload w payloadRaw signatureRaw publicKeyPem = false)
  /\ (JS.isEmpty (JS.trim signatureRaw) = true \/ JS.isEmpty (JS.trim publicKeyPem) = true ->
      Feed.verifySignedPayload w payloadRaw signatureRaw publicKeyPem = false).
Proof.
  unfold Feed.verifySignedPayload, Feed.decodeSignature.
  split; [|split; [|split]].
  - intros Hbrace. rewrite Hbrace.
    destruct (JS.isEmpty (JS.trim signatureRaw)) eqn:Et.
    + rewrite (trim_empty_removeWhiteSpace _ Et). reflexivity.
    + rewrite removeWhiteSpace_trim.
      destruct (JS.isEmpty (Feed.removeWhiteSpace signatureRaw)); [reflexivity|].
      destruct (JS.isEmpty (JS.trim publicKeyPem)); reflexivity.
  - intros props inner Hbrace Hparse Hsig. rewrite Hbrace, Hparse.
    destruct (JS.isEmpty (JS.trim signatureRaw)) eqn:Et.
    { destruct (JS.trim signatureRaw); [discriminate Hbrace|discriminate Et]. }
    unfold propString, prop. cbn [isObject]. rewrite Hsig.
    destruct (JS.isEmpty (Feed.removeWhiteSpace inner)); [reflexivity|].
    destruct (JS.isEmpty (JS.trim publicKeyPem)); reflexivity.
  - intros Hbrace Hparse. rewrite Hbrace, Hparse.
    destruct (JS.isEmpty (JS.trim signatureRaw)); reflexivity.
  - intros [H|H].
    + rewrite H. reflexivity.
    + rewrite H. destruct (JS.isEmpty (JS.trim signatureRaw)); [reflexivity|].
      repeat match goal with
             | |- context [match ?x with _ => _ end] => destruct x; try reflexivity
             end.
Qed.

(* ===================================================================== *)
(** ** The feed of the hook *)
(* ===================================================================== *)

(** In signed mode the hook's [loadFeed] reads the pinned key first and
    throws, before any request, when the key file is missing; the feed it
    returns, remote or local, carries a signature that verifies under that
    key, and the local one is used only after the remote load gave
    nothing. *)
Theorem hook_feed_is_verified_with_the_pinned_key w o s :
  Handler.allowUnsigned o = false ->
  (readFile w (Handler.feedPublicKeyPath o) = None ->
   exists message, Handler.loadFeedFrom w o s = (Thrown (Error message), s))
  /\ (forall payload fromRemote,
         (Handler.loadFeedFrom w o s).1 = Done (payload, fromRemote) ->
         exists key payloadRaw signatureRaw,
           readFile w (Handler.feedPublicKeyPath o) = Some key
           /\ jsonParse w payloadRaw = Some payload
           /\ Feed.isValidFeedPayload payload = true
           /\ Feed.verifySignedPayload w payloadRaw signatureRaw key = true
           /\ if fromRemote
              then received w (Handler.feedUrl o) = Some payloadRaw
                   /\ received w (Handler.feedSignatureUrl o) = Some signatureRaw
              else readFile w (Handler.localFeedPath o) = Some payloadRaw
                   /\ readFile w (Handler.localFeedSignaturePath o) = Some signatureRaw
                   /\ (Feed.loadRemoteFeed w (Handler.feedUrl o)
                         (Handler.remoteOptions o key) s).1 = Done None).
Proof.
  intros Hsigned. unfold Handler.loadFeedFrom. rewrite Hsigned.
  unfold Feed.readFileM, orThrow. split.
  - intros ->. eexists. reflexivity.
  - intros payload fromRemote.
    destruct (readFile w (Handler.feedPublicKeyPath o)) as [key|]; [|discriminate].
    unfold bind at 1. cbn [ret]. unfold bind at 1.
    destruct (Feed.loadRemoteFeed w (Handler.feedUrl o) (Handler.remoteOptions o key) s)
      as [[[remote|]|e|n] s1] eqn:Er; try discriminate.
    + intros [= <- <-].
      destruct (remote_accepts w _ _ s remote ltac:(rewrite Er; reflexivity))
        as (payloadRaw & Hrecv & Hparse & Hvalid & Hsig).
      destruct Hsig as (signatureRaw & Hsrecv & Hverify & _).
      { unfold Feed.Remote.allowUnsignedOf, Handler.remoteOptions.
        cbn [Feed.RemoteOptions.allowUnsigned]. rewrite Hsigned. reflexivity. }
      exists key, payloadRaw, signatureRaw.
      split; [reflexivity|]. split; [exact Hparse|]. split; [exact Hvalid|].
      split; [exact Hverify|]. split; [exact Hrecv|exact Hsrecv].
    + unfold bind.
      destruct (Feed.loadLocalFeed w (Handler.localFeedPath o) (Handler.localOptions w o key) s1)
        as [[localFeed|e|n] s2] eqn:El; try discriminate.
      intros [= <- <-].
      destruct (local_accepts w _ _ s1 localFeed ltac:(rewrite El; reflexivity))
        as (payloadRaw & Hread & Hparse & Hvalid & Hsig).
      destruct Hsig as (signatureRaw & Hsread & Hverify & _).
      { unfold Feed.Local.allowUnsignedOf, Handler.localOptions.
        cbn [Feed.LocalOptions.allowUnsigned]. rewrite Hsigned. reflexivity. }
      exists key, payloadRaw, signatureRaw.
      split; [reflexivity|]. split; [exact Hparse|]. split; [exact Hvalid|].
      split; [exact Hverify|]. split; [exact Hread|]. split; [exact Hsread|].
      rewrite Er. reflexivity.
Qed.

(** The theorem at a machine that falls back to its signed local feed. *)
Lemma hook_feed_is_verified_with_the_pinned_key_witness :
  exists payloadRaw signatureRaw,
    jsonParse (Fixtures.world Samples.signedLocal) payloadRaw = Some Fixtures.feedJson
    /\ Feed.verifySignedPayload (Fixtures.world Samples.signedLocal) payloadRaw signatureRaw
         "PUBLIC-KEY" = true.
Proof.
  destruct (proj2 (hook_feed_is_verified_with_the_pinned_key
                     (Fixtures.world Samples.signedLocal) Samples.signedOptions (initial None)
                     ltac:(reflexivity))
              Fixtures.feedJson false ltac:(vm_compute; reflexivity))
    as (key & payloadRaw & signatureRaw & Hkey & Hparse & _ & Hverify & _).
  exists payloadRaw, signatureRaw. split; [exact Hparse|].
  vm_compute in Hkey. injection Hkey as <-. exact Hverify.
Defined.

(* ===================================================================== *)
(** ** The hook: events, rate limit and outcome *)
(* ===================================================================== *)

Lemma handler_skipped w event s :
  Handler.shouldHandleEvent event = true ->
  proceeds w event s = false ->
  Handler.handler w event s = (Done event, afterWarning w s).
Proof.
  unfold proceeds, Handler.handler. intros -> Hr. cbn [negb andb] in *.
  unfold bind at 1.
  pose proof (storedState_afterWarning w s) as Hst.
  unfold afterWarning in *.
  destruct (Handler.warnUnsignedOnce _ s) as [o0 s0] eqn:Ew.
  assert (o0 = Done tt) as ->.
  { unfold Handler.warnUnsignedOnce in Ew. destruct (_ && _) in Ew; injection Ew; auto. }
  cbn [snd] in *.
  unfold bind at 1, State.loadState at 1. fold (storedState s0). rewrite Hst.
  cbv beta iota.
  apply orb_false_iff in Hr as [Hr1 Hr2]. apply negb_false_iff in Hr2.
  rewrite Hr1, Hr2. reflexivity.
Qed.

Lemma afterWarning_events w s :
  exists evs, afterWarning w s
              = mkSys (trace s ++ evs)%list (stateFile s)
                      (unsignedModeWarningShown (afterWarning w s))
              /\ Forall isWarning evs /\ (length evs <= 1)%nat.
Proof.
  unfold afterWarning, Handler.warnUnsignedOnce.
  destruct (_ && _); cbn [snd].
  - eexists [_]. split; [reflexivity|]. split; [|simpl; lia].
    repeat constructor. eexists. reflexivity.
  - exists []. rewrite app_nil_r. destruct s. split; [reflexivity|]. split; [constructor|simpl; lia].
Qed.

(** An event that the hook does not handle leaves the machine as it was;
    a handled one that comes within the scan interval returns the event
    with the state file untouched, no request made and at most the
    one-time warning of unsigned mode printed. *)
Theorem skipped_invocations_are_inert w event s :
  (Handler.shouldHandleEvent event = false -> Handler.handler w event s = (Done event, s))
  /\ (Handler.shouldHandleEvent event = true -> proceeds w event s = false ->
      (Handler.handler w event s).1 = Done event
      /\ stateFile (Handler.handler w event s).2 = stateFile s
      /\ Forall isWarning (since s (Handler.handler w event s).2)
      /\ (length (since s (Handler.handler w event s).2) <= 1)%nat).
Proof.
  split.
  - intros H. unfold Handler.handler. rewrite H. reflexivity.
  - intros Hh Hp. rewrite (handler_skipped w event s Hh Hp). cbn [fst snd].
    destruct (afterWarning_events w s) as (evs & E & Hw & Hl).
    rewrite E. cbn [stateFile]. split; [reflexivity|]. split; [reflexivity|].
    rewrite (since_trace s _ evs) by reflexivity. split; assumption.
Qed.

Lemma colon_split x y p q :
  x +:+ ":" +:+ y = p +:+ ":" +:+ q ->
  JS.includes ":" p = false -> JS.includes ":" q = false ->
  x = p /\ y = q.
Proof.
  revert p. induction x as [|d x IH]; intros p H Hp Hq.
  - destruct p as [|c p].
    + change (String ":" y = String ":" q) in H. injection H as H.
      split; [reflexivity|exact H].
    + change (String ":" y = String c (p +:+ ":" +:+ q)) in H.
      injection H as <- _. discriminate Hp.
  - destruct p as [|c p].
    + change (String d (x +:+ ":" +:+ y) = String ":" q) in H. injection H as -> H.
      rewrite <- H, includes_app in Hq. cbn in Hq. rewrite orb_true_r in Hq. discriminate Hq.
    + change (String d (x +:+ ":" +:+ y) = String c (p +:+ ":" +:+ q)) in H.
      injection H as -> H.
      simpl in Hp. apply orb_false_iff in Hp as [_ Hp].
      destruct (IH p H Hp Hq) as [-> ->]. split; reflexivity.
Qed.

(** The hook handles the two events named in its manifest and no other:
    the type and the action are compared after trimming. *)
Theorem hook_handles_bootstrap_and_new_command event :
  let type := JS.trim (default EmptyString (HookEvent.type event)) in
  let action := JS.trim (default EmptyString (HookEvent.action event)) in
  Handler.shouldHandleEvent event = true
  <-> (type = "agent" /\ action = "bootstrap") \/ (type = "command" /\ action = "new").
Proof.
  intros type action. unfold Handler.shouldHandleEvent, Handler.toEventName.
  fold type action. split.
  - intros H. destruct (JS.isEmpty type || JS.isEmpty action) eqn:E; [discriminate H|].
    apply orb_prop in H as [H|H]; apply String.eqb_eq in H.
    + left. apply (colon_split type action "agent" "bootstrap" H); reflexivity.
    + right. apply (colon_split type action "command" "new" H); reflexivity.
  - intros [[-> ->]|[-> ->]]; reflexivity.
Qed.









(* ===================================================================== *)
(** ** De-duplication within one scan *)
(* ===================================================================== *)

Lemma alreadyNotified_setNotified state key now key' :
  JS.isEmpty now = false ->
  Handler.alreadyNotified (Handler.setNotified state key now) key'
  = Handler.alreadyNotified state key' || String.eqb key key'.
Proof.
  intros Hnow. unfold Handler.alreadyNotified, Handler.setNotified.
  cbn [AdvisoryState.notified_matches].
  destruct (String.eqb_spec key key') as [->|Hne].
  - rewrite lookup_insert_eq, Hnow, orb_true_r. reflexivity.
  - rewrite lookup_insert_ne by exact Hne. rewrite orb_false_r. reflexivity.
Qed.

Lemma collectUnseen_table matches state now key :
  JS.isEmpty now = false ->
  Handler.alreadyNotified (Handler.collectUnseen matches state now).2 key = true
  <-> Handler.alreadyNotified state key = true \/ In key (map Matching.matchKey matches).
Proof.
  intros Hnow. revert state. induction matches as [|m r IH]; intros state; simpl.
  - tauto.
  - destruct (Handler.alreadyNotified state (Matching.matchKey m)) eqn:Em.
    + rewrite IH. split; [tauto|]. intros [H|[<-|H]]; auto.
    + specialize (IH (Handler.setNotified state (Matching.matchKey m) now)).
      destruct (Handler.collectUnseen r _ now) as [unseen state']. cbn [snd] in *.
      rewrite IH, (alreadyNotified_setNotified _ _ _ _ Hnow).
      rewrite orb_true_iff, String.eqb_eq. tauto.
Qed.

Lemma collectUnseen_unseen matches state now m :
  JS.isEmpty now = false ->
  In m (Handler.collectUnseen matches state now).1 ->
  In m matches /\ Handler.alreadyNotified state (Matching.matchKey m) = false.
Proof.
  intros Hnow. revert state. induction matches as [|x r IH]; intros state; simpl; [tauto|].
  destruct (Handler.alreadyNotified state (Matching.matchKey x)) eqn:Ex.
  - intros H. destruct (IH _ H) as [Hin Hm]. auto.
  - specialize (IH (Handler.setNotified state (Matching.matchKey x) now)).
    destruct (Handler.collectUnseen r _ now) as [unseen state']. cbn [fst] in *.
    intros [<-|H]; [auto|].
    destruct (IH H) as [Hin Hm]. split; [auto|].
    rewrite (alreadyNotified_setNotified _ _ _ _ Hnow) in Hm.
    apply orb_false_iff in Hm as [Hm _]. exact Hm.
Qed.

(** The loop over the matches reports each de-duplication key once: the
    reported matches are a sublist of the matches, none of them was
    notified before, no two share a key, every match not reported shares
    its key with an earlier notification or report, and afterwards the
    table holds the keys it held together with the keys of all the
    matches. *)
Theorem one_alert_per_match_key matches state nowIso :
  JS.isEmpty nowIso = false ->
  let unseen := (Handler.collectUnseen matches state nowIso).1 in
  let state' := (Handler.collectUnseen matches state nowIso).2 in
  sublist unseen matches
  /\ NoDup (map Matching.matchKey unseen)
  /\ (forall m, In m unseen ->
                Handler.alreadyNotified state (Matching.matchKey m) = false)
  /\ (forall m, In m matches ->
                Handler.alreadyNotified state (Matching.matchKey m) = true
                \/ In (Matching.matchKey m) (map Matching.matchKey unseen))
  /\ (forall key,
         Handler.alreadyNotified state' key = true
         <-> Handler.alreadyNotified state key = true
             \/ In key (map Matching.matchKey matches)).
Proof.
  intros Hnow unseen state'. subst unseen state'.
  split; [|split; [|split; [|split]]].
  - revert state. induction matches as [|m r IH]; intros state; simpl; [constructor|].
    destruct (Handler.alreadyNotified state (Matching.matchKey m)).
    + apply sublist_cons, IH.
    + specialize (IH (Handler.setNotified state (Matching.matchKey m) nowIso)).
      destruct (Handler.collectUnseen r _ nowIso) as [unseen state']. cbn [fst] in *.
      apply sublist_skip, IH.
  - revert state. induction matches as [|m r IH]; intros state; simpl; [constructor|].
    destruct (Handler.alreadyNotified state (Matching.matchKey m)) eqn:Em; [apply IH|].
    pose proof (collectUnseen_unseen r (Handler.setNotified state (Matching.matchKey m) nowIso)
                  nowIso) as Hu.
    specialize (IH (Handler.setNotified state (Matching.matchKey m) nowIso)).
    destruct (Handler.collectUnseen r _ nowIso) as [unseen state']. cbn [fst map] in *.
    constructor; [|exact IH].
    intros Hin. apply list_elem_of_In, in_map_iff in Hin as (m' & Hk & Hin).
    destruct (Hu m' Hnow Hin) as [_ Hm'].
    rewrite (alreadyNotified_setNotified _ _ _ _ Hnow), Hk, String.eqb_refl, orb_true_r in Hm'.
    discriminate Hm'.
  - intros m Hin. apply (collectUnseen_unseen matches state nowIso m Hnow Hin).
  - revert state. induction matches as [|x r IH]; intros state m; simpl; [tauto|].
    destruct (Handler.alreadyNotified state (Matching.matchKey x)) eqn:Ex.
    + intros [<-|Hin]; [left; exact Ex|]. apply IH, Hin.
    + specialize (IH (Handler.setNotified state (Matching.matchKey x) nowIso) m).
      destruct (Handler.collectUnseen r _ nowIso) as [unseen state']. cbn [fst map] in *.
      intros [<-|Hin]; [right; left; reflexivity|].
      destruct (IH Hin) as [H|H]; [|right; right; exact H].
      rewrite (alreadyNotified_setNotified _ _ _ _ Hnow) in H.
      apply orb_prop in H as [H|H]; [left; exact H|].
      apply String.eqb_eq in H. right. left. exact H.
  - intros key. apply collectUnseen_table, Hnow.
Qed.

(** The theorem at a list that holds the same match twice. *)
Lemma one_alert_per_match_key_witness :
  NoDup (map Matching.matchKey
           (Handler.collectUnseen [Samples.testMatch; Samples.testMatch] State.DEFAULT_STATE
              "2026-02-08T12:00:00.000Z").1).
Proof.
  exact (proj1 (proj2 (one_alert_per_match_key [Samples.testMatch; Samples.testMatch]
                         State.DEFAULT_STATE "2026-02-08T12:00:00.000Z"
                         ltac:(reflexivity)))).
Defined.

(* ===================================================================== *)
(** ** Names, lists of strings and matches *)
(* ===================================================================== *)

Lemma uniqueFrom_NoDup seen values : NoDup (JS.uniqueFrom seen values).
Proof.
  revert seen. induction values as [|v r IH]; intros seen; simpl; [constructor|].
  destruct (existsb (String.eqb v) seen) eqn:E; [apply IH|].
  constructor; [|apply IH].
  rewrite list_elem_of_In, uniqueFrom_In. intros [_ H]. apply H. left. reflexivity.
Qed.

Lemma uniqueFrom_sublist seen values : sublist (JS.uniqueFrom seen values) values.
Proof.
  revert seen. induction values as [|v r IH]; intros seen; simpl; [constructor|].
  destruct (existsb (String.eqb v) seen); [apply sublist_cons, IH|apply sublist_skip, IH].
Qed.

Lemma uniqueFrom_fresh seen values :
  NoDup values -> (forall x, In x values -> ~ In x seen) ->
  JS.uniqueFrom seen values = values.
Proof.
  revert seen. induction values as [|v r IH]; intros seen Hn Hs; simpl; [reflexivity|].
  apply NoDup_cons in Hn as [Hv Hr].
  destruct (existsb (String.eqb v) seen) eqn:E.
  - apply existsb_eqb_In in E. exfalso. apply (Hs v); [left; reflexivity|exact E].
  - f_equal. apply IH; [exact Hr|].
    intros x Hx [<-|Hin].
    + apply Hv, list_elem_of_In, Hx.
    + apply (Hs x); [right; exact Hx|exact Hin].
Qed.

(** [uniqueStrings] keeps the first occurrence of every string, in
    order: the result has no duplicate and the same elements, is a sublist
    of the argument that starts with the same string, and a list without
    duplicates is returned as it is. *)
Theorem uniqueStrings_keeps_first_occurrences (values : list string) :
  NoDup (uniqueStrings values)
  /\ (forall x, In x (uniqueStrings values) <-> In x values)
  /\ sublist (uniqueStrings values) values
  /\ hd_error (uniqueStrings values) = hd_error values
  /\ (NoDup values -> uniqueStrings values = values)
  /\ uniqueStrings (uniqueStrings values) = uniqueStrings values.
Proof.
  assert (Hfix : forall l, NoDup l -> uniqueStrings l = l).
  { intros l Hl. apply uniqueFrom_fresh; [exact Hl|]. intros x _ []. }
  split; [apply uniqueFrom_NoDup|]. split; [apply uniqueStrings_In|].
  split; [apply uniqueFrom_sublist|]. split; [destruct values; reflexivity|].
  split; [apply Hfix|]. apply Hfix, uniqueFrom_NoDup.
Qed.

Lemma space_upper c : JS.isWhiteSpace (JS.upperChar c) = JS.isWhiteSpace c.
Proof. destruct c as [[] [] [] [] [] [] [] []]; reflexivity. Qed.

Lemma space_lower c : JS.isWhiteSpace (JS.lowerChar c) = JS.isWhiteSpace c.
Proof. destruct c as [[] [] [] [] [] [] [] []]; reflexivity. Qed.

Lemma lower_upper c : JS.lowerChar (JS.upperChar c) = JS.lowerChar c.
Proof. destruct c as [[] [] [] [] [] [] [] []]; reflexivity. Qed.

Lemma lower_lower c : JS.lowerChar (JS.lowerChar c) = JS.lowerChar c.
Proof. destruct c as [[] [] [] [] [] [] [] []]; reflexivity. Qed.

Lemma trimStart_mapChars f s :
  (forall c, JS.isWhiteSpace (f c) = JS.isWhiteSpace c) ->
  JS.trimStart (JS.mapChars f s) = JS.mapChars f (JS.trimStart s).
Proof.
  intros Hf. induction s as [|c s IH]; [reflexivity|]. simpl. rewrite Hf.
  destruct (JS.isWhiteSpace c); [exact IH|reflexivity].
Qed.

Lemma trimEnd_mapChars f s :
  (forall c, JS.isWhiteSpace (f c) = JS.isWhiteSpace c) ->
  JS.trimEnd (JS.mapChars f s) = JS.mapChars f (JS.trimEnd s).
Proof.
  intros Hf. induction s as [|c s IH]; [reflexivity|]. simpl. rewrite Hf, IH.
  destruct (JS.trimEnd s); destruct (JS.isWhiteSpace c); reflexivity.
Qed.

Lemma trim_mapChars f s :
  (forall c, JS.isWhiteSpace (f c) = JS.isWhiteSpace c) ->
  JS.trim (JS.mapChars f s) = JS.mapChars f (JS.trim s).
Proof.
  intros Hf. unfold JS.trim. rewrite trimStart_mapChars, trimEnd_mapChars by exact Hf.
  reflexivity.
Qed.

Lemma mapChars_compose f g h s :
  (forall c, f (g c) = h c) -> JS.mapChars f (JS.mapChars g s) = JS.mapChars h s.
Proof.
  intros H. induction s as [|c s IH]; [reflexivity|]. simpl. rewrite H, IH. reflexivity.
Qed.

Lemma trimStart_blank left s : isBlank left = true -> JS.trimStart (left +:+ s) = JS.trimStart s.
Proof.
  unfold isBlank, allChars. induction left as [|c l IH]; appends; [reflexivity|].
  simpl. intros H. apply andb_prop in H as [Hc Hl]. rewrite Hc. apply IH, Hl.
Qed.

Lemma trimEnd_blank_only right : isBlank right = true -> JS.trimEnd right = EmptyString.
Proof.
  unfold isBlank, allChars. induction right as [|c r IH]; [reflexivity|].
  simpl. intros H. apply andb_prop in H as [Hc Hr]. rewrite Hc, (IH Hr). reflexivity.
Qed.

Lemma trimEnd_blank s right : isBlank right = true -> JS.trimEnd (s +:+ right) = JS.trimEnd s.
Proof.
  intros H. induction s as [|c s IH]; appends.
  - apply trimEnd_blank_only, H.
  - simpl. rewrite IH. reflexivity.
Qed.

Lemma trimStart_append s right :
  JS.trimStart s <> EmptyString -> JS.trimStart (s +:+ right) = JS.trimStart s +:+ right.
Proof.
  induction s as [|c s IH]; [intros []; reflexivity|]. appends. simpl.
  destruct (JS.isWhiteSpace c); [exact IH|reflexivity].
Qed.

Lemma trim_padded left s right :
  isBlank left = true -> isBlank right = true ->
  JS.trim (left +:+ s +:+ right) = JS.trim s.
Proof.
  intros Hl Hr. unfold JS.trim. rewrite (trimStart_blank _ _ Hl).
  destruct (JS.trimStart s) as [|c t] eqn:Es.
  - assert (isBlank s = true) as Hs.
    { clear - Es. unfold isBlank, allChars. induction s as [|c s IH]; [reflexivity|].
      simpl in *. destruct (JS.isWhiteSpace c); [apply IH, Es|discriminate Es]. }
    assert (isBlank (s +:+ right) = true) as Hsr.
    { unfold isBlank in *. rewrite allChars_app, Hs, Hr. reflexivity. }
    assert (JS.trimStart (s +:+ right) = EmptyString) as ->; [|reflexivity].
    clear - Hsr. unfold isBlank, allChars in Hsr.
    induction (s +:+ right) as [|c k IH]; [reflexivity|].
    simpl in *. apply andb_prop in Hsr as [Hc Hk]. rewrite Hc. apply IH, Hk.
  - rewrite trimStart_append by (rewrite Es; discriminate).
    rewrite Es. apply trimEnd_blank, Hr.
Qed.

(** Skill names are compared after trimming and lower-casing: the
    normal form is stable, and neither the case of the letters of a name
    within ASCII nor the white space around a name changes it, nor
    therefore whether a specifier matches a skill. *)
Theorem skill_names_compare_modulo_case_and_blanks :
  (forall s, normalizeSkillName (normalizeSkillName s) = normalizeSkillName s)
  /\ (forall s, isAscii s = true ->
                normalizeSkillName (JS.toUpperCase s) = normalizeSkillName s)
  /\ (forall left s right,
         isBlank left = true -> isBlank right = true ->
         normalizeSkillName (left +:+ s +:+ right) = normalizeSkillName s)
  /\ (forall rawSpecifier skill name,
         normalizeSkillName name = normalizeSkillName (InstalledSkill.name skill) ->
         Matching.affectedSpecifierMatchesSkill rawSpecifier
           (InstalledSkill.mk name (InstalledSkill.dirName skill) (InstalledSkill.version skill))
         = Matching.affectedSpecifierMatchesSkill rawSpecifier skill).
Proof.
  unfold normalizeSkillName, JS.toLowerCase, JS.toUpperCase. repeat split.
  - intros s. rewrite (trim_mapChars _ _ space_lower), trim_idempotent.
    apply mapChars_compose, lower_lower.
  - intros s _. rewrite (trim_mapChars _ _ space_upper).
    apply mapChars_compose, lower_upper.
  - intros left s right Hl Hr. rewrite (trim_padded _ _ _ Hl Hr). reflexivity.
  - intros rawSpecifier skill name Hn. unfold Matching.affectedSpecifierMatchesSkill.
    cbn [InstalledSkill.name InstalledSkill.version].
    unfold normalizeSkillName, JS.toLowerCase. rewrite Hn. reflexivity.
Qed.

Lemma advisoryMatchesSkill_In advisory skill specifier :
  In specifier (Matching.advisoryMatchesSkill advisory skill)
  <-> In specifier (default [] (Advisory.affected advisory))
      /\ Matching.affectedSpecifierMatchesSkill specifier skill = true.
Proof.
  unfold Matching.advisoryMatchesSkill. rewrite uniqueStrings_In, filter_In. reflexivity.
Qed.

Lemma length_zero {A} (l : list A) : Nat.eqb (length l) 0 = true <-> l = [].
Proof. destruct l; simpl; split; congruence. Qed.

(** [findMatches] reports an advisory against an installed skill exactly
    when one of the advisory's affected specifiers names the skill at a
    version that matches; the match lists those specifiers, each once. *)
Theorem matches_are_the_affected_installed_skills feed skills :
  (forall m,
      In m (Matching.findMatches feed skills)
      <-> In (AdvisoryMatch.advisory m) (FeedPayload.advisories feed)
          /\ In (AdvisoryMatch.skill m) skills
          /\ AdvisoryMatch.matchedAffected m
             = Matching.advisoryMatchesSkill (AdvisoryMatch.advisory m) (AdvisoryMatch.skill m)
          /\ AdvisoryMatch.matchedAffected m <> [])
  /\ (forall advisory skill,
         NoDup (Matching.advisoryMatchesSkill advisory skill)
         /\ forall specifier,
              In specifier (Matching.advisoryMatchesSkill advisory skill)
              <-> In specifier (default [] (Advisory.affected advisory))
                  /\ Matching.affectedSpecifierMatchesSkill specifier skill = true)
  /\ (forall advisory skill,
         In advisory (FeedPayload.advisories feed) -> In skill skills ->
         (exists m, In m (Matching.findMatches feed skills)
                    /\ AdvisoryMatch.advisory m = advisory
                    /\ AdvisoryMatch.skill m = skill)
         <-> exists specifier,
               In specifier (default [] (Advisory.affected advisory))
               /\ Matching.affectedSpecifierMatchesSkill specifier skill = true).
Proof.
  assert (Hin : forall m,
             In m (Matching.findMatches feed skills)
             <-> In (AdvisoryMatch.advisory m) (FeedPayload.advisories feed)
                 /\ In (AdvisoryMatch.skill m) skills
                 /\ AdvisoryMatch.matchedAffected m
                    = Matching.advisoryMatchesSkill (AdvisoryMatch.advisory m)
                        (AdvisoryMatch.skill m)
                 /\ AdvisoryMatch.matchedAffected m <> []).
  { intros m. unfold Matching.findMatches. rewrite in_flat_map. split.
    - intros (advisory & Ha & H).
      destruct (Nat.eqb (length (default [] (Advisory.affected advisory))) 0); [destruct H|].
      apply in_flat_map in H as (skill & Hs & H).
      destruct (Nat.eqb (length (Matching.advisoryMatchesSkill advisory skill)) 0) eqn:El;
        [destruct H|].
      destruct H as [<-|[]]. cbn. repeat split; try assumption.
      intros E. rewrite E in El. discriminate El.
    - intros (Ha & Hs & Hm & Hne). exists (AdvisoryMatch.advisory m). split; [exact Ha|].
      destruct (Nat.eqb (length (default [] (Advisory.affected (AdvisoryMatch.advisory m)))) 0)
        eqn:El.
      + exfalso. apply Hne. rewrite Hm. apply length_zero in El.
        unfold Matching.advisoryMatchesSkill. rewrite El. reflexivity.
      + apply in_flat_map. exists (AdvisoryMatch.skill m). split; [exact Hs|].
        rewrite <- Hm.
        destruct (Nat.eqb (length (AdvisoryMatch.matchedAffected m)) 0) eqn:Em.
        * apply length_zero in Em. contradiction.
        * left. destruct m. reflexivity. }
  split; [exact Hin|]. split.
  - intros advisory skill. split; [apply uniqueFrom_NoDup|].
    intros specifier. apply advisoryMatchesSkill_In.
  - intros advisory skill Ha Hs. split.
    + intros (m & Hm & <- & <-). apply Hin in Hm as (_ & _ & Hl & Hne).
      destruct (AdvisoryMatch.matchedAffected m) as [|specifier rest] eqn:E; [contradiction|].
      exists specifier. apply advisoryMatchesSkill_In. rewrite <- Hl. left. reflexivity.
    + intros (specifier & Hin1 & Hin2).
      exists (AdvisoryMatch.mk advisory skill (Matching.advisoryMatchesSkill advisory skill)).
      split; [|split; reflexivity]. apply Hin. cbn. repeat split; try assumption.
      intros E. assert (In specifier (Matching.advisoryMatchesSkill advisory skill)) as H
          by (apply advisoryMatchesSkill_In; split; assumption).
      rewrite E in H. destruct H.
Qed.

(** [discoverInstalledSkills] gives one skill for each directory of the
    install root, in the order of the listing, and none when the root
    cannot be read.  The skill of a directory has the name and the version
    that the [skill.json] of the directory gives as strings that are not
    blank, trimmed; where the file cannot be read or parsed, is no object,
    or gives no such string, the name is the name of the directory and the
    version is "unknown".  So no version is absent or empty. *)
Theorem discovery_lists_the_directories w installRoot :
  (readdir w installRoot = None -> Matching.discoverInstalledSkills w installRoot = [])
  /\ (forall entries,
         readdir w installRoot = Some entries ->
         map InstalledSkill.dirName (Matching.discoverInstalledSkills w installRoot)
         = map entryName (List.filter isDirectory entries))
  /\ (forall entries entry,
         readdir w installRoot = Some entries ->
         In entry entries -> isDirectory entry = true ->
         let manifest :=
           match readFile w (pathJoin w [pathJoin w [installRoot; entryName entry];
                                        "skill.json"]) with
           | Some rawSkillJson => jsonParse w rawSkillJson
           | None => None
           end in
         let given (property : string) :=
           match manifest with
           | Some (JObj properties) =>
               match objGet property properties with
               | Some (JStr text) =>
                   if JS.isEmpty (JS.trim text) then None else Some (JS.trim text)
               | _ => None
               end
           | _ => None
           end in
         In (InstalledSkill.mk (default (entryName entry) (given "name"))
                               (entryName entry)
                               (Some (default "unknown" (given "version"))))
            (Matching.discoverInstalledSkills w installRoot))
  /\ (forall skill,
         In skill (Matching.discoverInstalledSkills w installRoot) ->
         exists version, InstalledSkill.version skill = Some version
                         /\ version <> EmptyString)
  /\ (forall entries entry,
         readdir w installRoot = Some entries ->
         In entry entries -> isDirectory entry = true ->
         readFile w (pathJoin w [pathJoin w [installRoot; entryName entry]; "skill.json"])
         = None ->
         In (InstalledSkill.mk (entryName entry) (entryName entry) (Some "unknown"))
            (Matching.discoverInstalledSkills w installRoot)).
Proof.
  assert (Hfilled : forall name j text,
             Matching.filledProp name j = Some text ->
             text <> EmptyString /\ JS.trim text = text).
  { intros name j text. unfold Matching.filledProp.
    destruct (isObject j); [|discriminate].
    destruct (propString name j) as [s|]; [|discriminate].
    unfold Feed.truthy. destruct (JS.isEmpty (JS.trim s)) eqn:E; [discriminate|].
    intros [= <-]. split; [intros H; rewrite H in E; discriminate E|apply trim_idempotent]. }
  assert (Hgiven : forall name j,
             Matching.filledProp name j
             = match j with
               | JObj properties =>
                   match objGet name properties with
                   | Some (JStr text) =>
                       if JS.isEmpty (JS.trim text) then None else Some (JS.trim text)
                   | _ => None
                   end
               | _ => None
               end).
  { intros name j. unfold Matching.filledProp, propString, prop, Feed.truthy.
    destruct j as [| | | |items|properties]; try reflexivity.
    destruct (objGet name properties) as [[]|]; reflexivity. }
  unfold Matching.discoverInstalledSkills. split; [intros ->; reflexivity|].
  split; [|split; [|split]].
  - intros entries ->. induction entries as [|e r IH]; [reflexivity|].
    cbn [flat_map List.filter]. rewrite map_app, IH.
    destruct (isDirectory e); reflexivity.
  - intros entries entry -> Hin Hdir. apply in_flat_map. exists entry.
    split; [exact Hin|]. rewrite Hdir. cbn [negb]. left.
    destruct (readFile w _) as [rawSkillJson|]; [|reflexivity].
    destruct (jsonParse w rawSkillJson) as [j|]; [|reflexivity].
    rewrite !Hgiven. destruct j; reflexivity.
  - intros skill. destruct (readdir w installRoot) as [entries|]; [|intros []].
    rewrite in_flat_map. intros (entry & _ & H).
    destruct (isDirectory entry); [|destruct H]. destruct H as [<-|[]].
    cbn [InstalledSkill.version].
    match goal with
    | |- context [match ?p with Some j => default _ (Matching.filledProp "version" j) | None => _ end] =>
        destruct p as [j|]
    end; [|exists "unknown"; split; [reflexivity|discriminate]].
    destruct (Matching.filledProp "version" j) as [v|] eqn:Ev.
    + exists v. split; [reflexivity|]. apply (Hfilled _ _ _ Ev).
    + exists "unknown". split; [reflexivity|discriminate].
  - intros entries entry -> Hin Hdir Hfile. apply in_flat_map. exists entry.
    split; [exact Hin|]. rewrite Hdir, Hfile. left. reflexivity.
Qed.

(** The theorem at the skill directory of the hook's machine, whose
    [skill.json] names the skill and its version. *)
Lemma discovery_lists_the_directories_witness :
  In (InstalledSkill.mk "test-skill" "test-skill" (Some "1.0.0"))
     (Matching.discoverInstalledSkills (Fixtures.world Fixtures.hooked)
        "/home/agent/.openclaw/skills").
Proof.
  exact (proj1 (proj2 (proj2 (discovery_lists_the_directories
                                (Fixtures.world Fixtures.hooked)
                                "/home/agent/.openclaw/skills")))
           [mkDirent "test-skill" true] (mkDirent "test-skill" true)
           eq_refl (or_introl eq_refl) eq_refl).
Defined.




(* ===================================================================== *)
(** ** The state file: normal forms and round trips *)
(* ===================================================================== *)

Lemma filter_all {A} (f : A -> bool) l : (forall x, In x l -> f x = true) -> List.filter f l = l.
Proof.
  induction l as [|x r IH]; [reflexivity|]. intros H. simpl.
  rewrite (H x) by (left; reflexivity). f_equal. apply IH. intros y Hy. apply H. right. exact Hy.
Qed.

Lemma normalizeState_known_NoDup raw :
  NoDup (AdvisoryState.known_advisories (State.normalizeState raw)).
Proof.
  unfold State.normalizeState. destruct (isObject raw); cbn; [|constructor].
  destruct (prop "known_advisories" raw) as [[]|]; try constructor. apply uniqueFrom_NoDup.
Qed.

Lemma normalizeState_fixed state :
  AdvisoryState.schema_version state = "1.1" ->
  NoDup (AdvisoryState.known_advisories state) ->
  (forall id, In id (AdvisoryState.known_advisories state) -> State.isFilled id = true) ->
  allFilled (AdvisoryState.notified_matches state) ->
  plainTable (AdvisoryState.notified_matches state) ->
  State.normalizeState (State.stateToJson state) = state.
Proof.
  intros Hv Hn Hf Ha Hp.
  pose proof (known_normalize_stateToJson state) as Hk.
  rewrite (filter_all _ _ Hf) in Hk.
  unfold uniqueStrings in Hk. rewrite (uniqueFrom_fresh [] _ Hn) in Hk by (intros x _ []).
  pose proof (notified_roundtrip state Ha Hp) as Hm.
  destruct state as [v known check updated scan table]. cbn in Hv. subst v.
  cbn in Hk, Hm |- *. unfold State.normalizeState. cbn [isObject negb State.stateToJson].
  change (prop "known_advisories" (State.stateToJson (AdvisoryState.mk "1.1" known check updated scan table)))
    with (Some (JArr (map JStr known))) in Hk.
  f_equal.
  - exact Hk.
  - destruct check; reflexivity.
  - destruct updated; reflexivity.
  - destruct scan; reflexivity.
  - exact Hm.
Qed.

Lemma normalizeState_stable raw :
  State.normalizeState (State.stateToJson (State.normalizeState raw)) = State.normalizeState raw.
Proof.
  apply normalizeState_fixed.
  - unfold State.normalizeState. destruct (isObject raw); reflexivity.
  - apply normalizeState_known_NoDup.
  - apply known_filled.
  - apply normalizeState_allFilled.
  - apply normalizeState_plain.
Qed.

(** What [normalizeState] makes of an object is in normal form: schema
    version 1.1, advisory ids without duplicate or blank, time stamps of
    the table filled; writing it and normalizing the text read back gives
    it again. *)
Theorem normalized_states_are_stable (raw : json) :
  isObject raw = true ->
  let state := State.normalizeState raw in
  AdvisoryState.schema_version state = "1.1"
  /\ NoDup (AdvisoryState.known_advisories state)
  /\ (forall id, In id (AdvisoryState.known_advisories state) -> State.isFilled id = true)
  /\ allFilled (AdvisoryState.notified_matches state)
  /\ State.normalizeState (State.stateToJson state) = state.
Proof.
  intros Hobject state. subst state.
  split; [unfold State.normalizeState; rewrite Hobject; reflexivity|].
  split; [apply normalizeState_known_NoDup|]. split; [apply known_filled|].
  split; [apply normalizeState_allFilled|apply normalizeState_stable].
Qed.

(** The theorem at a state file of an older schema that lists an advisory
    twice, and a blank one. *)
Lemma normalized_states_are_stable_witness :
  AdvisoryState.schema_version (State.normalizeState Samples.staleStateJson) = "1.1"
  /\ AdvisoryState.known_advisories (State.normalizeState Samples.staleStateJson)
     = ["TEST-001"].
Proof.
  destruct (normalized_states_are_stable Samples.staleStateJson eq_refl)
    as (Hversion & _).
  split; [exact Hversion|reflexivity].
Defined.

(** After [persistState] has written, [loadState] returns the normal form
    of the state that was handed over, hence that state when it came from
    [normalizeState]; a write that the file system refuses throws and
    leaves the machine as it was. *)
Theorem persisted_state_is_read_back w path state s :
  (persistFaults w <> WriteFails ->
   (State.loadState (State.persistState w path state s).2).1
   = Done (State.normalizeState (State.stateToJson state))
   /\ (forall raw, state = State.normalizeState raw ->
                   (State.loadState (State.persistState w path state s).2).1 = Done state))
  /\ (persistFaults w = WriteFails ->
      exists e, State.persistState w path state s = (Thrown e, s)).
Proof.
  pose proof (persistState_cases w path state s) as Hc. split.
  - intros Hw.
    assert (Hfile : stateFile (State.persistState w path state s).2 = Some (written state)).
    { destruct (persistFaults w); [|congruence| |];
        destruct Hc as (o & evs & -> & _); reflexivity. }
    assert (Hload : (State.loadState (State.persistState w path state s).2).1
                    = Done (State.normalizeState (State.stateToJson state))).
    { unfold State.loadState. cbn [fst]. rewrite Hfile. unfold written. f_equal.
      apply normalizeState_stable. }
    split; [exact Hload|]. intros raw ->. rewrite Hload. f_equal.
    apply normalizeState_stable.
  - intros Hw. rewrite Hw in Hc. exact Hc.
Qed.

(* ===================================================================== *)
(** ** The guarded installer: when the install command runs *)
(* ===================================================================== *)

Section Installer.

Import GuardedInstall.

Lemma quiet_stdout text : ~ isSpawn (Stdout text).
Proof. intros [c [=]]. Qed.

Lemma quiet_stderr text : ~ isSpawn (Stderr text).
Proof. intros [c [=]]. Qed.

Lemma parseTokens_frame argv parsed s :
  exists evs, (parseTokens argv parsed s).2 = extended s evs /\ Forall (fun ev => ~ isSpawn ev) evs.
Proof.
  remember (length argv) as n eqn:Hn.
  assert (Hle : (length argv <= n)%nat) by lia. clear Hn.
  revert argv parsed Hle. induction n as [|n IH]; intros argv parsed Hle.
  - destruct argv; [|simpl in Hle; lia]. exists []. rewrite extended_nil. split; [reflexivity|constructor].
  - destruct argv as [|token rest]; simpl in *;
      [exists []; rewrite extended_nil; split; [reflexivity|constructor]|].
    repeat match goal with |- context [if ?b then _ else _] => destruct b end;
      try (destruct rest as [|value rest'];
           [exists []; rewrite extended_nil; split; [reflexivity|constructor]|]);
      try (apply IH; simpl in *; lia).
    + eexists [_]. split; [reflexivity|]. repeat constructor. apply quiet_stderr.
    + exists []. rewrite extended_nil. split; [reflexivity|constructor].
Qed.

Lemma parseArgs_frame argv s :
  exists evs, (parseArgs argv s).2 = extended s evs /\ Forall (fun ev => ~ isSpawn ev) evs.
Proof.
  unfold parseArgs, bind.
  destruct (parseTokens_frame argv (mkArgs EmptyString EmptyString false false) s)
    as (evs & Hs & Hq).
  destruct (parseTokens argv _ s) as [[parsed|e|n] s0]; cbn [snd] in *; subst s0;
    try (exists evs; split; [reflexivity|exact Hq]).
  destruct (JS.isEmpty (skill parsed)); [exists evs; split; [reflexivity|exact Hq]|].
  destruct (negb (isSkillName (skill parsed))); exists evs; split; solve [reflexivity|exact Hq].
Qed.

Lemma parseArgs_valid argv s args :
  (parseArgs argv s).1 = Done args -> isSkillName (skill args) = true.
Proof.
  unfold parseArgs, bind.
  destruct (parseTokens argv _ s) as [[parsed|e|n] s0]; try discriminate.
  destruct (JS.isEmpty (skill parsed)); [discriminate|].
  destruct (isSkillName (skill parsed)) eqn:E; [|discriminate].
  intros [= <-]. exact E.
Qed.

Lemma runInstall_run w skillName version s :
  runInstall w skillName version s
  = (match spawnSync w (installCommand skillName version) with
     | SpawnError message => Thrown (Error message)
     | SpawnStatus status =>
         if bool_decide (status = Some 0) then Done tt else Exited (default 1 status)
     end,
     extended s [Stdout ("Install target: "
                         +:+ (if JS.isEmpty version then skillName
                              else skillName +:+ "@" +:+ version) +:+ nl);
                 Spawned (installCommand skillName version)]).
Proof.
  unfold runInstall, bind, emit, extended. cbn [trace stateFile unsignedModeWarningShown].
  rewrite <- app_assoc. cbn [app].
  destruct (spawnSync w _) as [message|status]; [reflexivity|].
  destruct (bool_decide (status = Some 0)); reflexivity.
Qed.

(** The three ways [main] can go once the arguments are parsed and the
    feed is loaded. *)
Lemma main_run w argv args loaded (s : Sys) :
  (parseArgs argv s).1 = Done args ->
  (loadFeed w s).1 = Done loaded ->
  let open := negb (Nat.ltb 0 (length (findMatches loaded.1 (skill args) (version args))))
              || confirmAdvisory args in
  exists evs,
    Forall (fun ev => ~ isSpawn ev) evs
    /\ main w argv s
       = if open then
           if dryRun args then (Done tt, extended s evs)
           else runInstall w (skill args) (version args) (extended s evs)
         else (Exited EXIT_CONFIRM_REQUIRED, extended s evs).
Proof.
  intros Hparse Hload open. subst open.
  unfold main, bind.
  destruct (parseArgs argv s) as [o0 s0] eqn:Ep. cbn [fst] in Hparse. subst o0.
  apply parseArgs_Done in Ep as ->.
  destruct (loadFeed_frame_guard w s) as (evs & Hs1 & Hspawn).
  destruct (loadFeed w s) as [o1 s1] eqn:El. cbn [fst snd] in Hload, Hs1. subst o1 s1.
  cbv beta iota.
  assert (Hnote : exists nevs,
             (forall s' : Sys,
                (if JS.isEmpty (version args)
                 then emit (Stdout ("No --version provided. Conservatively matching any advisory for the requested skill name." +:+ nl))
                 else ret tt) s'
                = (Done tt, extended s' nevs))
             /\ Forall (fun ev => ~ isSpawn ev) nevs).
  { destruct (JS.isEmpty (version args)).
    - eexists [_]. split; [reflexivity|]. repeat constructor. apply quiet_stdout.
    - exists []. split; [|constructor]. intros s'. rewrite extended_nil. reflexivity. }
  destruct Hnote as (nevs & Hnote & Hnevs).
  assert (Hrisk : exists revs,
             (forall s' : Sys,
                (if existsb (fun entry => advisoryLooksHighRisk (advisory entry))
                      (findMatches loaded.1 (skill args) (version args))
                 then emit (Stdout ("High-risk advisory context acknowledged. Proceeding only because --confirm-advisory was provided." +:+ nl))
                 else ret tt) s'
                = (Done tt, extended s' revs))
             /\ Forall (fun ev => ~ isSpawn ev) revs).
  { destruct (existsb _ _).
    - eexists [_]. split; [reflexivity|]. repeat constructor. apply quiet_stdout.
    - exists []. split; [|constructor]. intros s'. rewrite extended_nil. reflexivity. }
  destruct Hrisk as (revs & Hrisk & Hrevs).
  unfold emit at 1. cbv beta iota. rewrite Hnote. cbv beta iota.
  change (mkSys (trace (extended s evs) ++ [Stdout ("Advisory source: " +:+ loaded.2 +:+ nl)])
            (stateFile (extended s evs)) (unsignedModeWarningShown (extended s evs)))
    with (extended (extended s evs) [Stdout ("Advisory source: " +:+ loaded.2 +:+ nl)]).
  destruct (Nat.ltb 0 (length (findMatches loaded.1 (skill args) (version args)))) eqn:Hlen;
    cbn [negb orb].
  - rewrite printMatches_run. cbv beta iota. unfold emit. cbv beta iota.
    destruct (confirmAdvisory args); cbn [negb]; cbv beta iota.
    + destruct (dryRun args).
      * eexists. split; [|unfold ret, extended; cbn [trace stateFile unsignedModeWarningShown];
                          rewrite <- !app_assoc; reflexivity].
        repeat (apply Forall_app; split); try assumption;
          try (apply Forall_forall; intros ev Hev;
               apply list_elem_of_In, in_map_iff in Hev as (t & <- & _); apply quiet_stdout);
          repeat constructor; apply quiet_stdout.
      * unfold ret. cbv beta iota. rewrite Hrisk. cbv beta iota.
        eexists. split; [|f_equal; unfold extended;
                          cbn [trace stateFile unsignedModeWarningShown];
                          rewrite <- !app_assoc; reflexivity].
        repeat (apply Forall_app; split); try assumption;
          try (apply Forall_forall; intros ev Hev;
               apply list_elem_of_In, in_map_iff in Hev as (t & <- & _); apply quiet_stdout);
          repeat constructor; apply quiet_stdout.
    + eexists. split; [|unfold exit, extended; cbn [trace stateFile unsignedModeWarningShown];
                        rewrite <- !app_assoc; reflexivity].
      repeat (apply Forall_app; split); try assumption;
        try (apply Forall_forall; intros ev Hev;
             apply list_elem_of_In, in_map_iff in Hev as (t & <- & _); apply quiet_stdout);
        repeat constructor; apply quiet_stdout.
  - unfold ret at 1. cbv beta iota. destruct (dryRun args).
    + unfold emit. eexists. split; [|unfold extended;
                                      cbn [trace stateFile unsignedModeWarningShown];
                                      rewrite <- !app_assoc; reflexivity].
      repeat (apply Forall_app; split); try assumption; repeat constructor; apply quiet_stdout.
    + rewrite Hrisk. cbv beta iota.
      eexists. split; [|f_equal; unfold extended;
                        cbn [trace stateFile unsignedModeWarningShown];
                        rewrite <- !app_assoc; reflexivity].
      repeat (apply Forall_app; split); try assumption; repeat constructor; apply quiet_stdout.
Qed.

Lemma main_frame w argv (s : Sys) :
  exists evs,
    (main w argv s).2 = extended s evs
    /\ forall command,
         In (Spawned command) evs ->
         exists args loaded,
           (parseArgs argv s).1 = Done args
           /\ (loadFeed w s).1 = Done loaded
           /\ (findMatches loaded.1 (skill args) (version args) = []
               \/ confirmAdvisory args = true)
           /\ dryRun args = false
           /\ isSkillName (skill args) = true
           /\ command = installCommand (skill args) (version args).
Proof.
  assert (Hquiet : forall evs command,
             Forall (fun ev => ~ isSpawn ev) evs -> ~ In (Spawned command) evs).
  { intros evs command Hq Hin. rewrite Forall_forall in Hq.
    apply (Hq _ (proj2 (list_elem_of_In _ _) Hin)). eexists. reflexivity. }
  destruct (parseArgs argv s) as [[args|e|n] s0] eqn:Ep.
  2,3: destruct (parseArgs_frame argv s) as (evs & Hs & Hq); rewrite Ep in Hs; cbn [snd] in Hs;
       exists evs; unfold main, bind; rewrite Ep; cbn [snd]; split; [exact Hs|];
       intros command Hin; destruct (Hquiet _ _ Hq Hin).
  pose proof (parseArgs_valid argv s args ltac:(rewrite Ep; reflexivity)) as Hvalid.
  pose proof Ep as Es. apply parseArgs_Done in Es. subst s0.
  destruct (loadFeed w s) as [[loaded|e|n] s1] eqn:El.
  2,3: destruct (loadFeed_frame_guard w s) as (evs & Hs & Hq); rewrite El in Hs; cbn [snd] in Hs;
       exists evs; unfold main, bind; rewrite Ep, El; cbn [snd]; split; [exact Hs|];
       intros command Hin; destruct (Hquiet _ _ Hq Hin).
  destruct (main_run w argv args loaded s ltac:(rewrite Ep; reflexivity)
              ltac:(rewrite El; reflexivity)) as (evs & Hq & Hrun).
  rewrite Hrun.
  destruct (negb (Nat.ltb 0 (length (findMatches loaded.1 (skill args) (version args))))
            || confirmAdvisory args) eqn:Hopen.
  2:{ exists evs. split; [reflexivity|]. intros command Hin. destruct (Hquiet _ _ Hq Hin). }
  destruct (dryRun args) eqn:Hdry.
  { exists evs. split; [reflexivity|]. intros command Hin. destruct (Hquiet _ _ Hq Hin). }
  rewrite runInstall_run. cbn [snd]. rewrite extended_app. eexists. split; [reflexivity|].
  intros command Hin. apply in_app_or in Hin as [Hin|Hin]; [destruct (Hquiet _ _ Hq Hin)|].
  destruct Hin as [Hin|[Hin|[]]]; [discriminate Hin|]. injection Hin as <-.
  exists args, loaded. split; [reflexivity|]. split; [reflexivity|].
  split; [|split; [exact Hdry|split; [exact Hvalid|reflexivity]]].
  apply orb_prop in Hopen as [Hopen|Hopen]; [left|right; exact Hopen].
  destruct (findMatches _ _ _); [reflexivity|discriminate Hopen].
Qed.

Lemma script_frame w argv (s : Sys) :
  exists tail,
    (script w argv s).2 = extended (main w argv s).2 tail
    /\ Forall (fun ev => ~ isSpawn ev) tail.
Proof.
  unfold script, tryCatch.
  destruct (main w argv s) as [[[]|e|n] s1]; cbn [snd].
  - exists []. rewrite extended_nil. split; [reflexivity|constructor].
  - eexists [_]. split; [reflexivity|]. repeat constructor. apply quiet_stderr.
  - exists []. rewrite extended_nil. split; [reflexivity|constructor].
Qed.

(** The install command is spawned only behind the advisory check: the arguments
    were accepted (so the skill name is made of lower-case letters, digits
    and hyphens), a feed was loaded, no advisory matched or the user
    confirmed, and the run is not a dry run; what is spawned is then the
    one install command for the requested target. *)
Theorem install_command_runs_only_behind_the_gate w argv (s : Sys) command :
  In (Spawned command) (since s (script w argv s).2) ->
  exists args loaded,
    (parseArgs argv s).1 = Done args
    /\ (loadFeed w s).1 = Done loaded
    /\ (findMatches loaded.1 (skill args) (version args) = []
        \/ confirmAdvisory args = true)
    /\ dryRun args = false
    /\ isSkillName (skill args) = true
    /\ command = installCommand (skill args) (version args).
Proof.
  destruct (script_frame w argv s) as (tail & Hs & Hq).
  destruct (main_frame w argv s) as (evs & Hm & Hspawn).
  rewrite Hs, Hm, extended_app, since_extended.
  intros Hin. apply in_app_or in Hin as [Hin|Hin]; [apply Hspawn, Hin|].
  exfalso. rewrite Forall_forall in Hq.
  apply (Hq _ (proj2 (list_elem_of_In _ _) Hin)). eexists. reflexivity.
Qed.

(** The theorem at a request for a skill that no advisory names. *)
Lemma install_command_runs_only_behind_the_gate_witness :
  exists args loaded,
    (GuardedInstall.parseArgs Samples.otherRequest (initial None)).1 = Done args
    /\ (GuardedInstall.loadFeed (Fixtures.world Fixtures.guarded) (initial None)).1 = Done loaded
    /\ GuardedInstall.dryRun args = false.
Proof.
  destruct (install_command_runs_only_behind_the_gate
              (Fixtures.world Fixtures.guarded) Samples.otherRequest (initial None)
              ["npx"; "clawhub@latest"; "install"; "other-skill"]
              ltac:(vm_compute; repeat (try (left; reflexivity); right)))
    as (args & loaded & Hparse & Hload & _ & Hdry & _).
  exists args, loaded. split; [exact Hparse|]. split; [exact Hload|exact Hdry].
Defined.



Lemma found_In feed skillName version entry :
  In entry (findMatches feed skillName version)
  <-> In (advisory entry) (FeedPayload.advisories feed)
      /\ matchedAffected entry
         = uniqueStrings
             (List.filter
                (fun specifier =>
                   if negb (JS.isEmpty version)
                   then affectedSpecifierMatches specifier skillName version
                   else affectedSpecifierMatchesWithoutVersion specifier skillName)
                (default [] (Advisory.affected (advisory entry))))
      /\ matchedAffected entry <> [].
Proof.
  unfold findMatches. rewrite in_flat_map. split.
  - intros (a & Ha & H).
    destruct (Nat.eqb (length (default [] (Advisory.affected a))) 0); [destruct H|].
    destruct (Nat.ltb 0 (length _)) eqn:El; [|destruct H].
    destruct H as [<-|[]]. cbn [advisory matchedAffected].
    split; [exact Ha|]. split; [reflexivity|].
    intros E. rewrite E in El. discriminate El.
  - intros (Ha & Hm & Hne). exists (advisory entry). split; [exact Ha|].
    destruct (Nat.eqb (length (default [] (Advisory.affected (advisory entry)))) 0) eqn:El.
    + exfalso. apply Hne. rewrite Hm. apply length_zero in El. rewrite El. reflexivity.
    + rewrite <- Hm. destruct (matchedAffected entry) eqn:Em; [contradiction|].
      left. destruct entry. cbn in *. rewrite Em. reflexivity.
Qed.

(** Leaving out [--version] hides no advisory: whatever matches the
    skill at some version matches it without one, with at least the same
    specifiers. *)
Theorem omitting_the_version_hides_no_advisory feed skillName version entry :
  In entry (findMatches feed skillName version) ->
  exists entry',
    In entry' (findMatches feed skillName EmptyString)
    /\ advisory entry' = advisory entry
    /\ incl (matchedAffected entry) (matchedAffected entry').
Proof.
  intros Hin. apply found_In in Hin as (Ha & Hm & Hne).
  set (wide := uniqueStrings
                 (List.filter
                    (fun specifier => affectedSpecifierMatchesWithoutVersion specifier skillName)
                    (default [] (Advisory.affected (advisory entry))))).
  assert (Hincl : incl (matchedAffected entry) wide).
  { intros specifier Hs. rewrite Hm in Hs. apply uniqueStrings_In, filter_In in Hs as [Hs Hf].
    apply uniqueStrings_In, filter_In. split; [exact Hs|].
    destruct (JS.isEmpty version); cbn [negb] in Hf; [exact Hf|].
    unfold affectedSpecifierMatches in Hf. unfold affectedSpecifierMatchesWithoutVersion.
    destruct (Feed.parseAffectedSpecifier specifier); [|discriminate Hf].
    destruct (String.eqb _ _); [reflexivity|discriminate Hf]. }
  exists (mkFound (advisory entry) wide). split; [|split; [reflexivity|exact Hincl]].
  apply found_In. cbn [advisory matchedAffected]. split; [exact Ha|]. split; [reflexivity|].
  intros E. destruct (matchedAffected entry) as [|x r] eqn:Em; [contradiction|].
  specialize (Hincl x (or_introl eq_refl)). rewrite E in Hincl. destruct Hincl.
Qed.

(** The theorem at the advisory of the test feed. *)
Lemma omitting_the_version_hides_no_advisory_witness :
  exists entry,
    In entry (GuardedInstall.findMatches (asFeedPayload Fixtures.feedJson) "test-skill"
                EmptyString)
    /\ GuardedInstall.advisory entry = asAdvisory Fixtures.advisoryJson.
Proof.
  destruct (omitting_the_version_hides_no_advisory
              (asFeedPayload Fixtures.feedJson) "test-skill" "1.0.0"
              (GuardedInstall.mkFound (asAdvisory Fixtures.advisoryJson) ["test-skill@1.0.0"])
              ltac:(vm_compute; left; reflexivity))
    as (entry & Hin & Hadvisory & _).
  exists entry. split; [exact Hin|exact Hadvisory].
Defined.

(** For a requested version, the installer finds the advisories that the
    hook would report for a skill installed under that name and version,
    with the same matched specifiers. *)
Theorem installer_and_hook_find_the_same_advisories feed skillName dirName version :
  version <> EmptyString ->
  map (fun entry => (advisory entry, matchedAffected entry))
      (findMatches feed skillName version)
  = map (fun m => (AdvisoryMatch.advisory m, AdvisoryMatch.matchedAffected m))
        (Matching.findMatches feed [InstalledSkill.mk skillName dirName (Some version)]).
Proof.
  intros Hv. unfold findMatches, Matching.findMatches.
  assert (JS.isEmpty version = false) as Hne by (destruct version; [contradiction|reflexivity]).
  induction (FeedPayload.advisories feed) as [|a r IH]; [reflexivity|].
  cbn [flat_map]. rewrite !map_app, IH. f_equal.
  destruct (Nat.eqb (length (default [] (Advisory.affected a))) 0); [reflexivity|].
  rewrite Hne. cbn [negb flat_map]. rewrite app_nil_r.
  unfold Matching.advisoryMatchesSkill.
  change (fun specifier => Matching.affectedSpecifierMatchesSkill specifier
                             (InstalledSkill.mk skillName dirName (Some version)))
    with (fun specifier => affectedSpecifierMatches specifier skillName version).
  destruct (uniqueStrings _) as [|x l]; reflexivity.
Qed.

(** The theorem at the test feed and the installed test skill. *)
Lemma installer_and_hook_find_the_same_advisories_witness :
  map (fun entry => (GuardedInstall.advisory entry, GuardedInstall.matchedAffected entry))
      (GuardedInstall.findMatches (asFeedPayload Fixtures.feedJson) "test-skill" "1.0.0")
  = map (fun m => (AdvisoryMatch.advisory m, AdvisoryMatch.matchedAffected m))
        (Matching.findMatches (asFeedPayload Fixtures.feedJson) [Samples.testSkill]).
Proof.
  exact (installer_and_hook_find_the_same_advisories (asFeedPayload Fixtures.feedJson)
           "test-skill" "test-skill" "1.0.0" ltac:(discriminate)).
Defined.

End Installer.

(* ===================================================================== *)
(** ** The state after a scan *)
(* ===================================================================== *)




